(** * Medical intake form: step controller, validation, autosave and
      provider combobox of [script.js], embedded and verified.

    The script is an event-driven browser program.  Every handler of the
    script is translated to a computation over an explicit [World]: the
    module-level [state] object, the [localStorage] record, the part of the
    document the script reads and writes, and the combobox variables.
    A handler may stop with a [TypeError] (a property read on [null]); the
    world it had reached at that point is kept, as in the browser. *)

From Stdlib Require Import QArith.
From Stdlib Require Import Ascii String DecimalString.
From stdpp Require Import gmap strings list fin_maps.

Open Scope string_scope.
Open Scope list_scope.
Open Scope nat_scope.

(** ** JavaScript strings

    A string is a sequence of UTF-16 code units; the model keeps the code
    units 0..255 (ASCII and Latin-1), which cover the provider catalog, the
    three patterns and every literal of the script. *)
Module JsString.

Definition code (c : ascii) : nat := nat_of_ascii c.

(** White space and line terminators below 256: TAB, LF, VT, FF, CR,
    SPACE and NO-BREAK SPACE.  This is the set removed by
    [String.prototype.trim] and matched by the class [\s]. *)
Definition isWhite (c : ascii) : bool :=
  let n := code c in
  ((9 <=? n) && (n <=? 13)) || (n =? 32) || (n =? 160).

Definition isDigit (c : ascii) : bool :=
  let n := code c in (48 <=? n) && (n <=? 57).

Definition isAsciiLetter (c : ascii) : bool :=
  let n := code c in
  ((65 <=? n) && (n <=? 90)) || ((97 <=? n) && (n <=? 122)).

(** Code units that have a distinct lower-case form: A-Z and the
    Latin-1 capitals U+00C0..U+00DE without the multiplication sign. *)
Definition isUpper (c : ascii) : bool :=
  let n := code c in
  ((65 <=? n) && (n <=? 90))
  || ((192 <=? n) && (n <=? 222) && negb (n =? 215)).

Definition lowerChar (c : ascii) : ascii :=
  if isUpper c then ascii_of_nat (code c + 32) else c.

Definition upperChar (c : ascii) : ascii :=
  let n := code c in
  if ((97 <=? n) && (n <=? 122))
     || ((224 <=? n) && (n <=? 254) && negb (n =? 247))
  then ascii_of_nat (n - 32) else c.

Definition chars (s : string) : list ascii := list_ascii_of_string s.
Definition ofChars (l : list ascii) : string := string_of_list_ascii l.

Fixpoint trimStartL (l : list ascii) : list ascii :=
  match l with
  | c :: l' => if isWhite c then trimStartL l' else l
  | [] => []
  end.

Definition trimEndL (l : list ascii) : list ascii :=
  rev (trimStartL (rev l)).

(** [s.trim()] *)
Definition trim (s : string) : string :=
  ofChars (trimEndL (trimStartL (chars s))).

(** [s.toLowerCase()] and [s.toUpperCase()] *)
Definition toLowerCase (s : string) : string :=
  ofChars (map lowerChar (chars s)).
Definition toUpperCase (s : string) : string :=
  ofChars (map upperChar (chars s)).

Fixpoint startsWithL (p l : list ascii) : bool :=
  match p, l with
  | [], _ => true
  | a :: p', b :: l' => bool_decide (a = b) && startsWithL p' l'
  | _ :: _, [] => false
  end.

Fixpoint includesL (l sub : list ascii) : bool :=
  match l with
  | [] => startsWithL sub []
  | _ :: l' => startsWithL sub l || includesL l' sub
  end.

(** [s.includes(sub)] *)
Definition includes (s sub : string) : bool := includesL (chars s) (chars sub).

(** A string is falsy exactly when it is empty. *)
Definition truthy (s : string) : bool := negb (bool_decide (s = "")).

(** [re.test(s)] for a pattern [^[class]{lo,hi}$]. *)
Definition classRun (cls : ascii -> bool) (lo hi : nat) (l : list ascii) : bool :=
  (lo <=? List.length l) && (List.length l <=? hi) && forallb cls l.

End JsString.

(** ** JavaScript numbers

    Finite numbers are kept as exact rationals (every double is one); the
    script only compares them with small integers and adds or subtracts
    one, which is exact on the integers it meets. *)
Module JsNum.

Inductive jsnum : Type :=
| Fin (q : Q)
| PosInf
| NegInf
| NaN.

Definition ofZ (z : Z) : jsnum := Fin (inject_Z z).
Definition ofNat (n : nat) : jsnum := ofZ (Z.of_nat n).

Definition isNaN (a : jsnum) : bool :=
  match a with NaN => true | _ => false end.

(** [a <= b] on numbers that are not NaN. *)
Definition leb (a b : jsnum) : bool :=
  match a, b with
  | NaN, _ | _, NaN => false
  | NegInf, _ => true
  | _, PosInf => true
  | Fin x, Fin y => Qle_bool x y
  | _, _ => false
  end.

(** [a === b] *)
Definition eqb (a b : jsnum) : bool :=
  match a, b with
  | Fin x, Fin y => Qeq_bool x y
  | PosInf, PosInf | NegInf, NegInf => true
  | _, _ => false
  end.

(** [Math.max(a, b)] and [Math.min(a, b)]: NaN if either is NaN. *)
Definition max (a b : jsnum) : jsnum :=
  match a, b with
  | NaN, _ | _, NaN => NaN
  | _, _ => if leb a b then b else a
  end.

Definition min (a b : jsnum) : jsnum :=
  match a, b with
  | NaN, _ | _, NaN => NaN
  | _, _ => if leb a b then a else b
  end.

Definition add (a : jsnum) (z : Z) : jsnum :=
  match a with
  | Fin x => Fin (x + inject_Z z)
  | other => other
  end.

(** Truthiness of a number: zero and NaN are falsy. *)
Definition truthy (a : jsnum) : bool :=
  match a with
  | Fin x => negb (Qeq_bool x 0)
  | NaN => false
  | _ => true
  end.

(** The array index or small property key [k] a number stands for:
    [arr[a]] reads element [k] when [a] is the integer [k >= 0], and is
    [undefined] for every other number. *)
Definition index (a : jsnum) : option nat :=
  match a with
  | Fin x =>
      let r := Qred x in
      if bool_decide (Qden r = 1%positive) && (0 <=? Qnum r)%Z
      then Some (Z.to_nat (Qnum r)) else None
  | _ => None
  end.

(** [a] is one of the integers 1..[hi]. *)
Definition isStep (hi : nat) (a : jsnum) : Prop :=
  exists k : nat, (1 <= k <= hi)%nat /\ index a = Some k.

End JsNum.

Import JsString.

(** ** The [state] object, the stored record and the document *)

(** A value held under a key of [state.data]: a string (scalar fields) or
    an array of strings ([allergies], [conditions]). *)
Inductive fieldval : Type :=
| VStr (s : string)
| VArr (l : list string).

(** The module-level [state] object.  [state.totalSteps] is the constant 4:
    the script never assigns it. *)
Record AppState : Type := {
  step : JsNum.jsnum;
  data : gmap string fieldval;
  contrast : bool;
}.

Definition totalSteps : JsNum.jsnum := JsNum.ofZ 4.

(** What [JSON.parse] makes of a stored text, read through the members the
    script looks at: [saved.step], [saved.data], [saved.ui.contrast].  A
    member is [None] when it is missing or [null].  [snap_step] is a JSON
    number, [snap_data] an object of strings and string arrays. *)
Record Snapshot : Type := {
  snap_step : option JsNum.jsnum;
  snap_data : option (gmap string fieldval);
  snap_contrast : option bool;
}.

(** The record under [STORE_KEY] in [localStorage]. *)
Inductive Stored : Type :=
| Absent                 (* no record: [getItem] returns [null] *)
| Unparseable            (* an empty text, or one [JSON.parse] rejects *)
| Falsy                  (* the JSON text of [null], [false], [0] or the empty string *)
| Json (s : Snapshot).   (* any other JSON text *)

(** How the storage area answers: normally, with a quota error on every
    write, or with an error on every access (storage disabled). *)
Inductive StorageMode : Type := Working | QuotaExceeded | Disabled.

Inductive tag : Type := Input | Select | Textarea | Button.

Inductive mark : Type := MarkValid | MarkInvalid.

#[global] Instance mark_eq_dec : EqDecision mark.
Proof. solve_decision. Defined.

(** A form control or button of the page.  [el_control] names the
    container [validateField] decorates
    ([el.closest('.form-control') || comboControl || el.parentElement]);
    [el_step] is the index (0..3) of the step container the element is in. *)
Record Element : Type := {
  el_id : string;
  el_tag : tag;
  el_type : string;
  el_name : string;
  el_required : bool;
  el_value : string;
  el_default : string;
  el_checked : bool;
  el_default_checked : bool;
  el_disabled : bool;
  el_aria_invalid : bool;
  el_options : list (string * string);
  el_step : option nat;
  el_in_form : bool;
  el_control : string;
  el_control_is_form_control : bool;
}.

(** A step container [#step-k]. *)
Record StepEl : Type := {
  se_hidden : bool;
  se_name : option string;   (* [data-step-name] *)
}.

(** A message handed to a live region. *)
Inductive notice : Type :=
| Msg (text : string)
| StepMsg (s : JsNum.jsnum) (name : option string).  (* [`Step ${s} of 4: ${name}`] *)

(** What a summary cell shows: the em-dash placeholder or a text. *)
Inductive cell : Type := Dash | Shown (s : string).

(** The popup list [#provider-listbox]: the text of its rendered options
    (option [i] has id [provider-opt-i]) and its [hidden] flag. *)
Record Listbox : Type := {
  lb_options : list string;
  lb_hidden : bool;
}.

(** The part of the document the script reads and writes.  Elements are
    kept in document order and referred to by position.  Attributes the
    script writes and never reads (progress bar, indicator classes, ARIA
    expanded/selected state, counters, status line) are left out. *)
Record Document : Type := {
  nodes : list Element;
  marks : gmap string mark;            (* class [valid]/[invalid] of control containers *)
  focus : option nat;                  (* the element holding focus *)
  stepEls : list (option StepEl);      (* the array [steps]; [None] is [null] *)
  summary : gmap string cell;          (* text of the elements [#sum-...] that exist *)
  chips : option (list string);        (* chips in [#allergy-chips]; [None] when missing *)
  polite : option (list notice);       (* messages given to [#live-region-polite] *)
  assertive : option (list notice);    (* messages given to [#live-region-assertive] *)
  listbox : option Listbox;
  comboBox : bool;                     (* [#provider-combobox] exists *)
}.

(** Built-ins of the browser the script calls: constraint validation of an
    element in its current state, and [new Date(v) <= new Date()]. *)
Record Browser : Type := {
  checkValidity : Element -> bool;
  dateNotAfterNow : string -> bool;
}.

Record World : Type := {
  state : AppState;
  store : Stored;
  mode : StorageMode;
  doc : Document;
  providerActive : option nat;     (* [providerActiveId]: [None] is the empty id *)
  providerFiltered : list string;
  timers : nat;                    (* pending submission callbacks *)
  browser : Browser;
}.

(** *** Field updates *)

Definition setState (a : AppState) (w : World) : World :=
  {| state := a; store := store w; mode := mode w; doc := doc w;
     providerActive := providerActive w; providerFiltered := providerFiltered w;
     timers := timers w; browser := browser w |}.

Definition setStore (s : Stored) (w : World) : World :=
  {| state := state w; store := s; mode := mode w; doc := doc w;
     providerActive := providerActive w; providerFiltered := providerFiltered w;
     timers := timers w; browser := browser w |}.

Definition setDoc (d : Document) (w : World) : World :=
  {| state := state w; store := store w; mode := mode w; doc := d;
     providerActive := providerActive w; providerFiltered := providerFiltered w;
     timers := timers w; browser := browser w |}.

Definition setProviderActive (a : option nat) (w : World) : World :=
  {| state := state w; store := store w; mode := mode w; doc := doc w;
     providerActive := a; providerFiltered := providerFiltered w;
     timers := timers w; browser := browser w |}.

Definition setProviderFiltered (l : list string) (w : World) : World :=
  {| state := state w; store := store w; mode := mode w; doc := doc w;
     providerActive := providerActive w; providerFiltered := l;
     timers := timers w; browser := browser w |}.

Definition setTimers (n : nat) (w : World) : World :=
  {| state := state w; store := store w; mode := mode w; doc := doc w;
     providerActive := providerActive w; providerFiltered := providerFiltered w;
     timers := n; browser := browser w |}.

Definition setStep (s : JsNum.jsnum) (w : World) : World :=
  setState {| step := s; data := data (state w); contrast := contrast (state w) |} w.
Definition setData (d : gmap string fieldval) (w : World) : World :=
  setState {| step := step (state w); data := d; contrast := contrast (state w) |} w.
Definition setContrast (c : bool) (w : World) : World :=
  setState {| step := step (state w); data := data (state w); contrast := c |} w.

Definition setNodes (l : list Element) (d : Document) : Document :=
  {| nodes := l; marks := marks d; focus := focus d; stepEls := stepEls d;
     summary := summary d; chips := chips d; polite := polite d;
     assertive := assertive d; listbox := listbox d; comboBox := comboBox d |}.
Definition setMarks (m : gmap string mark) (d : Document) : Document :=
  {| nodes := nodes d; marks := m; focus := focus d; stepEls := stepEls d;
     summary := summary d; chips := chips d; polite := polite d;
     assertive := assertive d; listbox := listbox d; comboBox := comboBox d |}.
Definition setFocus (f : option nat) (d : Document) : Document :=
  {| nodes := nodes d; marks := marks d; focus := f; stepEls := stepEls d;
     summary := summary d; chips := chips d; polite := polite d;
     assertive := assertive d; listbox := listbox d; comboBox := comboBox d |}.
Definition setStepEls (l : list (option StepEl)) (d : Document) : Document :=
  {| nodes := nodes d; marks := marks d; focus := focus d; stepEls := l;
     summary := summary d; chips := chips d; polite := polite d;
     assertive := assertive d; listbox := listbox d; comboBox := comboBox d |}.
Definition setSummaryMap (m : gmap string cell) (d : Document) : Document :=
  {| nodes := nodes d; marks := marks d; focus := focus d; stepEls := stepEls d;
     summary := m; chips := chips d; polite := polite d;
     assertive := assertive d; listbox := listbox d; comboBox := comboBox d |}.
Definition setChips (c : option (list string)) (d : Document) : Document :=
  {| nodes := nodes d; marks := marks d; focus := focus d; stepEls := stepEls d;
     summary := summary d; chips := c; polite := polite d;
     assertive := assertive d; listbox := listbox d; comboBox := comboBox d |}.
Definition setPolite (p : option (list notice)) (d : Document) : Document :=
  {| nodes := nodes d; marks := marks d; focus := focus d; stepEls := stepEls d;
     summary := summary d; chips := chips d; polite := p;
     assertive := assertive d; listbox := listbox d; comboBox := comboBox d |}.
Definition setAssertive (p : option (list notice)) (d : Document) : Document :=
  {| nodes := nodes d; marks := marks d; focus := focus d; stepEls := stepEls d;
     summary := summary d; chips := chips d; polite := polite d;
     assertive := p; listbox := listbox d; comboBox := comboBox d |}.
Definition setListbox (l : option Listbox) (d : Document) : Document :=
  {| nodes := nodes d; marks := marks d; focus := focus d; stepEls := stepEls d;
     summary := summary d; chips := chips d; polite := polite d;
     assertive := assertive d; listbox := l; comboBox := comboBox d |}.

Definition setValue (v : string) (e : Element) : Element :=
  {| el_id := el_id e; el_tag := el_tag e; el_type := el_type e; el_name := el_name e;
     el_required := el_required e; el_value := v; el_default := el_default e;
     el_checked := el_checked e; el_default_checked := el_default_checked e;
     el_disabled := el_disabled e; el_aria_invalid := el_aria_invalid e;
     el_options := el_options e; el_step := el_step e; el_in_form := el_in_form e;
     el_control := el_control e;
     el_control_is_form_control := el_control_is_form_control e |}.
Definition setChecked (b : bool) (e : Element) : Element :=
  {| el_id := el_id e; el_tag := el_tag e; el_type := el_type e; el_name := el_name e;
     el_required := el_required e; el_value := el_value e; el_default := el_default e;
     el_checked := b; el_default_checked := el_default_checked e;
     el_disabled := el_disabled e; el_aria_invalid := el_aria_invalid e;
     el_options := el_options e; el_step := el_step e; el_in_form := el_in_form e;
     el_control := el_control e;
     el_control_is_form_control := el_control_is_form_control e |}.
Definition setDisabled (b : bool) (e : Element) : Element :=
  {| el_id := el_id e; el_tag := el_tag e; el_type := el_type e; el_name := el_name e;
     el_required := el_required e; el_value := el_value e; el_default := el_default e;
     el_checked := el_checked e; el_default_checked := el_default_checked e;
     el_disabled := b; el_aria_invalid := el_aria_invalid e;
     el_options := el_options e; el_step := el_step e; el_in_form := el_in_form e;
     el_control := el_control e;
     el_control_is_form_control := el_control_is_form_control e |}.
Definition setAriaInvalid (b : bool) (e : Element) : Element :=
  {| el_id := el_id e; el_tag := el_tag e; el_type := el_type e; el_name := el_name e;
     el_required := el_required e; el_value := el_value e; el_default := el_default e;
     el_checked := el_checked e; el_default_checked := el_default_checked e;
     el_disabled := el_disabled e; el_aria_invalid := b;
     el_options := el_options e; el_step := el_step e; el_in_form := el_in_form e;
     el_control := el_control e;
     el_control_is_form_control := el_control_is_form_control e |}.

(** ** Computations: a world threaded through, possibly stopped by a throw *)

Inductive res (A : Type) : Type :=
| Done (a : A) (w : World)
| Thrown (w : World).
Arguments Done {A} a w.
Arguments Thrown {A} w.

Definition M (A : Type) : Type := World -> res A.

Definition ret {A : Type} (a : A) : M A := fun w => Done a w.
Definition bind {A B : Type} (m : M A) (k : A -> M B) : M B :=
  fun w => match m w with
           | Done a w' => k a w'
           | Thrown w' => Thrown w'
           end.
Definition throw {A : Type} : M A := fun w => Thrown w.
Definition get : M World := fun w => Done w w.
Definition modify (f : World -> World) : M unit := fun w => Done tt (f w).

(** The world a run ends in, thrown or not. *)
Definition final {A : Type} (r : res A) : World :=
  match r with Done _ w => w | Thrown w => w end.

Definition completed {A : Type} (r : res A) : Prop :=
  match r with Done _ _ => True | Thrown _ => False end.

Declare Scope js_scope.
Delimit Scope js_scope with js.
Notation "x <- m ;; k" := (bind m (fun x => k))
  (at level 100, m at next level, right associativity) : js_scope.
Notation "m ;; k" := (bind m (fun _ => k))
  (at level 100, right associativity) : js_scope.
Open Scope js_scope.

Definition modifyDoc (f : Document -> Document) : M unit :=
  modify (fun w => setDoc (f (doc w)) w).

(** ** Storage helpers *)

(** The snapshot [JSON.parse] reads back from [JSON.stringify(state)]:
    a number that is not finite is written as [null]. *)
Definition snapshotOf (a : AppState) : Snapshot :=
  {| snap_step := match step a with JsNum.Fin q => Some (JsNum.Fin q) | _ => None end;
     snap_data := Some (data a);
     snap_contrast := Some (contrast a) |}.

Definition saveState (w : World) : World :=
  match mode w with
  | Working => setStore (Json (snapshotOf (state w))) w
  | _ => w        (* [setItem] throws; the [catch] swallows it *)
  end.

(** [loadState()]: [None] stands for [null] and for a falsy parsed value. *)
Definition loadState (w : World) : option Snapshot :=
  match mode w with
  | Disabled => None
  | _ => match store w with
         | Json s => Some s
         | _ => None
         end
  end.

Definition clearState (w : World) : World :=
  match mode w with
  | Disabled => w
  | _ => setStore Absent w
  end.

(** ** Live regions *)

Definition announcePolite (msg : notice) : M unit :=
  modifyDoc (fun d => match polite d with
                      | Some l => setPolite (Some (l ++ [msg])) d
                      | None => d
                      end).
Definition announceAssertive (msg : notice) : M unit :=
  modifyDoc (fun d => match assertive d with
                      | Some l => setAssertive (Some (l ++ [msg])) d
                      | None => d
                      end).

(** [persist(announce)] *)
Definition persist (announce : bool) : M unit :=
  modify saveState;;
  if announce then announcePolite (Msg "Progress saved.") else ret tt.

(** ** Document queries *)

(** [document.getElementById(id)]: the first element, in document order,
    with that id. *)
Definition getElementById (id : string) (d : Document) : option nat :=
  if bool_decide (id = "") then None
  else fst <$> list_find (fun e => el_id e = id) (nodes d).

(** A value that may be an object, [null] or [undefined]. *)
Inductive ref : Type := Undefined | Null | Obj (k : nat).

Definition isObj (k : nat) (r : ref) : bool :=
  match r with Obj j => j =? k | _ => false end.

(** [steps[a]] *)
Definition stepsAt (d : Document) (a : JsNum.jsnum) : ref :=
  match JsNum.index a with
  | Some k => match stepEls d !! k with
              | Some (Some _) => Obj k
              | Some None => Null
              | None => Undefined
              end
  | None => Undefined
  end.

Fixpoint selectFrom (i : nat) (P : Element -> bool) (l : list Element) : list nat :=
  match l with
  | [] => []
  | e :: l' => if P e then i :: selectFrom (S i) P l' else selectFrom (S i) P l'
  end.

Definition inStep (k : nat) (e : Element) : bool :=
  bool_decide (el_step e = Some k).

(** [$$(sel, root)]: the elements under [root] that satisfy the selector,
    in document order.  An [undefined] root takes the default, the whole
    document; a [null] root is a [TypeError]. *)
Definition queryAll (sel : Element -> bool) (root : ref) : M (list nat) :=
  fun w =>
    match root with
    | Null => Thrown w
    | Undefined => Done (selectFrom 0 sel (nodes (doc w))) w
    | Obj k => Done (selectFrom 0 (fun e => inStep k e && sel e) (nodes (doc w))) w
    end.

Definition isField (e : Element) : bool :=
  match el_tag e with Button => false | _ => true end.

Definition updNode (n : nat) (f : Element -> Element) : M unit :=
  modifyDoc (fun d => setNodes (alter f n (nodes d)) d).

Definition focusOn (n : nat) : M unit := modifyDoc (setFocus (Some n)).

(** ** Patterns and validators *)

Definition isOneOf (s : string) (c : ascii) : bool :=
  bool_decide (c ∈ chars s).

(** [/^\+?[0-9\s\-\(\)]{7,20}$/] *)
Definition phonePattern (s : string) : bool :=
  let body := match chars s with
              | "+"%char :: t => t
              | l => l
              end in
  classRun (fun c => isDigit c || isWhite c || isOneOf "-()" c) 7 20 body.

(** [/^[A-Za-z0-9\-]{6,25}$/] *)
Definition policyPattern (s : string) : bool :=
  classRun (fun c => isAsciiLetter c || isDigit c || isOneOf "-" c) 6 25 (chars s).

(** [/^[A-Za-z0-9\- ]{3,12}$/] *)
Definition postalPattern (s : string) : bool :=
  classRun (fun c => isAsciiLetter c || isDigit c || isOneOf "- " c) 3 12 (chars s).

Definition isNonEmpty (v : string) : bool := 0 <? String.length (trim v).
Definition isValidPhone (v : string) : bool := phonePattern (trim v).
Definition isValidPolicy (v : string) : bool := policyPattern (trim v).
Definition isValidPostal (v : string) : bool := postalPattern (trim v).

(** ** Validation *)

Definition setValid (control : string) : M unit :=
  modifyDoc (fun d => setMarks (<[control := MarkValid]> (marks d)) d).
Definition setInvalid (control : string) : M unit :=
  modifyDoc (fun d => setMarks (<[control := MarkInvalid]> (marks d)) d).

(** The body of [validateField(el)]; [self] is the function called for the
    re-check of the confirmation field. *)
Definition validateFieldWith (self : option nat -> M bool) (el : option nat) : M bool :=
  match el with
  | None => ret true
  | Some n =>
      w <- get;;
      match nodes (doc w) !! n with
      | None => ret true
      | Some e =>
          let id := el_id e in
          let val := trim (el_value e) in
          valid <-
            (if bool_decide (id ∈ ["firstName"; "lastName"; "address1"; "city"; "country"])
             then ret (isNonEmpty val)
             else if (id =? "dob")%string
             then ret (isNonEmpty val && dateNotAfterNow (browser w) val)
             else if (id =? "phone")%string
             then ret (isNonEmpty val && isValidPhone val)
             else if (id =? "email")%string
             then ret (checkValidity (browser w) e)
             else if (id =? "postalCode")%string
             then ret (isValidPostal val)
             else if (id =? "provider-input")%string
             then ret (isNonEmpty val)
             else if (id =? "policyNumber")%string
             then
               (match getElementById "policyConfirm" (doc w) with
                | Some c =>
                    match nodes (doc w) !! c with
                    | Some ce => if truthy (el_value ce)
                                 then (_ <- self (Some c);; ret tt)
                                 else ret tt
                    | None => ret tt
                    end
                | None => ret tt
                end);;
               ret (isValidPolicy val)
             else if (id =? "policyConfirm")%string
             then
               if isNonEmpty val
               then match getElementById "policyNumber" (doc w) with
                    | Some p =>
                        match nodes (doc w) !! p with
                        | Some pe => ret (bool_decide (val = el_value pe))
                        | None => throw
                        end
                    | None => throw     (* [$('#policyNumber')] is [null] *)
                    end
               else ret false
             else if (id =? "coverageStart")%string
             then ret (isNonEmpty val && dateNotAfterNow (browser w) val)
             else if (id =? "insurerPhone")%string
             then ret (negb (truthy val) || isValidPhone val)
             else ret (if el_required e then checkValidity (browser w) e else true));;
          (if valid then setValid (el_control e) else setInvalid (el_control e));;
          ret valid
      end
  end.

(** [validateField(el)].  The nested call always targets the element with
    id [policyConfirm], whose case makes no further call, so two levels
    of the body are the whole function. *)
Definition validateField : option nat -> M bool :=
  validateFieldWith (validateFieldWith (fun _ => ret true)).

Definition requiredByStep (stepNumber : JsNum.jsnum) : list string :=
  match JsNum.index stepNumber with
  | Some 1 => ["firstName"; "lastName"; "dob"; "phone"; "email"; "address1";
               "city"; "postalCode"; "country"]
  | Some 2 => ["provider-input"; "policyNumber"; "policyConfirm"; "coverageStart"]
  | _ => []
  end.

(** The pair [{ valid, firstInvalid }]. *)
Record StepCheck : Type := {
  valid : bool;
  firstInvalid : option nat;
}.

(** One turn of the two [forEach] loops of [validateStep]. *)
Definition checkOne (el : option nat) (acc : StepCheck) : M StepCheck :=
  ok <- validateField el;;
  ret {| valid := valid acc && ok;
         firstInvalid := if valid acc && negb ok then el else firstInvalid acc |}.

Fixpoint checkRequired (ids : list string) (acc : StepCheck) : M StepCheck :=
  match ids with
  | [] => ret acc
  | id :: rest =>
      w <- get;;
      acc' <- checkOne (getElementById id (doc w)) acc;;
      checkRequired rest acc'
  end.

Fixpoint checkOptional (requiredIds : list string) (els : list nat) (acc : StepCheck)
  : M StepCheck :=
  match els with
  | [] => ret acc
  | n :: rest =>
      w <- get;;
      acc' <-
        match nodes (doc w) !! n with
        | Some e =>
            if bool_decide (el_id e ∈ requiredIds) then ret acc
            else if (truthy (el_value e) && (0 <? String.length (trim (el_value e))))
                    || (el_type e =? "date")%string
            then checkOne (Some n) acc
            else ret acc
        | None => ret acc
        end;;
      checkOptional requiredIds rest acc'
  end.

(** The block [if (stepNumber === 2) { ... }] of [validateStep]. *)
Definition checkInsurerPhone (stepNumber : JsNum.jsnum) (acc1 : StepCheck) : M StepCheck :=
  if JsNum.eqb stepNumber (JsNum.ofZ 2)
  then
    w <- get;;
    match getElementById "insurerPhone" (doc w) with
    | Some p =>
        match nodes (doc w) !! p with
        | Some pe =>
            if truthy (el_value pe)
            then ok <- validateField (Some p);;
                 if ok then ret acc1
                 else ret {| valid := false;
                             firstInvalid := match firstInvalid acc1 with
                                             | Some f => Some f
                                             | None => Some p
                                             end |}
            else ret acc1
        | None => ret acc1
        end
    | None => ret acc1
    end
  else ret acc1.

(** [validateStep(stepNumber)] *)
Definition validateStep (stepNumber : JsNum.jsnum) : M StepCheck :=
  w0 <- get;;
  let stepEl := stepsAt (doc w0) (JsNum.add stepNumber (-1)) in
  let requiredIds := requiredByStep stepNumber in
  acc1 <- checkRequired requiredIds {| valid := true; firstInvalid := None |};;
  acc2 <- checkInsurerPhone stepNumber acc1;;
  els <- queryAll isField stepEl;;
  checkOptional requiredIds els acc2.

(** ** Navigation and progress *)

(** [Math.min(Math.max(stepNumber, 1), state.totalSteps)] *)
Definition clampStep (stepNumber : JsNum.jsnum) : JsNum.jsnum :=
  JsNum.min (JsNum.max stepNumber (JsNum.ofZ 1)) totalSteps.

Definition decimal (k : nat) : string :=
  DecimalString.NilEmpty.string_of_uint (Nat.to_uint k).

(** The id looked up by [$(`#back-${s}`)] for a clamped [s]; a number
    with a fractional part prints with a dot, which is not a selector, and
    the query throws a [SyntaxError] ([None]). *)
Definition backButtonId (s : JsNum.jsnum) : option string :=
  match s with
  | JsNum.NaN => Some "back-NaN"
  | JsNum.PosInf => Some "back-Infinity"
  | JsNum.NegInf => Some "back--Infinity"
  | JsNum.Fin _ => match JsNum.index s with
                   | Some k => Some ("back-" +:+ decimal k)
                   | None => None
                   end
  end.

Definition setHidden (k : nat) (h : bool) : M unit :=
  modifyDoc (fun d =>
    setStepEls (alter (fun o => match o with
                                | Some se => Some {| se_hidden := h; se_name := se_name se |}
                                | None => None
                                end) k (stepEls d)) d).

Definition stepName (d : Document) (r : ref) : option string :=
  match r with
  | Obj k => match stepEls d !! k with
             | Some (Some se) => match se_name se with
                                 | Some n => if truthy n then Some n else None
                                 | None => None
                                 end
             | _ => None
             end
  | _ => None
  end.

(** The statements of [goToStep] that work on the document, for the
    clamped step [s]: containers, focus, announcement, Back button. *)
Definition presentStep (s : JsNum.jsnum) (focus announce : bool) : M unit :=
  w <- get;;
  let currentEl := stepsAt (doc w) (JsNum.add (step (state w)) (-1)) in
  let nextEl := stepsAt (doc w) (JsNum.add s (-1)) in
  (match currentEl with
   | Obj k => if isObj k nextEl then ret tt else setHidden k true
   | _ => ret tt
   end);;
  (match nextEl with
   | Obj k => setHidden k false
   | _ => ret tt
   end);;
  (if focus
   then
     inv <- queryAll el_aria_invalid nextEl;;
     match inv with
     | n :: _ => focusOn n
     | [] =>
         all <- queryAll (fun _ => true) nextEl;;
         match all with
         | n :: _ => focusOn n
         | [] => ret tt
         end
     end
   else ret tt);;
  (if announce then announcePolite (StepMsg s (stepName (doc w) nextEl)) else ret tt);;
  match backButtonId s with
  | None => throw
  | Some id =>
      w' <- get;;
      match getElementById id (doc w') with
      | Some b => updNode b (setDisabled (JsNum.eqb s (JsNum.ofZ 1)))
      | None => ret tt
      end
  end.

(** [goToStep(stepNumber, { focus, announce })].  [focus] of the document
    records the element whose [focus()] was called last. *)
Definition goToStep (stepNumber : JsNum.jsnum) (focus announce : bool) : M unit :=
  let s := clampStep stepNumber in
  presentStep s focus announce;;
  modify (setStep s);;
  persist false.

(** ** Review population *)

Fixpoint join (sep : string) (l : list string) : string :=
  match l with
  | [] => ""
  | [a] => a
  | a :: rest => a +:+ sep +:+ join sep rest
  end.

(** [String(v)] *)
Definition toText (v : fieldval) : string :=
  match v with VStr s => s | VArr l => join "," l end.

Definition truthyVal (v : option fieldval) : bool :=
  match v with
  | Some (VStr s) => truthy s
  | Some (VArr _) => true
  | None => false
  end.

(** [value || '—'] *)
Definition orDash (v : option fieldval) : cell :=
  match v with
  | Some x => if truthyVal v then Shown (toText x) else Dash
  | None => Dash
  end.

(** [setSummary(id, value)] with [value] already a cell. *)
Definition setSummary (id : string) (c : cell) : M unit :=
  modifyDoc (fun d =>
    match summary d !! id with
    | Some _ => setSummaryMap (<[id := c]> (summary d)) d
    | None => d
    end).

(** [labelForSelect('#gender', value)] *)
Definition labelForSelect (id : string) (v : option fieldval) (d : Document) : option fieldval :=
  match getElementById id d with
  | Some n =>
      match nodes d !! n, v with
      | Some e, Some (VStr s) =>
          match list_find (fun o => fst o = s) (el_options e) with
          | Some (_, (_, label)) => Some (VStr label)
          | None => v
          end
      | _, _ => v
      end
  | None => v
  end.

(** [x.length ? x.join(', ') : none] on a value of [state.data]. *)
Definition joinOr (none : string) (v : option fieldval) : M cell :=
  match v with
  | Some (VArr []) => ret (Shown none)
  | Some (VArr l) => ret (Shown (join ", " l))
  | Some (VStr s) => if truthy s then throw else ret (Shown none)
  | None => throw
  end.

Definition populateReview : M unit :=
  w <- get;;
  let dat := data (state w) in
  let plain (k : string) := setSummary ("sum-" +:+ k) (orDash (dat !! k)) in
  plain "firstName";; plain "lastName";; plain "dob";;
  setSummary "sum-gender" (orDash (labelForSelect "gender" (dat !! "gender") (doc w)));;
  plain "phone";; plain "email";;
  (let parts := filter (fun v => truthyVal (Some v))
                       (omap id [dat !! "address1"; dat !! "address2"]) in
   setSummary "sum-address"
     (if truthy (join ", " (toText <$> parts)) then Shown (join ", " (toText <$> parts)) else Dash));;
  plain "city";; plain "postalCode";; plain "country";;
  plain "provider";; plain "policyNumber";; plain "groupNumber";;
  plain "coverageStart";; plain "insurerPhone";;
  a <- joinOr "None reported" (dat !! "allergies");;
  setSummary "sum-allergies" a;;
  c <- (match dat !! "conditions" with
        | None => ret (Shown "None selected")
        | v => joinOr "None selected" v
        end);;
  setSummary "sum-conditions" c;;
  plain "medications";; plain "notes".

(** ** Next, Back and the edit links *)

(** [handleNext(e)].  [hint] is [Number(btn.dataset.next)] when the
    button carries a non-empty [data-next]. *)
Definition handleNext (hint : option JsNum.jsnum) : M unit :=
  w <- get;;
  let next := match hint with
              | Some n => n
              | None => JsNum.add (step (state w)) 1
              end in
  let current := step (state w) in
  chk <- validateStep current;;
  if negb (valid chk)
  then
    match firstInvalid chk with
    | Some f =>
        focusOn f;;
        announceAssertive (Msg "Please correct the highlighted fields before proceeding.")
    | None => ret tt
    end
  else
    (if JsNum.eqb next (JsNum.ofZ 4) then populateReview else ret tt);;
    goToStep next true true;;
    persist false.

(** [handleBack(e)].  [hint] is [Number(btn.dataset.prev)] when present. *)
Definition handleBack (hint : option JsNum.jsnum) : M unit :=
  w <- get;;
  let prev := match hint with
              | Some n => n
              | None => JsNum.add (step (state w)) (-1)
              end in
  let target := JsNum.max (JsNum.ofZ 1) prev in
  goToStep target true true;;
  persist false.

(** The click listener of the [.edit-section] buttons. *)
Definition handleEdit (hint : option JsNum.jsnum) : M unit :=
  goToStep (match hint with Some n => n | None => JsNum.ofZ 1 end) true true.

(** ** Input and autosave *)

(** [syncState(key, value)] *)
Definition syncState (key value : string) : M unit :=
  modify (fun w => match data (state w) !! key with
                   | Some _ => setData (<[key := VStr value]> (data (state w))) w
                   | None => w
                   end).

(** [handleInput(e)] with [e.target] the element [t]. *)
Definition handleInput (t : nat) : M unit :=
  w <- get;;
  match nodes (doc w) !! t with
  | None => ret tt
  | Some e =>
      if negb (truthy (el_name e)) && negb (truthy (el_id e)) then ret tt
      else
        let key := if (el_id e =? "provider-input")%string then "provider" else el_id e in
        match data (state w) !! key with
        | Some _ =>
            syncState key (el_value e);;
            _ <- validateField (Some t);;
            persist true
        | None => ret tt
        end
  end.

(** The user replaces the content of element [t] by [v]; the debounced
    listener then runs on the value the element holds. *)
Definition userEdits (t : nat) (v : string) : M unit :=
  updNode t (setValue v);;
  handleInput t.

(** [handleBlurValidation(e)] with [e.target] the element [t]. *)
Definition handleBlurValidation (t : nat) : M unit :=
  w <- get;;
  match nodes (doc w) !! t with
  | None => ret tt
  | Some e => if truthy (el_id e) then _ <- validateField (Some t);; ret tt else ret tt
  end.

(** The listeners [bindEvents] puts on single fields.  On blur,
    [firstName], [lastName] and [city] are put in title case; on input,
    [postalCode] is put in upper case, and [phone] and [insurerPhone] lose
    the characters a phone number cannot hold.  Each listener then runs
    [syncState(id, el.value); validateField(el); persist()].  The text the
    field holds after the rewriting is [v], whatever it is. *)
Definition rewrittenIds : list string :=
  ["firstName"; "lastName"; "city"; "postalCode"; "phone"; "insurerPhone"].

Definition onFieldRewrite (id v : string) : M unit :=
  w <- get;;
  if bool_decide (id ∈ rewrittenIds)
  then match getElementById id (doc w) with
       | None => ret tt
       | Some n =>
           updNode n (setValue v);;
           w' <- get;;
           syncState id (match nodes (doc w') !! n with
                         | Some e => el_value e
                         | None => v
                         end);;
           _ <- validateField (Some n);;
           persist true
       end
  else ret tt.

(** The click listener of the contrast toggle; [on] tells whether the
    root element carries [data-contrast="high"]. *)
Definition onContrastToggle (on : bool) : M unit :=
  w <- get;;
  match getElementById "toggle-contrast" (doc w) with
  | None => ret tt
  | Some _ =>
      modify (setContrast (negb on));;
      persist false;;
      announcePolite (Msg (if negb on then "High contrast enabled."
                           else "High contrast disabled."))
  end.

(** ** Static provider list and initial state *)

Definition PROVIDERS : list string :=
  ["SIGMA Health"; "Eurolife Insurance"; "Vienna Insurance Group"; "UNION Health";
   "Delfin Insurance"; "Bupa"; "Allianz"; "Aetna"; "Cigna"; "Humana";
   "UnitedHealthcare"; "Blue Cross Blue Shield"; "Kaiser Permanente"; "AXA";
   "Zurich Insurance"; "MetLife"; "Prudential"; "Generali"; "Engjelli Insurance";
   "Illyrian Health"].

(** The literal both [state.data] starts from and [handleSubmit] assigns. *)
Definition emptyFields : list (string * fieldval) :=
  [("firstName", VStr ""); ("lastName", VStr ""); ("dob", VStr ""); ("gender", VStr "");
   ("phone", VStr ""); ("email", VStr ""); ("address1", VStr ""); ("address2", VStr "");
   ("city", VStr ""); ("postalCode", VStr ""); ("country", VStr "");
   ("provider", VStr ""); ("policyNumber", VStr ""); ("policyConfirm", VStr "");
   ("groupNumber", VStr ""); ("coverageStart", VStr ""); ("insurerPhone", VStr "");
   ("allergies", VArr []); ("conditions", VArr []);
   ("medications", VStr ""); ("notes", VStr "")].

Definition emptyData : gmap string fieldval := list_to_map emptyFields.

Definition initialState : AppState :=
  {| step := JsNum.ofZ 1; data := emptyData; contrast := false |}.

(** The world when the script starts on a freshly loaded page. *)
Definition boot (page : Document) (s : Stored) (m : StorageMode) (b : Browser) : World :=
  {| state := initialState; store := s; mode := m; doc := page;
     providerActive := None; providerFiltered := PROVIDERS;
     timers := 0; browser := b |}.

(** ** Allergy chips *)

(** [renderAllergyChips()] *)
Definition renderAllergyChips : M unit :=
  w <- get;;
  match chips (doc w) with
  | None => ret tt
  | Some _ =>
      match data (state w) !! "allergies" with
      | Some (VArr l) => modifyDoc (setChips (Some l))
      | _ => modifyDoc (setChips (Some []));; throw   (* no [forEach] *)
      end
  end.

(** [addAllergyFromInput()] *)
Definition addAllergyFromInput : M unit :=
  w <- get;;
  match getElementById "allergyInput" (doc w) with
  | None => throw
  | Some a =>
      match nodes (doc w) !! a with
      | None => throw
      | Some e =>
          let val := trim (el_value e) in
          if negb (truthy val) then ret tt
          else
            match data (state w) !! "allergies" with
            | Some (VArr l) =>
                if bool_decide (val ∈ l)
                then
                  announcePolite (Msg "Allergy already added.");;
                  updNode a (setValue "")
                else
                  modify (fun w => setData (<["allergies" := VArr (l ++ [val])]> (data (state w))) w);;
                  updNode a (setValue "");;
                  renderAllergyChips;;
                  persist true
            | Some (VStr s) =>
                if includes s val
                then
                  announcePolite (Msg "Allergy already added.");;
                  updNode a (setValue "")
                else throw                                 (* no [push] *)
            | None => throw
            end
      end
  end.

(** The click listener of the remove button of chip [index]. *)
Definition removeAllergy (index : nat) : M unit :=
  w <- get;;
  match data (state w) !! "allergies" with
  | Some (VArr l) =>
      modify (fun w => setData (<["allergies" := VArr (delete index l)]> (data (state w))) w);;
      renderAllergyChips;;
      persist true
  | _ => throw
  end.

(** The change listener of the condition check boxes: the browser has
    toggled box [n]. *)
Definition isCondition (e : Element) : bool :=
  bool_decide (el_step e = Some 2)
  && match el_tag e with Input => true | _ => false end
  && (el_name e =? "conditions")%string.

Definition handleCondition (n : nat) : M unit :=
  updNode n (fun e => setChecked (negb (el_checked e)) e);;
  w <- get;;
  let selected := el_value <$> filter (fun e => isCondition e && el_checked e) (nodes (doc w)) in
  modify (fun w => setData (<["conditions" := VArr selected]> (data (state w))) w);;
  persist true.

(** ** Restore and initialisation *)

(** The loop over [Object.entries(state.data)] that refills the controls:
    a key with a string value sets the element [getElementById(key)]
    finds.  Distinct keys find distinct elements, so the loop is one pass
    over the elements. *)
Definition refill (dat : gmap string fieldval) (d : Document) : list Element :=
  imap (fun i e =>
          match dat !! el_id e with
          | Some (VStr s) =>
              if bool_decide (getElementById (el_id e) d = Some i)
              then setValue s e else e
          | _ => e
          end) (nodes d).

(** [(state.data.conditions || []).includes(v)] *)
Definition conditionsInclude (dat : gmap string fieldval) (v : string) : bool :=
  match dat !! "conditions" with
  | Some (VArr l) => bool_decide (v ∈ l)
  | Some (VStr s) => truthy s && includes s v
  | None => false
  end.

(** The second half of [restoreFromStorage]: refill the controls, tick
    the condition boxes, redraw the chips. *)
Definition refillControls : M unit :=
  modify (fun w => setDoc (setNodes (refill (data (state w)) (doc w)) (doc w)) w);;
  modify (fun w =>
    setDoc (setNodes ((fun e => if isCondition e
                                then setChecked (conditionsInclude (data (state w)) (el_value e)) e
                                else e) <$> nodes (doc w)) (doc w)) w);;
  renderAllergyChips.

(** [restoreFromStorage()] *)
Definition restoreFromStorage : M unit :=
  w <- get;;
  match loadState w with
  | None => ret tt
  | Some saved =>
      let s0 := match snap_step saved with
                | Some n => if JsNum.truthy n then n else JsNum.ofZ 1
                | None => JsNum.ofZ 1
                end in
      modify (setStep (JsNum.min (JsNum.max s0 (JsNum.ofZ 1)) totalSteps));;
      modify (fun w => setData (match snap_data saved with
                                | Some m => m ∪ data (state w)
                                | None => data (state w)
                                end) w);;
      modify (setContrast (match snap_contrast saved with Some c => c | None => false end));;
      refillControls
  end.

(** ** Combobox (searchable provider) *)

Definition providerInput (d : Document) : option nat := getElementById "provider-input" d.
Definition providerToggle (d : Document) : option nat := getElementById "provider-toggle" d.

(** The guard at the head of [initProviderCombobox]: the listeners of the
    combobox exist only when it holds. *)
Definition comboReady (d : Document) : bool :=
  match providerInput d, providerToggle d, listbox d with
  | Some _, Some _, Some _ => true
  | _, _, _ => false
  end.

Definition withListbox (f : Listbox -> Listbox) : M unit :=
  w <- get;;
  match listbox (doc w) with
  | Some lb => modifyDoc (setListbox (Some (f lb)))
  | None => throw
  end.

(** [renderProviderList(items)] *)
Definition renderProviderList (items : list string) : M unit :=
  withListbox (fun lb => {| lb_options := items; lb_hidden := lb_hidden lb |});;
  modify (setProviderActive (match items with [] => None | _ :: _ => Some 0 end)).

Definition openProviderList : M unit :=
  withListbox (fun lb => {| lb_options := lb_options lb; lb_hidden := false |}).
Definition closeProviderList : M unit :=
  withListbox (fun lb => {| lb_options := lb_options lb; lb_hidden := true |}).

(** [initProviderCombobox()] *)
Definition initProviderCombobox : M unit :=
  w <- get;;
  if comboReady (doc w) then renderProviderList (providerFiltered w) else ret tt.

(** [selectProvider(opt)] with [opt.textContent = name]. *)
Definition selectProvider (name : string) : M unit :=
  w <- get;;
  match providerInput (doc w) with
  | None => throw
  | Some p =>
      updNode p (setValue name);;
      w' <- get;;
      syncState "provider" (match nodes (doc w') !! p with
                            | Some e => el_value e
                            | None => name
                            end);;
      _ <- validateField (Some p);;
      persist true;;
      closeProviderList;;
      focusOn p
  end.

(** The debounced input listener of the provider field. *)
Definition onProviderInput : M unit :=
  w <- get;;
  match providerInput (doc w) with
  | None => throw
  | Some p =>
      let value := match nodes (doc w) !! p with Some e => el_value e | None => "" end in
      let q := toLowerCase (trim value) in
      let matched := filter (fun name => includes (toLowerCase name) q) PROVIDERS in
      modify (setProviderFiltered matched);;
      renderProviderList matched;;
      (match matched with
       | _ :: _ => openProviderList
       | [] => closeProviderList
       end);;
      syncState "provider" value;;
      _ <- validateField (Some p);;
      persist true
  end.

Inductive key : Type := ArrowDown | ArrowUp | Home | End | Enter | Escape | OtherKey.

(** [options.findIndex((o) => o.id === providerActiveId)] *)
Definition activeIndex (w : World) (options : list string) : Z :=
  match providerActive w with
  | Some i => if i <? length options then Z.of_nat i else (-1)%Z
  | None => (-1)%Z
  end.

(** [moveProviderActive(options, index)] *)
Definition moveProviderActive (index : nat) : M unit :=
  modify (setProviderActive (Some index)).

(** [onProviderKeydown(e)] *)
Definition onProviderKeydown (k : key) : M unit :=
  w <- get;;
  match listbox (doc w) with
  | None => throw
  | Some lb =>
      let open := negb (lb_hidden lb) in
      let options := lb_options lb in
      let idx := activeIndex w options in
      let len := Z.of_nat (length options) in
      let arrow (target : Z) :=
        (if open then ret tt else openProviderList);;
        match options with
        | [] => ret tt
        | _ :: _ => moveProviderActive (Z.to_nat target)
        end in
      match k with
      | ArrowDown => arrow (Z.min (idx + 1) (len - 1))
      | ArrowUp => arrow (Z.max (idx - 1) 0)
      | Home => arrow 0%Z
      | End => arrow (len - 1)%Z
      | Enter =>
          if open
          then match options !! Z.to_nat (if (0 <=? idx)%Z then idx else 0%Z) with
               | Some name => selectProvider name
               | None => ret tt
               end
          else ret tt
      | Escape => if open then closeProviderList else ret tt
      | OtherKey => ret tt
      end
  end.

(** The click listener of the toggle button. *)
Definition onProviderToggle : M unit :=
  w <- get;;
  match listbox (doc w) with
  | None => throw
  | Some lb => if negb (lb_hidden lb) then closeProviderList else openProviderList
  end.

(** The click listener of the list: the click landed in option [i], or
    outside every option when there is no such option. *)
Definition onProviderOptionClick (i : nat) : M unit :=
  w <- get;;
  match listbox (doc w) with
  | None => throw
  | Some lb => match lb_options lb !! i with
               | Some name => selectProvider name
               | None => ret tt
               end
  end.

(** The click listener of the document; [inside] tells whether
    [providerCombo] contains the target. *)
Definition onDocumentClick (inside : bool) : M unit :=
  w <- get;;
  if comboBox (doc w)
  then if inside then ret tt else closeProviderList
  else throw.

(** The user types [text] into the provider field: both debounced
    listeners run, the form's after 60 ms and the combobox's after 80 ms. *)
Definition userTypesProvider (text : string) : M unit :=
  w <- get;;
  match providerInput (doc w) with
  | None => throw
  | Some p => userEdits p text;; onProviderInput
  end.

(** [init()] ([setDateLimits], [bindEvents] and [updateCounters] touch
    nothing the model keeps). *)
Definition init : M unit :=
  restoreFromStorage;;
  initProviderCombobox;;
  w <- get;;
  goToStep (step (state w)) true false.

(** ** Submit *)

(** [toggleFormDisabled(disabled)] *)
Definition toggleFormDisabled (disabled : bool) : M unit :=
  modifyDoc (fun d =>
    setNodes ((fun e =>
                 if el_in_form e
                    && negb (bool_decide (el_id e ∈ ["toggle-contrast"; "print-form"]))
                 then setDisabled disabled e else e) <$> nodes d) d).

(** [form.reset()] *)
Definition formReset : M unit :=
  modifyDoc (fun d =>
    setNodes ((fun e =>
                 if el_in_form e && isField e
                 then setChecked (el_default_checked e) (setValue (el_default e) e)
                 else e) <$> nodes d) d).

(** The loop [for (let s = 1; s <= 3; s++)] of [handleSubmit]; the result
    tells whether every step passed. *)
Fixpoint submitChecks (ss : list Z) : M bool :=
  match ss with
  | [] => ret true
  | s :: rest =>
      chk <- validateStep (JsNum.ofZ s);;
      if negb (valid chk)
      then
        goToStep (JsNum.ofZ s) true true;;
        (match firstInvalid chk with
         | Some f => focusOn f
         | None => ret tt
         end);;
        announceAssertive (Msg "Please fix the errors in this step.");;
        ret false
      else submitChecks rest
  end.

(** [handleSubmit(e)], up to the point where the timer is set. *)
Definition handleSubmit : M unit :=
  w <- get;;
  chk <- validateStep (step (state w));;
  if negb (valid chk)
  then
    (match firstInvalid chk with
     | Some f => focusOn f
     | None => ret tt
     end);;
    announceAssertive (Msg "Please correct errors before submitting.")
  else
    ok <- submitChecks [1; 2; 3]%Z;;
    if ok
    then
      toggleFormDisabled true;;
      modify (fun w => setTimers (S (timers w)) w)
    else ret tt.

(** The callback [handleSubmit] hands to [setTimeout]. *)
Definition submitDone : M unit :=
  modify clearState;;
  formReset;;
  modify (fun w => setData (emptyData ∪ data (state w)) w);;
  renderAllergyChips;;
  goToStep (JsNum.ofZ 1) true true;;
  toggleFormDisabled false;;
  announcePolite (Msg "Form submitted and progress cleared.").

(** ** Accessibility helper *)

(** The mutation observer: in every [.form-control], the first field
    carries [aria-invalid] exactly when the container has class
    [invalid]. *)
Definition firstFieldOf (control : string) (d : Document) : option nat :=
  fst <$> list_find (fun e => isField e = true /\ el_control e = control) (nodes d).

Definition observerSync (w : World) : World :=
  let d := doc w in
  setDoc (setNodes
            (imap (fun i e =>
                     if el_control_is_form_control e
                        && bool_decide (firstFieldOf (el_control e) d = Some i)
                     then setAriaInvalid
                            (bool_decide (marks d !! el_control e = Some MarkInvalid)) e
                     else e) (nodes d)) d) w.

(** ** Phone fields *)

(** The characters the input listeners of [#phone] and [#insurerPhone]
    keep: the class [[\d+\s\-\(\)]]. *)
Definition phoneChar (c : ascii) : bool :=
  isDigit c || isOneOf "+" c || isWhite c || isOneOf "-()" c.

(** [value.replace(/[^\d+\s\-\(\)]/g, '')] *)
Definition stripPhone (s : string) : string :=
  ofChars (List.filter phoneChar (chars s)).

(** The input listener [bindEvents] puts on the element with id [id], for
    [id] one of [phone] and [insurerPhone]. *)
Definition onPhoneInput (id : string) : M unit :=
  w <- get;;
  match getElementById id (doc w) with
  | None => ret tt
  | Some n =>
      updNode n (fun e => setValue (stripPhone (el_value e)) e);;
      w' <- get;;
      syncState id (match nodes (doc w') !! n with
                    | Some e => el_value e
                    | None => ""
                    end);;
      _ <- validateField (Some n);;
      persist true
  end.

(** ** Debounce

    [debounce(fn, delay)] returns a closure over the id [t] of the timer
    it set last.  At most that one timer is pending; the model keeps the
    time it is due, in milliseconds, and the arguments it will hand to
    [fn]. *)
Section Debounce.

Context {A : Type}.

Definition Pending : Type := option (nat * A).

(** A call of the closure at time [now]:
    [clearTimeout(t); t = setTimeout(() => fn.apply(null, args), delay)]. *)
Definition debounced (delay now : nat) (args : A) (t : Pending) : Pending :=
  Some (now + delay, args).

(** The event loop at time [now]: a pending timer that is due runs [fn]
    on its arguments, and is pending no more. *)
Definition expire (now : nat) (t : Pending) : option A * Pending :=
  match t with
  | Some (due, args) => if due <=? now then (Some args, None) else (None, t)
  | None => (None, None)
  end.

(** The calls [(time, args)] of the closure, in the order they happen;
    the result lists the arguments [fn] ran on, in order, and the timer
    left pending.  A timer due when a call happens has run before it. *)
Fixpoint debounceRun (delay : nat) (calls : list (nat * A)) (t : Pending)
  : list A * Pending :=
  match calls with
  | [] => ([], t)
  | (now, args) :: rest =>
      let fired := fst (expire now t) in
      let out := debounceRun delay rest (debounced delay now args (snd (expire now t))) in
      (match fired with Some a => a :: fst out | None => fst out end, snd out)
  end.

End Debounce.

(** ** The event loop *)

Inductive event : Type :=
| ENext (hint : option JsNum.jsnum)
| EBack (hint : option JsNum.jsnum)
| EEdit (hint : option JsNum.jsnum)
| ESubmit
| ESubmitTimer
| EInput (t : nat) (v : string)
| EProviderTyped (text : string)
| EProviderKey (k : key)
| EProviderToggle
| EProviderOption (i : nat)
| EDocumentClick (inside : bool)
| EAddAllergy
| ERemoveAllergy (i : nat)
| ECondition (n : nat)
| EBlur (t : nat)
| EFieldRewrite (id v : string)
| EContrast (on : bool).

(** The listener an event runs.  The combobox listeners are registered
    only behind the guard of [initProviderCombobox]; the timer callback
    runs only when a submission set it. *)
Definition handle (e : event) : M unit :=
  w <- get;;
  let combo (m : M unit) := if comboReady (doc w) then m else ret tt in
  match e with
  | ENext hint => handleNext hint
  | EBack hint => handleBack hint
  | EEdit hint => handleEdit hint
  | ESubmit => handleSubmit
  | ESubmitTimer =>
      match timers w with
      | S n => modify (setTimers n);; submitDone
      | O => ret tt
      end
  | EInput t v => userEdits t v
  | EProviderTyped text => combo (userTypesProvider text)
  | EProviderKey k => combo (onProviderKeydown k)
  | EProviderToggle => combo onProviderToggle
  | EProviderOption i => combo (onProviderOptionClick i)
  | EDocumentClick inside => combo (onDocumentClick inside)
  | EAddAllergy => addAllergyFromInput
  | ERemoveAllergy i => removeAllergy i
  | ECondition n => handleCondition n
  | EBlur t => handleBlurValidation t
  | EFieldRewrite id v => onFieldRewrite id v
  | EContrast on => onContrastToggle on
  end.

(** One turn of the event loop: the listener runs to its end or to a
    throw, then the observer sees the class changes. *)
Definition dispatch (e : event) (w : World) : World :=
  let w' := final (handle e w) in
  if bool_decide (marks (doc w') = marks (doc w)) then w' else observerSync w'.

(** The worlds in which a listener can run: [init] on a fresh page, then
    events.  [init] binds the listeners after [restoreFromStorage]; when
    that call throws, no listener is ever bound and the page stays as it
    is, so such a start reaches nothing. *)
Inductive reachable (page : Document) (s : Stored) (m : StorageMode) (b : Browser)
  : World -> Prop :=
| reach_init :
    completed (restoreFromStorage (boot page s m b)) ->
    reachable page s m b (observerSync (final (init (boot page s m b))))
| reach_step (e : event) (w : World) :
    reachable page s m b w -> reachable page s m b (dispatch e w).

(** ** A concrete page

    A small document with the elements the script looks up by id, used to
    run the handlers on explicit inputs. *)
Module Sample.

Definition field (id type : string) (t : tag) (required : bool) (stepIx : nat)
  : Element :=
  {| el_id := id; el_tag := t; el_type := type; el_name := id;
     el_required := required; el_value := ""; el_default := "";
     el_checked := false; el_default_checked := false; el_disabled := false;
     el_aria_invalid := false; el_options := []; el_step := Some stepIx;
     el_in_form := true; el_control := "fc-" +:+ id;
     el_control_is_form_control := true |}.

Definition button (id : string) (stepIx : nat) : Element :=
  {| el_id := id; el_tag := Button; el_type := "button"; el_name := "";
     el_required := false; el_value := ""; el_default := "";
     el_checked := false; el_default_checked := false; el_disabled := false;
     el_aria_invalid := false; el_options := []; el_step := Some stepIx;
     el_in_form := true; el_control := "actions";
     el_control_is_form_control := false |}.

Definition page : Document :=
  {| nodes :=
       [ field "firstName" "text" Input true 0;
         field "lastName" "text" Input true 0;
         field "dob" "date" Input true 0;
         field "phone" "tel" Input true 0;
         field "email" "email" Input true 0;
         field "address1" "text" Input true 0;
         field "city" "text" Input true 0;
         field "postalCode" "text" Input true 0;
         field "country" "select-one" Select true 0;
         button "next-1" 0;
         field "provider-input" "text" Input true 1;
         button "provider-toggle" 1;
         field "policyNumber" "text" Input true 1;
         field "policyConfirm" "text" Input true 1;
         field "coverageStart" "date" Input true 1;
         field "insurerPhone" "tel" Input false 1;
         button "back-2" 1;
         button "next-2" 1;
         field "allergyInput" "text" Input false 2;
         button "add-allergy" 2;
         field "medications" "textarea" Textarea false 2;
         field "notes" "textarea" Textarea false 2;
         button "back-3" 2;
         button "next-3" 2;
         button "back-4" 3;
         button "submit-form" 3 ];
     marks := ∅;
     focus := None;
     stepEls := [ Some {| se_hidden := false; se_name := Some "Demographics" |};
                  Some {| se_hidden := true; se_name := Some "Insurance" |};
                  Some {| se_hidden := true; se_name := Some "Medical history" |};
                  Some {| se_hidden := true; se_name := Some "Review" |} ];
     summary := ∅;
     chips := Some [];
     polite := Some [];
     assertive := Some [];
     listbox := Some {| lb_options := []; lb_hidden := true |};
     comboBox := true |}.

(** A browser whose constraint validation accepts non-empty values and
    whose clock is after every date. *)
Definition browser : Browser :=
  {| checkValidity := fun e => truthy (el_value e);
     dateNotAfterNow := fun v => truthy v |}.

(** The page after start-up with nothing stored. *)
Definition fresh : World := final (init (boot page Absent Working browser)).

(** Fill the fields with the given values, as the form listener leaves
    them. *)
Fixpoint fill (vs : list (string * string)) (w : World) : World :=
  match vs with
  | [] => w
  | (id, v) :: rest =>
      match getElementById id (doc w) with
      | Some n => fill rest (final (userEdits n v w))
      | None => fill rest w
      end
  end.

Definition step1Values : list (string * string) :=
  [("firstName", "Ada"); ("lastName", "Lovelace"); ("dob", "1990-12-10");
   ("phone", "+1 555 123 4567"); ("email", "ada@example.org");
   ("address1", "12 St James Square"); ("city", "London");
   ("postalCode", "A1B 2C3"); ("country", "UK")].

Definition step2Values : list (string * string) :=
  [("provider-input", "Allianz"); ("policyNumber", "AB-123456");
   ("policyConfirm", "AB-123456"); ("coverageStart", "2020-01-01")].

(** A stored record whose step is 2.5:
    [{"step": 2.5, "data": {}, "ui": {"contrast": false}}]. *)
Definition fractional : Stored :=
  Json {| snap_step := Some (JsNum.Fin (5 # 2));
          snap_data := Some ∅;
          snap_contrast := Some false |}.

(** A stored record that carries one field only:
    [{"data": {"firstName": "Eve"}}]. *)
Definition partial : Stored :=
  Json {| snap_step := None;
          snap_data := Some {[ "firstName" := VStr "Eve" ]};
          snap_contrast := None |}.

(** Step 1 filled in and left by [Next]. *)
Definition atStep2 : World :=
  final (handleNext None (fill step1Values fresh)).

(** Steps 1 and 2 filled in, then [Next] three times: the review step. *)
Definition atStep4 : World :=
  final (handleNext None
    (final (handleNext None
      (final (handleNext None (fill (step1Values ++ step2Values) fresh)))))).

(** The page loaded again on what [atStep4] left in storage. *)
Definition reloaded : World :=
  final (init (boot page (store atStep4) Working browser)).

(** Step 2 filled in, the confirmation equal to the policy number. *)
Definition confirmed : World := fill step2Values atStep2.

(** Step 2 with a confirmation that ends in a space. *)
Definition padded : World :=
  fill [("policyNumber", "AB-123456"); ("policyConfirm", "AB-123456 ")] atStep2.

(** Step 2 with [text] in the provider field, before the listeners run. *)
Definition typed (text : string) : World :=
  final (updNode 10 (setValue text) atStep2).

(** The allergy [peanut] added once, and typed into the field again. *)
Definition peanutAgain : World :=
  final (updNode 18 (setValue "peanut")
           (final (addAllergyFromInput
                     (final (updNode 18 (setValue " peanut ") atStep2))))).

(** The page as the listeners first see it, and after [Allianz] has been
    typed into the provider field. *)
Definition started : World :=
  observerSync (final (init (boot page Absent Working browser))).

Definition allianzTyped : World := dispatch (EProviderTyped "Allianz") started.

End Sample.

(** The handlers are unfolded on request only. *)
Arguments validateField : simpl never.
Arguments validateStep : simpl never.
Arguments checkOne : simpl never.
Arguments checkInsurerPhone : simpl never.
Arguments goToStep : simpl never.
Arguments presentStep : simpl never.
Arguments populateReview : simpl never.
Arguments restoreFromStorage : simpl never.
Arguments refillControls : simpl never.
Arguments handleSubmit : simpl never.
Arguments submitDone : simpl never.
Arguments selectProvider : simpl never.

(** * Properties *)

(** ** Runs that only decorate

    Validation writes nothing but the [valid]/[invalid] classes, and does
    not read them: its outcome is the same whatever the classes are. *)

Definition withMarks (mk : gmap string mark) (w : World) : World :=
  setDoc (setMarks mk (doc w)) w.

Definition resultOf {A : Type} (r : res A) : option A :=
  match r with Done a _ => Some a | Thrown _ => None end.

Definition rebuild {A : Type} (o : option A) (w : World) : res A :=
  match o with Some a => Done a w | None => Thrown w end.

Definition blindAt {A : Type} (m : M A) (w : World) : Prop :=
  forall mk, exists mk',
    m (withMarks mk w) = rebuild (resultOf (m w)) (withMarks mk' w).

Definition blind {A : Type} (m : M A) : Prop := forall w, blindAt m w.

Lemma withMarks_same w : withMarks (marks (doc w)) w = w.
Proof. destruct w as [a s m [] pa pf t b]; reflexivity. Qed.

Lemma withMarks_twice mk mk' w : withMarks mk (withMarks mk' w) = withMarks mk w.
Proof. reflexivity. Qed.

Lemma blindAt_run {A} (m : M A) w :
  blindAt m w -> exists mk, m w = rebuild (resultOf (m w)) (withMarks mk w).
Proof.
  intros H. destruct (H (marks (doc w))) as [mk E].
  rewrite withMarks_same in E. eauto.
Qed.

Lemma blindAt_result {A} (m : M A) w mk :
  blindAt m w -> resultOf (m (withMarks mk w)) = resultOf (m w).
Proof.
  intros H. destruct (H mk) as [mk' E]. rewrite E.
  destruct (resultOf (m w)); reflexivity.
Qed.

Lemma blindAt_shift {A} (m : M A) w mk :
  blindAt m w -> blindAt m (withMarks mk w).
Proof.
  intros H mk1. rewrite withMarks_twice.
  destruct (H mk1) as [mk2 E]. exists mk2.
  rewrite E, withMarks_twice. by rewrite (blindAt_result m w mk H).
Qed.

Lemma blindAt_ret {A} (a : A) w : blindAt (ret a) w.
Proof. intros mk. exists mk. reflexivity. Qed.

Lemma blindAt_throw {A} w : blindAt (@throw A) w.
Proof. intros mk. exists mk. reflexivity. Qed.

Lemma blindAt_bind {A B} (m : M A) (k : A -> M B) w :
  blindAt m w -> (forall a, blindAt (k a) w) -> blindAt (bind m k) w.
Proof.
  intros Hm Hk mk. unfold bind.
  destruct (Hm mk) as [mk1 E1]. rewrite E1.
  destruct (blindAt_run m w Hm) as [mk0 E0]. rewrite E0.
  destruct (resultOf (m w)) as [a|]; simpl.
  - destruct (Hk a mk1) as [mk2 E2]. exists mk2. rewrite E2.
    by rewrite (blindAt_result (k a) w mk0 (Hk a)).
  - by exists mk1.
Qed.

Lemma blindAt_get {A} (k : World -> M A) w :
  (forall mk, k (withMarks mk w) = k w) -> blindAt (k w) w ->
  blindAt (bind get k) w.
Proof.
  intros Hk H mk. unfold bind, get. rewrite Hk. apply H.
Qed.

Lemma blindAt_setMark c v w :
  blindAt (modifyDoc (fun d => setMarks (<[c := v]> (marks d)) d)) w.
Proof. intros mk. exists (<[c := v]> mk). reflexivity. Qed.

Lemma blindAt_queryAll sel root w : blindAt (queryAll sel root) w.
Proof. intros mk. exists mk. destruct root; reflexivity. Qed.

Ltac blind_step :=
  first
    [ apply blindAt_ret
    | apply blindAt_throw
    | apply blindAt_setMark
    | apply blindAt_queryAll
    | apply blindAt_get; [ intros; reflexivity | ]
    | apply blindAt_bind; [ | intros ? ] ].

Lemma validateFieldWith_blind self el w :
  (forall x, blindAt (self x) w) -> blindAt (validateFieldWith self el) w.
Proof.
  intros Hself. destruct el as [n|]; [ | apply blindAt_ret ].
  unfold validateFieldWith.
  apply blindAt_get; [ intros; reflexivity | ].
  destruct (nodes (doc w) !! n) as [e|]; [ | apply blindAt_ret ].
  apply blindAt_bind.
  - repeat (case_match; try blind_step); try apply Hself;
      unfold setValid, setInvalid; repeat blind_step.
  - intros valid0. unfold setValid, setInvalid.
    destruct valid0; repeat blind_step.
Qed.

Lemma validateField_blind el w : blindAt (validateField el) w.
Proof.
  apply validateFieldWith_blind. intros x.
  apply validateFieldWith_blind. intros y. apply blindAt_ret.
Qed.

Lemma checkOne_blind el acc w : blindAt (checkOne el acc) w.
Proof.
  unfold checkOne. apply blindAt_bind; [ apply validateField_blind | ].
  intros ok. apply blindAt_ret.
Qed.

Lemma checkRequired_blind ids : forall acc w, blindAt (checkRequired ids acc) w.
Proof.
  induction ids as [|id rest IH]; intros acc w; simpl.
  - apply blindAt_ret.
  - apply blindAt_get; [ intros; reflexivity | ].
    apply blindAt_bind; [ apply checkOne_blind | intros acc'; apply IH ].
Qed.

Lemma checkOptional_blind req els : forall acc w, blindAt (checkOptional req els acc) w.
Proof.
  induction els as [|n rest IH]; intros acc w; simpl.
  - apply blindAt_ret.
  - apply blindAt_get; [ intros; reflexivity | ].
    apply blindAt_bind; [ | intros acc'; apply IH ].
    repeat case_match; first [ apply blindAt_ret | apply checkOne_blind ].
Qed.

Lemma checkInsurerPhone_blind s acc w : blindAt (checkInsurerPhone s acc) w.
Proof.
  unfold checkInsurerPhone. case_match; [ | apply blindAt_ret ].
  apply blindAt_get; [ intros; reflexivity | ].
  repeat case_match; try apply blindAt_ret;
    (apply blindAt_bind; [ apply validateField_blind | intros ok ];
     destruct ok; apply blindAt_ret).
Qed.

Lemma validateStep_blind s w : blindAt (validateStep s) w.
Proof.
  unfold validateStep.
  apply blindAt_get; [ intros; reflexivity | ].
  apply blindAt_bind; [ apply checkRequired_blind | intros acc1 ].
  apply blindAt_bind; [ apply checkInsurerPhone_blind | intros acc2 ].
  apply blindAt_bind; [ apply blindAt_queryAll | intros els ].
  apply checkOptional_blind.
Qed.

Lemma bind_get {A} (k : World -> M A) w : bind get k w = k w w.
Proof. reflexivity. Qed.

(** What validation returns, and where it leaves the world. *)
Lemma result_bind {A B} (m : M A) (k : A -> M B) w :
  blindAt m w -> (forall a, blindAt (k a) w) ->
  resultOf (bind m k w)
  = match resultOf (m w) with
    | Some a => resultOf (k a w)
    | None => None
    end.
Proof.
  intros Hm Hk. destruct (blindAt_run m w Hm) as [mk E].
  unfold bind. rewrite E. destruct (resultOf (m w)) as [a|]; simpl; [ | done ].
  apply blindAt_result, Hk.
Qed.

Lemma validateStep_run s w :
  exists mk, validateStep s w = rebuild (resultOf (validateStep s w)) (withMarks mk w).
Proof. apply blindAt_run, validateStep_blind. Qed.

Lemma validateField_run el w :
  exists mk, validateField el w = rebuild (resultOf (validateField el w)) (withMarks mk w).
Proof. apply blindAt_run, validateField_blind. Qed.

(** ** The verdict of a step *)

(** What [validateField(el)] returns in world [w] ([None]: it throws). *)
Definition verdict (w : World) (el : option nat) : option bool :=
  resultOf (validateField el w).

(** What [validateStep(s)] returns in world [w]. *)
Definition stepVerdict (w : World) (s : JsNum.jsnum) : option StepCheck :=
  resultOf (validateStep s w).

Definition tally (el : option nat) (ok : bool) (acc : StepCheck) : StepCheck :=
  {| valid := valid acc && ok;
     firstInvalid := if valid acc && negb ok then el else firstInvalid acc |}.

Lemma verdict_withMarks w mk el : verdict (withMarks mk w) el = verdict w el.
Proof. apply blindAt_result, validateField_blind. Qed.

Lemma stepVerdict_withMarks w mk s : stepVerdict (withMarks mk w) s = stepVerdict w s.
Proof. apply blindAt_result, validateStep_blind. Qed.

Lemma checkOne_result el acc w :
  resultOf (checkOne el acc w)
  = match verdict w el with
    | Some ok => Some (tally el ok acc)
    | None => None
    end.
Proof.
  unfold checkOne. rewrite result_bind.
  - reflexivity.
  - apply validateField_blind.
  - intros ok. apply blindAt_ret.
Qed.

Lemma checkRequired_cons id rest acc w :
  resultOf (checkRequired (id :: rest) acc w)
  = match verdict w (getElementById id (doc w)) with
    | Some ok => resultOf (checkRequired rest (tally (getElementById id (doc w)) ok acc) w)
    | None => None
    end.
Proof.
  change (checkRequired (id :: rest) acc w)
    with (bind (checkOne (getElementById id (doc w)) acc)
               (fun acc' => checkRequired rest acc') w).
  rewrite result_bind.
  - rewrite checkOne_result. by destruct (verdict w _).
  - apply checkOne_blind.
  - intros acc'. apply checkRequired_blind.
Qed.

(** Once a field has failed, the verdict stays negative and the first
    culprit is kept. *)
Lemma checkRequired_sticky ids : forall acc w chk,
  valid acc = false ->
  resultOf (checkRequired ids acc w) = Some chk ->
  valid chk = false /\ firstInvalid chk = firstInvalid acc.
Proof.
  induction ids as [|id rest IH]; intros acc w chk Hacc Hres.
  - simpl in Hres. by inversion Hres; subst.
  - rewrite checkRequired_cons in Hres.
    destruct (verdict w _) as [ok|]; [ | done ].
    apply IH in Hres; [ | by unfold tally; simpl; rewrite Hacc ].
    destruct Hres as [H1 H2]. split; [ done | ].
    rewrite H2. unfold tally; simpl. by rewrite Hacc.
Qed.

Lemma checkRequired_first pre : forall id1 post n1 acc w chk,
  valid acc = true ->
  (forall i, i ∈ pre -> verdict w (getElementById i (doc w)) = Some true) ->
  getElementById id1 (doc w) = Some n1 ->
  verdict w (Some n1) = Some false ->
  resultOf (checkRequired (pre ++ id1 :: post) acc w) = Some chk ->
  valid chk = false /\ firstInvalid chk = Some n1.
Proof.
  induction pre as [|i pre IH]; intros id1 post n1 acc w chk Hacc Hpre Hid Hfail Hres.
  - simpl app in Hres. rewrite checkRequired_cons, Hid, Hfail in Hres.
    apply checkRequired_sticky in Hres;
      [ | by unfold tally; simpl; rewrite Hacc ].
    destruct Hres as [H1 H2]. split; [ done | ].
    rewrite H2. unfold tally; simpl. by rewrite Hacc.
  - simpl app in Hres. rewrite checkRequired_cons in Hres.
    rewrite (Hpre i) in Hres by (left; done).
    eapply IH in Hres; eauto.
    + unfold tally; simpl. by rewrite Hacc.
    + intros j Hj. apply Hpre. by right.
Qed.

(** The first failing field exists as soon as one field fails. *)
Lemma first_failing w (ids : list string) id n :
  id ∈ ids -> getElementById id (doc w) = Some n -> verdict w (Some n) = Some false ->
  (exists i, i ∈ ids /\ verdict w (getElementById i (doc w)) = None)
  \/ exists pre id1 post n1,
       ids = pre ++ id1 :: post
       /\ (forall i, i ∈ pre -> verdict w (getElementById i (doc w)) = Some true)
       /\ getElementById id1 (doc w) = Some n1
       /\ verdict w (Some n1) = Some false.
Proof.
  induction ids as [|i ids IH]; intros Hin Hid Hfail; [ by inversion Hin | ].
  destruct (verdict w (getElementById i (doc w))) as [[|]|] eqn:Hv.
  - assert (Hin' : id ∈ ids).
    { apply elem_of_cons in Hin as [->|]; [ | done ]. rewrite Hid, Hfail in Hv. done. }
    destruct (IH Hin' Hid Hfail) as [(j & Hj & Hn)|(pre & id1 & post & n1 & -> & Hp & H1 & H2)].
    + left. exists j. split; [ by right | done ].
    + right. exists (i :: pre), id1, post, n1. repeat split; try done.
      intros j Hj. apply elem_of_cons in Hj as [->|]; [ done | by apply Hp ].
  - right. destruct (getElementById i (doc w)) as [n1|] eqn:Hg.
    + exists [], i, ids, n1. repeat split; try done. intros j Hj. by inversion Hj.
    + by vm_compute in Hv.
  - left. exists i. split; [ by left | done ].
Qed.

Lemma checkInsurerPhone_sticky s acc w chk :
  valid acc = false ->
  resultOf (checkInsurerPhone s acc w) = Some chk ->
  valid chk = false
  /\ (forall f, firstInvalid acc = Some f -> firstInvalid chk = Some f).
Proof.
  intros Hacc. unfold checkInsurerPhone.
  case_match; [ | simpl; intros [= <-]; by split ].
  change (resultOf (_ w)) with
    (resultOf ((match getElementById "insurerPhone" (doc w) with
                | Some p =>
                    match nodes (doc w) !! p with
                    | Some pe =>
                        if truthy (el_value pe)
                        then ok <- validateField (Some p);;
                             if ok then ret acc
                             else ret {| valid := false;
                                         firstInvalid := match firstInvalid acc with
                                                         | Some f => Some f
                                                         | None => Some p
                                                         end |}
                        else ret acc
                    | None => ret acc
                    end
                | None => ret acc
                end) w)).
  repeat case_match; simpl; try (intros [= <-]; by split).
  all: rewrite result_bind;
    [ | apply validateField_blind | intros ok; destruct ok; apply blindAt_ret ].
  all: destruct (resultOf (validateField _ w)) as [[|]|]; simpl; try done.
  all: intros [= <-]; simpl; split; [ done | intros f Hf; congruence ].
Qed.

Lemma checkOptional_sticky req els : forall acc w chk,
  valid acc = false ->
  resultOf (checkOptional req els acc w) = Some chk ->
  valid chk = false /\ firstInvalid chk = firstInvalid acc.
Proof.
  induction els as [|n rest IH]; intros acc w chk Hacc Hres.
  - simpl in Hres. by inversion Hres; subst.
  - change (checkOptional req (n :: rest) acc w)
      with (bind (match nodes (doc w) !! n with
                  | Some e =>
                      if bool_decide (el_id e ∈ req) then ret acc
                      else if (truthy (el_value e) && (0 <? String.length (trim (el_value e))))
                              || (el_type e =? "date")%string
                      then checkOne (Some n) acc
                      else ret acc
                  | None => ret acc
                  end) (fun acc' => checkOptional req rest acc') w) in Hres.
    rewrite result_bind in Hres.
    + repeat case_match; simplify_eq; simpl in *; simplify_eq; eauto.
      all: try (rewrite checkOne_result in *; repeat case_match; simplify_eq).
      all: match goal with
           | H : resultOf (checkOptional _ _ ?a _) = Some _ |- _ =>
               apply IH in H; [ | by unfold tally; simpl; rewrite Hacc ];
               destruct H as [Hv Hf]; split; [ done | ];
               rewrite Hf; unfold tally; simpl; by rewrite Hacc
           end.
    + repeat case_match; first [ apply blindAt_ret | apply checkOne_blind ].
    + intros acc'. apply checkOptional_blind.
Qed.

Lemma checkRequired_throw ids : forall i acc w,
  i ∈ ids -> verdict w (getElementById i (doc w)) = None ->
  resultOf (checkRequired ids acc w) = None.
Proof.
  induction ids as [|j ids IH]; intros i acc w Hin Hv; [ by inversion Hin | ].
  rewrite checkRequired_cons.
  destruct (verdict w (getElementById j (doc w))) as [ok|] eqn:Hj; [ | done ].
  apply elem_of_cons in Hin as [->|Hin]; [ congruence | ].
  by apply (IH i).
Qed.

Lemma validateStep_result w s :
  stepVerdict w s
  = match resultOf (checkRequired (requiredByStep s)
                      {| valid := true; firstInvalid := None |} w) with
    | None => None
    | Some acc1 =>
        match resultOf (checkInsurerPhone s acc1 w) with
        | None => None
        | Some acc2 =>
            match resultOf (queryAll isField (stepsAt (doc w) (JsNum.add s (-1))) w) with
            | None => None
            | Some els => resultOf (checkOptional (requiredByStep s) els acc2 w)
            end
        end
    end.
Proof.
  unfold stepVerdict, validateStep.
  rewrite bind_get. cbv beta zeta.
  rewrite result_bind;
    [ | apply checkRequired_blind | intros acc1 ].
  2: { repeat (apply blindAt_bind; [ | intros ? ]);
       first [ apply checkInsurerPhone_blind | apply blindAt_queryAll
             | apply checkOptional_blind ]. }
  destruct (resultOf (checkRequired _ _ w)) as [acc1|]; [ | done ].
  rewrite result_bind;
    [ | apply checkInsurerPhone_blind | intros acc2 ].
  2: { apply blindAt_bind; [ apply blindAt_queryAll | intros ?; apply checkOptional_blind ]. }
  destruct (resultOf (checkInsurerPhone _ _ w)) as [acc2|]; [ | done ].
  rewrite result_bind;
    [ | apply blindAt_queryAll | intros els; apply checkOptional_blind ].
  reflexivity.
Qed.

(** From the first failing required field on, the step is refused and
    that field is the one reported. *)
Lemma validateStep_first w s pre id1 post n1 chk :
  requiredByStep s = pre ++ id1 :: post ->
  (forall i, i ∈ pre -> verdict w (getElementById i (doc w)) = Some true) ->
  getElementById id1 (doc w) = Some n1 ->
  verdict w (Some n1) = Some false ->
  stepVerdict w s = Some chk ->
  valid chk = false /\ firstInvalid chk = Some n1.
Proof.
  intros Hreq Hpre Hid Hfail Hres. rewrite validateStep_result, Hreq in Hres.
  destruct (resultOf (checkRequired _ _ w)) as [acc1|] eqn:H1; [ | done ].
  eapply checkRequired_first in H1; eauto. destruct H1 as [Hv1 Hf1].
  destruct (resultOf (checkInsurerPhone _ _ w)) as [acc2|] eqn:H2; [ | done ].
  apply checkInsurerPhone_sticky in H2; [ | done ]. destruct H2 as [Hv2 Hf2].
  destruct (resultOf (queryAll _ _ w)) as [els|]; [ | done ].
  apply checkOptional_sticky in Hres; [ | done ]. destruct Hres as [Hv Hf].
  split; [ done | ]. rewrite Hf. by apply Hf2.
Qed.

Lemma validateStep_refuses w s id n :
  id ∈ requiredByStep s ->
  getElementById id (doc w) = Some n ->
  verdict w (Some n) = Some false ->
  stepVerdict w s = None
  \/ exists pre id1 post n1 chk,
       requiredByStep s = pre ++ id1 :: post
       /\ (forall i, i ∈ pre -> verdict w (getElementById i (doc w)) = Some true)
       /\ getElementById id1 (doc w) = Some n1
       /\ verdict w (Some n1) = Some false
       /\ stepVerdict w s = Some chk
       /\ valid chk = false /\ firstInvalid chk = Some n1.
Proof.
  intros Hin Hid Hfail.
  destruct (first_failing w _ id n Hin Hid Hfail)
    as [(i & Hi & Hn)|(pre & id1 & post & n1 & Hreq & Hpre & H1 & H2)].
  - left. rewrite validateStep_result.
    by rewrite (checkRequired_throw _ i _ w Hi Hn).
  - destruct (stepVerdict w s) as [chk|] eqn:Hres; [ | by left ].
    right. exists pre, id1, post, n1, chk.
    destruct (validateStep_first w s pre id1 post n1 chk) as [Hv Hf]; auto.
    repeat split; auto.
Qed.



(** ** Frames: what a run leaves alone *)

Section Respects.

Context (R : relation World) `{!PreOrder R}.

(** Every run of [m] ends in a world related to the one it started in. *)
Definition respects {A : Type} (m : M A) : Prop :=
  forall w, R w (final (m w)).

Lemma respects_ret {A} (a : A) : respects (ret a).
Proof. intros w. reflexivity. Qed.

Lemma respects_throw {A} : respects (@throw A).
Proof. intros w. reflexivity. Qed.

Lemma respects_get : respects get.
Proof. intros w. reflexivity. Qed.

Lemma respects_modify (f : World -> World) :
  (forall w, R w (f w)) -> respects (modify f).
Proof. intros H w. apply H. Qed.

Lemma respects_modifyDoc (f : Document -> Document) :
  (forall w, R w (setDoc (f (doc w)) w)) -> respects (modifyDoc f).
Proof. intros H w. apply H. Qed.

Lemma respects_bind {A B} (m : M A) (k : A -> M B) :
  respects m -> (forall a, respects (k a)) -> respects (bind m k).
Proof.
  intros Hm Hk w. unfold bind. specialize (Hm w).
  destruct (m w) as [a w1|w1]; simpl in *; [ | done ].
  transitivity w1; [ done | apply Hk ].
Qed.

End Respects.

Lemma queryAll_respects R `{!PreOrder R} sel root : respects R (queryAll sel root).
Proof. intros w. destruct root; reflexivity. Qed.

Create HintDb frame.

(** Decomposes a goal [respects R m] along the structure of [m]; the
    goals left are the primitive updates, of the form [R w (f w)], and the
    calls the hint database [frame] does not know. *)
Ltac frame_step :=
  lazymatch goal with
  | |- PreOrder _ => typeclasses eauto
  | |- respects _ (bind _ _) => apply respects_bind; [ typeclasses eauto | | intros ? ]
  | |- respects _ (ret _) => apply respects_ret
  | |- respects _ throw => apply respects_throw
  | |- respects _ get => apply respects_get
  | |- respects _ (modify _) => apply respects_modify; intros ?
  | |- respects _ (modifyDoc _) => apply respects_modifyDoc; intros ?
  | |- respects _ (queryAll _ _) => apply queryAll_respects
  | |- respects _ (match ?x with _ => _ end) => destruct x
  | |- respects _ (let _ := _ in _) => cbv zeta
  | |- respects _ _ => solve [ eauto 3 with frame ]
  end.

Ltac frame := repeat frame_step.

(** *** Runs that touch the document only *)

Definition docOnly (w w' : World) : Prop := exists d, w' = setDoc d w.

#[global] Instance docOnly_preorder : PreOrder docOnly.
Proof.
  split.
  - intros w. exists (doc w). by destruct w.
  - intros w1 w2 w3 [d1 ->] [d2 ->]. by exists d2.
Qed.

Lemma docOnly_setDoc d w : docOnly w (setDoc d w).
Proof. by exists d. Qed.

Lemma withMarks_docOnly mk w : docOnly w (withMarks mk w).
Proof. apply docOnly_setDoc. Qed.

Lemma presentStep_docOnly s f a : respects docOnly (presentStep s f a).
Proof.
  unfold presentStep, setHidden, focusOn, announcePolite, updNode.
  frame; apply docOnly_setDoc.
Qed.

(** *** Runs that reach their end *)

Definition completes {A : Type} (m : M A) : Prop := forall w, completed (m w).

Lemma completes_ret {A} (a : A) : completes (ret a).
Proof. by intros w. Qed.

Lemma completes_get : completes get.
Proof. by intros w. Qed.

Lemma completes_modify f : completes (modify f).
Proof. by intros w. Qed.

Lemma completes_modifyDoc f : completes (modifyDoc f).
Proof. by intros w. Qed.

Lemma completes_bind {A B} (m : M A) (k : A -> M B) :
  completes m -> (forall a, completes (k a)) -> completes (bind m k).
Proof.
  intros Hm Hk w. unfold bind. specialize (Hm w).
  destruct (m w) as [a w1|w1]; [ apply Hk | done ].
Qed.

Lemma completes_queryAll sel root : root <> Null -> completes (queryAll sel root).
Proof. intros H w. by destruct root. Qed.

Ltac completes_step :=
  lazymatch goal with
  | |- completes (bind _ _) => apply completes_bind; [ | intros ? ]
  | |- completes (ret _) => apply completes_ret
  | |- completes get => apply completes_get
  | |- completes (modify _) => apply completes_modify
  | |- completes (modifyDoc _) => apply completes_modifyDoc
  | |- completes (queryAll _ _) => apply completes_queryAll
  | |- completes (match ?x with _ => _ end) => destruct x eqn:?
  end.

Lemma completes_persist b : completes (persist b).
Proof. unfold persist, announcePolite. repeat completes_step. Qed.

Lemma presentStep_completes s f a w :
  (f = true -> stepsAt (doc w) (JsNum.add s (-1)) <> Null) ->
  backButtonId s <> None ->
  completed (presentStep s f a w).
Proof.
  intros Hnext Hback. unfold presentStep. rewrite bind_get. cbv zeta.
  generalize dependent (stepsAt (doc w) (JsNum.add s (-1))).
  intros nextEl Hnext.
  generalize (stepsAt (doc w) (JsNum.add (step (state w)) (-1))). intros currentEl.
  generalize (stepName (doc w) nextEl). intros nm.
  revert w. change (completes
    ((match currentEl with
      | Obj k => if isObj k nextEl then ret tt else setHidden k true
      | _ => ret tt
      end);;
     (match nextEl with
      | Obj k => setHidden k false
      | _ => ret tt
      end);;
     (if f
      then
        inv <- queryAll el_aria_invalid nextEl;;
        match inv with
        | n :: _ => focusOn n
        | [] =>
            all <- queryAll (fun _ => true) nextEl;;
            match all with
            | n :: _ => focusOn n
            | [] => ret tt
            end
        end
      else ret tt);;
     (if a then announcePolite (StepMsg s nm) else ret tt);;
     match backButtonId s with
     | None => throw
     | Some id =>
         w' <- get;;
         match getElementById id (doc w') with
         | Some b => updNode b (setDisabled (JsNum.eqb s (JsNum.ofZ 1)))
         | None => ret tt
         end
     end)).
  unfold setHidden, focusOn, announcePolite, updNode.
  repeat completes_step.
  all: try done; auto.
Qed.

Lemma goToStep_unfold s f a w :
  goToStep s f a w
  = match presentStep (clampStep s) f a w with
    | Done _ w1 => Done tt (saveState (setStep (clampStep s) w1))
    | Thrown w1 => Thrown w1
    end.
Proof. reflexivity. Qed.

(** [goToStep] in one piece: the document part, then the new step number
    and the stored record. *)
Lemma goToStep_run s f a w :
  exists d,
    (presentStep (clampStep s) f a w = Done tt (setDoc d w)
     /\ goToStep s f a w = Done tt (saveState (setStep (clampStep s) (setDoc d w))))
    \/ (presentStep (clampStep s) f a w = Thrown (setDoc d w)
        /\ goToStep s f a w = Thrown (setDoc d w)).
Proof.
  destruct (presentStep_docOnly (clampStep s) f a w) as [d Hd].
  exists d. rewrite goToStep_unfold.
  destruct (presentStep (clampStep s) f a w) as [[] w1|w1] eqn:E;
    simpl in Hd; subst w1.
  - left. split; reflexivity.
  - right. split; reflexivity.
Qed.

(** ** Clamping *)

Lemma leb_Fin (x y : Q) : JsNum.leb (JsNum.Fin x) (JsNum.Fin y) = true <-> (x <= y)%Q.
Proof. simpl. apply Qle_bool_iff. Qed.

Lemma leb_Fin_false (x y : Q) : JsNum.leb (JsNum.Fin x) (JsNum.Fin y) = false <-> (y < x)%Q.
Proof.
  simpl. rewrite <- not_true_iff_false, Qle_bool_iff. split.
  - apply Qnot_le_lt.
  - apply Qlt_not_le.
Qed.

(** A clamped number that is not NaN lies between 1 and 4. *)
Lemma clampStep_range (x : JsNum.jsnum) :
  x <> JsNum.NaN ->
  exists q, clampStep x = JsNum.Fin q /\ (1 <= q)%Q /\ (q <= 4)%Q.
Proof.
  intros Hx. unfold clampStep, totalSteps, JsNum.ofZ.
  destruct x as [q| | |]; try done.
  - unfold JsNum.max.
    destruct (JsNum.leb (JsNum.Fin q) (JsNum.Fin (inject_Z 1))) eqn:E1.
    + exists (inject_Z 1). split; [ reflexivity | ]. by split.
    + apply leb_Fin_false in E1. unfold JsNum.min.
      destruct (JsNum.leb (JsNum.Fin q) (JsNum.Fin (inject_Z 4))) eqn:E2.
      * apply leb_Fin in E2. exists q. repeat split; [ by apply Qlt_le_weak | done ].
      * exists (inject_Z 4). split; [ reflexivity | ]. by split.
  - exists (inject_Z 4). split; [ reflexivity | ]. by split.
  - exists (inject_Z 1). split; [ reflexivity | ]. by split.
Qed.

(** A target that is an integer is clamped to one of the steps 1..4. *)
Lemma clampStep_integer (z : Z) : JsNum.isStep 4 (clampStep (JsNum.ofZ z)).
Proof.
  unfold JsNum.isStep, clampStep, totalSteps, JsNum.ofZ, JsNum.max.
  destruct (JsNum.leb (JsNum.Fin (inject_Z z)) (JsNum.Fin (inject_Z 1))) eqn:E1.
  - exists 1. split; [ lia | reflexivity ].
  - apply leb_Fin_false in E1. rewrite <- Zlt_Qlt in E1. unfold JsNum.min.
    destruct (JsNum.leb (JsNum.Fin (inject_Z z)) (JsNum.Fin (inject_Z 4))) eqn:E2.
    + apply leb_Fin in E2. rewrite <- Zle_Qle in E2.
      exists (Z.to_nat z). split; [ lia | ].
      assert (z = 2 \/ z = 3 \/ z = 4)%Z as [->|[->| ->]] by lia; reflexivity.
    + exists 4. split; [ lia | reflexivity ].
Qed.

(** ** Back *)

Lemma handleBack_unfold hint w :
  handleBack hint w
  = match goToStep (JsNum.max (JsNum.ofZ 1)
                      (match hint with
                       | Some t => t
                       | None => JsNum.add (step (state w)) (-1)
                       end)) true true w with
    | Done _ w1 => Done tt (saveState w1)
    | Thrown w1 => Thrown w1
    end.
Proof. reflexivity. Qed.

Lemma saveState_state w : state (saveState w) = state w.
Proof. unfold saveState. by destruct (mode w). Qed.

Lemma saveState_doc w : doc (saveState w) = doc w.
Proof. unfold saveState. by destruct (mode w). Qed.

Lemma saveState_timers w : timers (saveState w) = timers w.
Proof. unfold saveState. by destruct (mode w). Qed.

Lemma saveState_working w :
  mode w = Working -> store (saveState w) = Json (snapshotOf (state w)).
Proof. intros Hm. unfold saveState. by rewrite Hm. Qed.

Lemma back_target_default (N : Z) :
  (2 <= N <= 4)%Z ->
  clampStep (JsNum.max (JsNum.ofZ 1) (JsNum.add (JsNum.ofZ N) (-1))) = JsNum.ofZ (N - 1).
Proof.
  intros HN.
  assert (N = 2 \/ N = 3 \/ N = 4)%Z as [->|[->| ->]] by lia; reflexivity.
Qed.

Lemma back_target_bounded (N : Z) (t : JsNum.jsnum) :
  (2 <= N <= 4)%Z ->
  JsNum.leb t (JsNum.ofZ N) = true ->
  JsNum.leb (clampStep (JsNum.max (JsNum.ofZ 1) t)) (JsNum.ofZ N) = true.
Proof.
  intros HN Ht.
  assert (H1N : (inject_Z 1 <= inject_Z N)%Q) by (rewrite <- Zle_Qle; lia).
  assert (HN4 : (inject_Z N <= inject_Z 4)%Q) by (rewrite <- Zle_Qle; lia).
  destruct t as [q| | |]; try done.
  - apply leb_Fin in Ht.
    unfold clampStep, totalSteps, JsNum.ofZ, JsNum.max, JsNum.min.
    destruct (JsNum.leb (JsNum.Fin (inject_Z 1)) (JsNum.Fin q)) eqn:E1.
    + destruct (JsNum.leb (JsNum.Fin q) (JsNum.Fin (inject_Z 1))) eqn:E2.
      * change (JsNum.leb (JsNum.Fin (inject_Z 1)) (JsNum.Fin (inject_Z 4))) with true.
        by apply leb_Fin.
      * destruct (JsNum.leb (JsNum.Fin q) (JsNum.Fin (inject_Z 4))) eqn:E3.
        -- by apply leb_Fin.
        -- apply leb_Fin_false in E3. apply leb_Fin.
           apply Qle_trans with q; [ by apply Qlt_le_weak | done ].
    + change (JsNum.leb (JsNum.Fin (inject_Z 1)) (JsNum.Fin (inject_Z 1))) with true.
      change (JsNum.leb (JsNum.Fin (inject_Z 1)) (JsNum.Fin (inject_Z 4))) with true.
      by apply leb_Fin.
  - unfold clampStep, totalSteps, JsNum.ofZ, JsNum.max, JsNum.min. simpl.
    by apply leb_Fin.
Qed.




(** ** Submit *)

Lemma validateStep_at s w mk :
  exists mk',
    validateStep s (withMarks mk w) = rebuild (stepVerdict w s) (withMarks mk' w).
Proof. apply validateStep_blind. Qed.

(** The step passes validation in world [w]. *)
Definition stepPasses (w : World) (s : Z) : Prop :=
  exists chk, stepVerdict w (JsNum.ofZ s) = Some chk /\ valid chk = true.

(** The step is checked to the end and fails. *)
Definition stepFails (w : World) (s : Z) (chk : StepCheck) : Prop :=
  stepVerdict w (JsNum.ofZ s) = Some chk /\ valid chk = false.

Lemma submitChecks_pass ss : forall w mk,
  (forall s, s ∈ ss -> stepPasses w s) ->
  exists mk', submitChecks ss (withMarks mk w) = Done true (withMarks mk' w).
Proof.
  induction ss as [|s rest IH]; intros w mk Hall.
  - by exists mk.
  - destruct (Hall s) as (chk & Hv & Hok); [ by left | ].
    destruct (validateStep_at (JsNum.ofZ s) w mk) as [mk1 E].
    simpl. unfold bind at 1. rewrite E, Hv. simpl. rewrite Hok. simpl.
    apply IH. intros s' Hs'. apply Hall. by right.
Qed.

Lemma submitChecks_fail pre : forall s post chk w mk,
  (forall s', s' ∈ pre -> stepPasses w s') ->
  stepFails w s chk ->
  exists mk',
    submitChecks (pre ++ s :: post) (withMarks mk w)
    = (goToStep (JsNum.ofZ s) true true;;
       (match firstInvalid chk with
        | Some f => focusOn f
        | None => ret tt
        end);;
       announceAssertive (Msg "Please fix the errors in this step.");;
       ret false) (withMarks mk' w).
Proof.
  induction pre as [|s0 pre IH]; intros s post chk w mk Hpre [Hv Hbad].
  - destruct (validateStep_at (JsNum.ofZ s) w mk) as [mk1 E].
    exists mk1. simpl. unfold bind at 1. rewrite E, Hv. simpl. by rewrite Hbad.
  - destruct (Hpre s0) as (chk0 & Hv0 & Hok0); [ by left | ].
    destruct (validateStep_at (JsNum.ofZ s0) w mk) as [mk1 E].
    simpl. unfold bind at 1. rewrite E, Hv0. simpl. rewrite Hok0. simpl.
    apply IH; [ | by split ]. intros s' Hs'. apply Hpre. by right.
Qed.

(** What a refused submission leaves alone: the form data, and a stored
    record stays a stored record. *)
Definition keepsProgress (w w' : World) : Prop :=
  data (state w') = data (state w)
  /\ (store w' = Absent -> store w = Absent).

#[global] Instance keepsProgress_preorder : PreOrder keepsProgress.
Proof.
  split.
  - intros w. by split.
  - intros w1 w2 w3 [H1 H2] [H3 H4]. split; [ congruence | auto ].
Qed.

Lemma keepsProgress_setDoc d w : keepsProgress w (setDoc d w).
Proof. by split. Qed.

Lemma keepsProgress_saveState w : keepsProgress w (saveState w).
Proof.
  split; [ by rewrite saveState_state | ].
  unfold saveState. by destruct (mode w).
Qed.

Lemma respects_weaken (R1 R2 : relation World) {A} (m : M A) :
  (forall w w', R1 w w' -> R2 w w') -> respects R1 m -> respects R2 m.
Proof. intros H Hm w. apply H, Hm. Qed.

Lemma validateStep_docOnly s : respects docOnly (validateStep s).
Proof.
  intros w. destruct (validateStep_run s w) as [mk E]. rewrite E.
  destruct (resultOf (validateStep s w)); apply withMarks_docOnly.
Qed.

Lemma docOnly_keepsProgress w w' : docOnly w w' -> keepsProgress w w'.
Proof. intros [d ->]. apply keepsProgress_setDoc. Qed.

Lemma validateStep_keepsProgress s : respects keepsProgress (validateStep s).
Proof.
  eapply respects_weaken; [ apply docOnly_keepsProgress | apply validateStep_docOnly ].
Qed.

Lemma goToStep_keepsProgress s f a : respects keepsProgress (goToStep s f a).
Proof.
  unfold goToStep, persist. frame.
  - eapply respects_weaken; [ apply docOnly_keepsProgress | apply presentStep_docOnly ].
  - split; [ reflexivity | intros H; exact H ].
  - apply keepsProgress_saveState.
Qed.

#[global] Hint Resolve validateStep_keepsProgress goToStep_keepsProgress : frame.

Lemma submitChecks_keepsProgress ss : respects keepsProgress (submitChecks ss).
Proof.
  induction ss as [|s rest IH]; simpl.
  - frame.
  - unfold focusOn, announceAssertive. frame; apply keepsProgress_setDoc.
Qed.

#[global] Hint Resolve submitChecks_keepsProgress : frame.

Lemma handleSubmit_keepsProgress : respects keepsProgress handleSubmit.
Proof.
  unfold handleSubmit, focusOn, announceAssertive, toggleFormDisabled.
  frame; first [ apply keepsProgress_setDoc | by split ].
Qed.

Lemma bind_Done {A B} (m : M A) (k : A -> M B) w a w1 :
  m w = Done a w1 -> bind m k w = k a w1.
Proof. intros E. unfold bind. by rewrite E. Qed.

Lemma bind_Thrown {A B} (m : M A) (k : A -> M B) w w1 :
  m w = Thrown w1 -> bind m k w = Thrown w1.
Proof. intros E. unfold bind. by rewrite E. Qed.

Lemma focusFirst_run (fi : option nat) w :
  exists d,
    match fi with
    | Some f => focusOn f
    | None => ret tt
    end w = Done tt (setDoc d w).
Proof.
  destruct fi; unfold focusOn, modifyDoc, modify, ret; eexists; try reflexivity.
  instantiate (1 := doc w). by destruct w.
Qed.

Lemma announceAssertive_run msg w :
  exists d, announceAssertive msg w = Done tt (setDoc d w).
Proof. unfold announceAssertive, modifyDoc, modify. eexists; reflexivity. Qed.

Lemma announcePolite_run msg w :
  exists d, announcePolite msg w = Done tt (setDoc d w).
Proof. unfold announcePolite, modifyDoc, modify. eexists; reflexivity. Qed.

Lemma handleSubmit_unfold w :
  handleSubmit w
  = match validateStep (step (state w)) w with
    | Done chk w1 =>
        (if negb (valid chk)
         then
           (match firstInvalid chk with
            | Some f => focusOn f
            | None => ret tt
            end);;
           announceAssertive (Msg "Please correct errors before submitting.")
         else
           ok <- submitChecks [1; 2; 3]%Z;;
           if ok
           then
             toggleFormDisabled true;;
             modify (fun w => setTimers (S (timers w)) w)
           else ret tt) w1
    | Thrown w1 => Thrown w1
    end.
Proof. reflexivity. Qed.

(** The current step fails: nothing but the document changes. *)
Lemma handleSubmit_gate w chk :
  stepVerdict w (step (state w)) = Some chk -> valid chk = false ->
  docOnly w (final (handleSubmit w)).
Proof.
  intros Hv Hbad. rewrite handleSubmit_unfold.
  destruct (validateStep_run (step (state w)) w) as [mk E].
  fold (stepVerdict w (step (state w))) in E. rewrite E, Hv.
  unfold rebuild. cbv beta iota. rewrite Hbad. cbv beta iota delta [negb].
  destruct (focusFirst_run (firstInvalid chk) (withMarks mk w)) as [d Ed].
  rewrite (bind_Done _ _ _ _ _ Ed).
  destruct (announceAssertive_run (Msg "Please correct errors before submitting.")
              (setDoc d (withMarks mk w))) as [d1 Ed1].
  rewrite Ed1. by exists d1.
Qed.

Lemma clampStep_123 (s : Z) : s ∈ [1; 2; 3]%Z -> clampStep (JsNum.ofZ s) = JsNum.ofZ s.
Proof.
  intros Hin.
  repeat (apply elem_of_cons in Hin as [->|Hin]; [ reflexivity | ]).
  by inversion Hin.
Qed.

(** The current step passes and [s] is the first of the steps 1..3 to
    fail. *)
Lemma handleSubmit_redirect w chk0 pre s post chk :
  stepVerdict w (step (state w)) = Some chk0 -> valid chk0 = true ->
  [1; 2; 3]%Z = pre ++ s :: post ->
  (forall s', s' ∈ pre -> stepPasses w s') ->
  stepFails w s chk ->
  (exists d, handleSubmit w = Thrown (setDoc d w))
  \/ (exists d, handleSubmit w
                = Done tt (setDoc d (saveState (setStep (JsNum.ofZ s) w)))).
Proof.
  intros Hv Hok Hsplit Hpre Hfail. rewrite handleSubmit_unfold.
  destruct (validateStep_run (step (state w)) w) as [mk E].
  fold (stepVerdict w (step (state w))) in E. rewrite E, Hv.
  unfold rebuild. cbv beta iota. rewrite Hok. cbv beta iota delta [negb].
  rewrite Hsplit.
  destruct (submitChecks_fail pre s post chk w mk Hpre Hfail) as [mk1 E1].
  assert (Hs : clampStep (JsNum.ofZ s) = JsNum.ofZ s).
  { apply clampStep_123. rewrite Hsplit. set_solver. }
  destruct (goToStep_run (JsNum.ofZ s) true true (withMarks mk1 w))
    as [d [[_ Hg]|[_ Hg]]].
  - right. rewrite Hs in Hg.
    rewrite (bind_Done _ _ _ _ _ Hg) in E1.
    remember (saveState (setStep (JsNum.ofZ s) (setDoc d (withMarks mk1 w)))) as w3 eqn:E3.
    destruct (focusFirst_run (firstInvalid chk) w3) as [d3 Ed3].
    rewrite (bind_Done _ _ _ _ _ Ed3) in E1.
    destruct (announceAssertive_run (Msg "Please fix the errors in this step.")
                (setDoc d3 w3)) as [d4 Ed4].
    rewrite (bind_Done _ _ _ _ _ Ed4) in E1.
    rewrite (bind_Done _ _ _ _ _ E1).
    exists d4. subst w3. unfold saveState, ret. simpl. by destruct (mode w).
  - left. rewrite (bind_Thrown _ _ _ _ Hg) in E1.
    rewrite (bind_Thrown _ _ _ _ E1). by exists d.
Qed.

(** Every step passes: the controls are disabled and the timer is set. *)
Lemma handleSubmit_accept w chk0 :
  stepVerdict w (step (state w)) = Some chk0 -> valid chk0 = true ->
  (forall s, s ∈ [1; 2; 3]%Z -> stepPasses w s) ->
  exists d, handleSubmit w = Done tt (setTimers (S (timers w)) (setDoc d w)).
Proof.
  intros Hv Hok Hall. rewrite handleSubmit_unfold.
  destruct (validateStep_run (step (state w)) w) as [mk E].
  fold (stepVerdict w (step (state w))) in E. rewrite E, Hv.
  unfold rebuild. cbv beta iota. rewrite Hok. cbv beta iota delta [negb].
  destruct (submitChecks_pass [1; 2; 3]%Z w mk Hall) as [mk1 E1].
  rewrite (bind_Done _ _ _ _ _ E1).
  unfold toggleFormDisabled, modifyDoc, modify, bind. eexists. reflexivity.
Qed.

Lemma emptyData_allergies (dat : gmap string fieldval) :
  (emptyData ∪ dat) !! "allergies" = Some (VArr []).
Proof. apply lookup_union_Some_l. reflexivity. Qed.

(** The timer callback up to [goToStep(1)]: the record is removed, the
    controls and the form data are reset, the chips are redrawn. *)
Lemma submitDone_reset w :
  exists d,
    (modify clearState;;
     formReset;;
     modify (fun w => setData (emptyData ∪ data (state w)) w);;
     renderAllergyChips) w
    = Done tt (setDoc d (setData (emptyData ∪ data (state w)) (clearState w)))
    /\ stepEls d = stepEls (doc w).
Proof.
  assert (Hdoc : doc (clearState w) = doc w) by (unfold clearState; by destruct (mode w)).
  assert (Hdat : data (state (clearState w)) = data (state w))
    by (unfold clearState; by destruct (mode w)).
  rewrite (bind_Done (modify clearState) _ w tt (clearState w) eq_refl).
  unfold formReset at 1.
  rewrite (bind_Done (modifyDoc _) _ (clearState w) tt _ eq_refl).
  rewrite (bind_Done (modify _) _ _ tt _ eq_refl).
  cbv beta. unfold renderAllergyChips. rewrite bind_get.
  cbn [state doc setData setDoc setState data chips setNodes].
  rewrite Hdoc, Hdat, emptyData_allergies.
  destruct (chips (doc w)); eexists; (split; [ reflexivity | ]); by rewrite ?Hdoc.
Qed.

Lemma submitDone_unfold w :
  submitDone w
  = ((modify clearState;;
      formReset;;
      modify (fun w => setData (emptyData ∪ data (state w)) w);;
      renderAllergyChips);;
     goToStep (JsNum.ofZ 1) true true;;
     toggleFormDisabled false;;
     announcePolite (Msg "Form submitted and progress cleared.")) w.
Proof. reflexivity. Qed.

Lemma submitDone_run w :
  exists d,
    (submitDone w
     = Done tt (setDoc d (saveState (setStep (JsNum.ofZ 1)
                            (setData (emptyData ∪ data (state w)) (clearState w)))))
     \/ submitDone w
        = Thrown (setDoc d (setData (emptyData ∪ data (state w)) (clearState w))))
    /\ (stepEls (doc w) !! 0 <> Some None -> completed (submitDone w)).
Proof.
  rewrite submitDone_unfold.
  destruct (submitDone_reset w) as (d & E & Hsteps).
  rewrite (bind_Done _ _ _ _ _ E).
  remember (setDoc d (setData (emptyData ∪ data (state w)) (clearState w))) as w1 eqn:E1.
  destruct (goToStep_run (JsNum.ofZ 1) true true w1) as [d2 [[Hp Hg]|[Hp Hg]]].
  - rewrite (bind_Done _ _ _ _ _ Hg).
    change (clampStep (JsNum.ofZ 1)) with (JsNum.ofZ 1).
    remember (saveState (setStep (JsNum.ofZ 1) (setDoc d2 w1))) as w3 eqn:E3.
    rewrite (bind_Done (toggleFormDisabled false) _ w3 tt _ eq_refl).
    destruct (announcePolite_run (Msg "Form submitted and progress cleared.")
                (setDoc (setNodes
                           ((fun e =>
                               if el_in_form e
                                  && negb (bool_decide
                                             (el_id e ∈ ["toggle-contrast"; "print-form"]))
                               then setDisabled false e else e) <$> nodes (doc w3))
                           (doc w3)) w3)) as [d4 E4].
    rewrite E4. exists d4. split; [ left | done ].
    subst w3 w1. unfold saveState; simpl.
    assert (Hm : mode (clearState w) = mode w)
      by (unfold clearState; by destruct (mode w) eqn:Em).
    rewrite Hm. destruct (mode w); reflexivity.
  - rewrite (bind_Thrown _ _ _ _ Hg). exists d2. split.
    + right. by subst w1.
    + intros Hpresent. exfalso.
      pose proof (presentStep_completes (clampStep (JsNum.ofZ 1)) true true w1) as Hc.
      rewrite Hp in Hc. apply Hc; [ | done ].
      intros _. subst w1. unfold stepsAt. simpl. rewrite Hsteps.
      change (Z.to_nat 0) with 0.
      destruct (stepEls (doc w) !! 0) as [[se|]|]; done.
Qed.




(** ** Restore *)

Lemma renderAllergyChips_docOnly : respects docOnly renderAllergyChips.
Proof. unfold renderAllergyChips. frame; apply docOnly_setDoc. Qed.

Lemma refillControls_docOnly : respects docOnly refillControls.
Proof.
  unfold refillControls. frame; try apply docOnly_setDoc.
  apply renderAllergyChips_docOnly.
Qed.

(** The state [restoreFromStorage] builds from a stored object. *)
Definition restoredState (saved : Snapshot) (a : AppState) : AppState :=
  {| step := clampStep (match snap_step saved with
                        | Some n => if JsNum.truthy n then n else JsNum.ofZ 1
                        | None => JsNum.ofZ 1
                        end);
     data := match snap_data saved with
             | Some m => m ∪ data a
             | None => data a
             end;
     contrast := match snap_contrast saved with Some c => c | None => false end |}.

Lemma restoreFromStorage_none w :
  loadState w = None -> restoreFromStorage w = Done tt w.
Proof. intros H. unfold restoreFromStorage. rewrite bind_get, H. reflexivity. Qed.

Lemma restoreFromStorage_some w saved :
  loadState w = Some saved ->
  exists d, final (restoreFromStorage w) = setDoc d (setState (restoredState saved (state w)) w).
Proof.
  intros H. unfold restoreFromStorage. rewrite bind_get, H. cbv zeta.
  rewrite (bind_Done (modify _) _ w tt _ eq_refl).
  rewrite (bind_Done (modify _) _ _ tt _ eq_refl).
  rewrite (bind_Done (modify _) _ _ tt _ eq_refl).
  match goal with
  | |- context [refillControls ?w3] =>
      destruct (refillControls_docOnly w3) as [d Hd]; rewrite Hd
  end.
  exists d. reflexivity.
Qed.

(** C3, the failing input.  With the stored record
    [{"step": 2.5, "data": {}, "ui": {"contrast": false}}] the restored
    step is 2.5: [Math.min(Math.max(2.5, 1), 4)] is 2.5, which is not one
    of the steps 1..4.  [init] then stops in [goToStep] (the selector
    [#back-2.5] is rejected) and the step stays 2.5. *)
Theorem restore_keeps_fractional_step :
  step (state (final (restoreFromStorage
                        (boot Sample.page Sample.fractional Working Sample.browser))))
  = JsNum.Fin (5 # 2)
  /\ step (state (final (init (boot Sample.page Sample.fractional Working Sample.browser))))
     = JsNum.Fin (5 # 2)
  /\ ~ completed (init (boot Sample.page Sample.fractional Working Sample.browser))
  /\ ~ JsNum.isStep 4 (JsNum.Fin (5 # 2)).
Proof.
  split; [ vm_compute; reflexivity | ].
  split; [ vm_compute; reflexivity | ].
  split; [ vm_compute; tauto | ].
  intros (k & _ & Hk). vm_compute in Hk. discriminate Hk.
Qed.

(** The restored step is one of 1..4 whenever the stored step is an
    integer or is missing. *)
Lemma restore_integer_step page m b saved (z : Z) :
  m <> Disabled ->
  snap_step saved = Some (JsNum.ofZ z) \/ snap_step saved = None ->
  JsNum.isStep 4 (step (state (final (restoreFromStorage (boot page (Json saved) m b))))).
Proof.
  intros Hm Hstep.
  destruct (restoreFromStorage_some (boot page (Json saved) m b) saved) as [d ->].
  { unfold loadState. simpl. by destruct m. }
  simpl. destruct Hstep as [-> | ->].
  - destruct (JsNum.truthy (JsNum.ofZ z)); apply clampStep_integer.
  - apply (clampStep_integer 1).
Qed.




(** C4.  Take any world whose form data defines every key of the initial
    literal, with storage working.  Persisting it and restoring the stored
    record on a freshly loaded page gives back the same form data, key by
    key: every scalar field and both sequences are the same values, so the
    allergy sequence comes back with its order and without duplicates if
    it had none.  The preference and a step in 1..4 come back as well. *)
Theorem persist_then_restore_is_identity (page : Document) (b : Browser) (w : World) :
  mode w = Working ->
  (forall k, is_Some (emptyData !! k) -> is_Some (data (state w) !! k)) ->
  data (state (final (restoreFromStorage (boot page (store (saveState w)) Working b))))
  = data (state w)
  /\ contrast (state (final (restoreFromStorage
                              (boot page (store (saveState w)) Working b))))
     = contrast (state w)
  /\ (forall k, (1 <= k <= 4)%Z -> step (state w) = JsNum.ofZ k ->
      step (state (final (restoreFromStorage
                            (boot page (store (saveState w)) Working b))))
      = JsNum.ofZ k)
  /\ (forall l, data (state w) !! "allergies" = Some (VArr l) ->
      data (state (final (restoreFromStorage
                            (boot page (store (saveState w)) Working b))))
        !! "allergies" = Some (VArr l)).
Proof.
  intros Hm Hkeys.
  rewrite (saveState_working w Hm).
  destruct (restoreFromStorage_some
              (boot page (Json (snapshotOf (state w))) Working b)
              (snapshotOf (state w)) eq_refl) as [d ->].
  assert (Hdata : data (state w) ∪ emptyData = data (state w)).
  { apply map_eq. intros k. rewrite lookup_union.
    destruct (data (state w) !! k) as [v|] eqn:Hk.
    - by destruct (emptyData !! k).
    - destruct (emptyData !! k) as [v|] eqn:He; [ | done ].
      destruct (Hkeys k) as [v' Hv']; [ by rewrite He | congruence ]. }
  simpl. rewrite Hdata. repeat split; try done.
  intros k Hk Hstep. rewrite Hstep.
  assert (k = 1 \/ k = 2 \/ k = 3 \/ k = 4)%Z as [->|[->|[->| ->]]] by lia; reflexivity.
Qed.

Lemma persist_then_restore_witness :
  (mode Sample.atStep4 = Working
   /\ forall k, is_Some (emptyData !! k) -> is_Some (data (state Sample.atStep4) !! k))
  /\ data (state (final (restoreFromStorage
                           (boot Sample.page (store (saveState Sample.atStep4))
                                 Working Sample.browser))))
     = data (state Sample.atStep4).
Proof.
  assert (H1 : mode Sample.atStep4 = Working) by (vm_compute; reflexivity).
  assert (H2 : forall k, is_Some (emptyData !! k) ->
                         is_Some (data (state Sample.atStep4) !! k)).
  { intros k [v Hk]. apply elem_of_list_to_map_2 in Hk.
    unfold emptyFields in Hk.
    repeat (apply elem_of_cons in Hk as [Hk|Hk];
            [ inversion Hk; subst; vm_compute; eexists; reflexivity | ]).
    by inversion Hk. }
  split; [ by split | ].
  by destruct (persist_then_restore_is_identity Sample.page Sample.browser
                 Sample.atStep4 H1 H2) as [H _].
Defined.

(** ** Facts about strings *)

Lemma chars_ofChars l : chars (ofChars l) = l.
Proof. apply list_ascii_of_string_of_list_ascii. Qed.

Lemma ofChars_chars s : ofChars (chars s) = s.
Proof. apply string_of_list_ascii_of_string. Qed.

Lemma chars_inj s t : chars s = chars t -> s = t.
Proof. intros H. by rewrite <- (ofChars_chars s), <- (ofChars_chars t), H. Qed.

Lemma chars_empty s : chars s = [] <-> s = "".
Proof.
  split; [ | by intros -> ].
  intros H. apply chars_inj. by rewrite H.
Qed.

Lemma length_chars s : List.length (chars s) = String.length s.
Proof. induction s as [|c s IH]; simpl; [ done | by rewrite IH ]. Qed.

(** A list with no white space at either end. *)
Definition trimmedL (l : list ascii) : Prop :=
  match l with
  | [] => True
  | c :: _ => isWhite c = false
  end
  /\ match rev l with
     | [] => True
     | c :: _ => isWhite c = false
     end.

Lemma trimStartL_head l :
  match trimStartL l with
  | [] => True
  | c :: _ => isWhite c = false
  end.
Proof.
  induction l as [|c l IH]; simpl; [ done | ].
  destruct (isWhite c) eqn:E; [ done | by simpl ].
Qed.

Lemma trimStartL_fixed l :
  match l with [] => True | c :: _ => isWhite c = false end ->
  trimStartL l = l.
Proof. destruct l as [|c l]; simpl; [ done | ]. by intros ->. Qed.

Lemma trimStartL_snoc l c :
  isWhite c = false -> trimStartL (l ++ [c]) = trimStartL l ++ [c].
Proof.
  intros Hc. induction l as [|a l IH]; simpl.
  - by rewrite Hc.
  - destruct (isWhite a); [ done | reflexivity ].
Qed.

Lemma trimEndL_cons c l :
  isWhite c = false -> trimEndL (c :: l) = c :: trimEndL l.
Proof.
  intros Hc. unfold trimEndL. simpl.
  rewrite trimStartL_snoc by done. by rewrite rev_app_distr.
Qed.

Lemma trimEndL_last l :
  match rev (trimEndL l) with
  | [] => True
  | c :: _ => isWhite c = false
  end.
Proof. unfold trimEndL. rewrite rev_involutive. apply trimStartL_head. Qed.

Lemma trimEndL_fixed l :
  match rev l with [] => True | c :: _ => isWhite c = false end ->
  trimEndL l = l.
Proof.
  intros H. unfold trimEndL. rewrite trimStartL_fixed by done. apply rev_involutive.
Qed.

Lemma trim_trimmed l : trimmedL (trimEndL (trimStartL l)).
Proof.
  split; [ | apply trimEndL_last ].
  pose proof (trimStartL_head l) as H.
  destruct (trimStartL l) as [|c t]; [ done | ].
  by rewrite trimEndL_cons.
Qed.

Lemma trimmedL_fixed l : trimmedL l -> trimEndL (trimStartL l) = l.
Proof.
  intros [H1 H2]. rewrite trimStartL_fixed by done. by apply trimEndL_fixed.
Qed.

(** [trim] removes nothing from a trimmed string. *)
Lemma trim_idempotent s : trim (trim s) = trim s.
Proof.
  unfold trim. rewrite chars_ofChars.
  by rewrite (trimmedL_fixed _ (trim_trimmed (chars s))).
Qed.

Lemma truthy_nonempty s : truthy s = true <-> s <> "".
Proof.
  unfold truthy. rewrite negb_true_iff, bool_decide_eq_false. done.
Qed.

Lemma length_pos_nonempty s : (0 <? String.length s) = true <-> s <> "".
Proof.
  destruct s; simpl; split; try done.
Qed.

Lemma isNonEmpty_trim s : isNonEmpty (trim s) = true <-> trim s <> "".
Proof. unfold isNonEmpty. rewrite trim_idempotent. apply length_pos_nonempty. Qed.

Lemma trim_empty : trim "" = "".
Proof. reflexivity. Qed.

Lemma trim_nonempty_value s : trim s <> "" -> s <> "".
Proof. intros H ->. by apply H. Qed.

(** ** Policy confirmation *)

Lemma getElementById_Some id d n :
  getElementById id d = Some n ->
  exists e, nodes d !! n = Some e /\ el_id e = id.
Proof.
  unfold getElementById. case_bool_decide; [ done | ].
  destruct (list_find _ (nodes d)) as [[i e]|] eqn:E; [ | done ].
  intros [= <-]. apply list_find_Some in E as (H1 & H2 & _). eauto.
Qed.

Lemma list_find_alter_id (f : Element -> Element) id n (l : list Element) :
  (forall e, el_id (f e) = el_id e) ->
  fst <$> list_find (fun e => el_id e = id) (alter f n l)
  = fst <$> list_find (fun e => el_id e = id) l.
Proof.
  intros Hf. revert n. induction l as [|x l IH]; intros n; [ done | ].
  destruct n as [|n]; simpl.
  - rewrite Hf. by destruct (decide (el_id x = id)).
  - destruct (decide (el_id x = id)); [ done | ].
    specialize (IH n). change (list_alter f n l) with (alter f n l).
    destruct (list_find _ (alter f n l)) as [[i e]|],
             (list_find _ l) as [[j e']|]; simpl in *; try done.
    by inversion IH.
Qed.

Lemma getElementById_alter (f : Element -> Element) id n d :
  (forall e, el_id (f e) = el_id e) ->
  getElementById id (setNodes (alter f n (nodes d)) d) = getElementById id d.
Proof.
  intros Hf. unfold getElementById. simpl.
  case_bool_decide; [ done | ]. by apply list_find_alter_id.
Qed.

(** The run of [validateField] on the confirmation field. *)
Lemma validate_confirm_run self w c ce p pe :
  nodes (doc w) !! c = Some ce -> el_id ce = "policyConfirm" ->
  getElementById "policyNumber" (doc w) = Some p -> nodes (doc w) !! p = Some pe ->
  validateFieldWith self (Some c) w
  = Done (isNonEmpty (trim (el_value ce))
          && bool_decide (trim (el_value ce) = el_value pe))
         (withMarks (<[el_control ce :=
                         if isNonEmpty (trim (el_value ce))
                            && bool_decide (trim (el_value ce) = el_value pe)
                         then MarkValid else MarkInvalid]> (marks (doc w))) w).
Proof.
  intros Hc Hid Hp Hpe.
  unfold validateFieldWith. rewrite bind_get, Hc. cbv zeta. rewrite Hid. simpl.
  rewrite Hp, Hpe.
  destruct (isNonEmpty (trim (el_value ce))); simpl;
    [ destruct (bool_decide (trim (el_value ce) = el_value pe)) | ]; reflexivity.
Qed.

(** The run of [validateField] on the policy number when a non-empty
    confirmation is present: the confirmation is checked first. *)
Lemma validate_policy_with self w c ce p pe b mk :
  getElementById "policyConfirm" (doc w) = Some c -> nodes (doc w) !! c = Some ce ->
  nodes (doc w) !! p = Some pe -> el_id pe = "policyNumber" ->
  el_value ce <> "" ->
  self (Some c) w = Done b (withMarks mk w) ->
  validateFieldWith self (Some p) w
  = Done (isValidPolicy (trim (el_value pe)))
         (withMarks
            (<[el_control pe :=
                 if isValidPolicy (trim (el_value pe)) then MarkValid else MarkInvalid]> mk)
            w).
Proof.
  intros Hc Hce Hpe Hidp Hval Hself.
  unfold validateFieldWith.
  rewrite bind_get, Hpe. cbv zeta. rewrite Hidp. simpl. rewrite Hc, Hce.
  apply truthy_nonempty in Hval. rewrite Hval.
  unfold bind at 1. unfold bind at 1. unfold bind at 1. rewrite Hself.
  unfold ret, bind, setValid, setInvalid, modifyDoc, modify.
  destruct (isValidPolicy (trim (el_value pe))); reflexivity.
Qed.

Lemma validate_policy_run w c ce p pe :
  getElementById "policyConfirm" (doc w) = Some c -> nodes (doc w) !! c = Some ce ->
  getElementById "policyNumber" (doc w) = Some p -> nodes (doc w) !! p = Some pe ->
  el_value ce <> "" ->
  validateField (Some p) w
  = Done (isValidPolicy (trim (el_value pe)))
         (withMarks
            (<[el_control pe :=
                 if isValidPolicy (trim (el_value pe)) then MarkValid else MarkInvalid]>
               (<[el_control ce :=
                    if isNonEmpty (trim (el_value ce))
                       && bool_decide (trim (el_value ce) = el_value pe)
                    then MarkValid else MarkInvalid]> (marks (doc w)))) w).
Proof.
  intros Hc Hce Hp Hpe Hval.
  destruct (getElementById_Some _ _ _ Hc) as (ce' & Hce' & Hidc).
  destruct (getElementById_Some _ _ _ Hp) as (pe' & Hpe' & Hidp).
  assert (ce' = ce) as -> by congruence. assert (pe' = pe) as -> by congruence.
  unfold validateField.
  apply (validate_policy_with _ w c ce p pe
           (isNonEmpty (trim (el_value ce)) && bool_decide (trim (el_value ce) = el_value pe))
           (<[el_control ce :=
                if isNonEmpty (trim (el_value ce))
                   && bool_decide (trim (el_value ce) = el_value pe)
                then MarkValid else MarkInvalid]> (marks (doc w)))); auto.
  by apply (validate_confirm_run _ w c ce p pe).
Qed.

Lemma persist_run b w :
  exists d,
    persist b w = Done tt (setDoc d (saveState w))
    /\ nodes d = nodes (doc w) /\ marks d = marks (doc w).
Proof.
  unfold persist, announcePolite, modifyDoc, modify, bind, ret.
  destruct b; [ | exists (doc (saveState w)) ].
  - eexists. split; [ reflexivity | ].
    rewrite saveState_doc. by destruct (polite (doc w)).
  - rewrite saveState_doc. split; [ | done ].
    f_equal. rewrite <- (saveState_doc w). by destruct (saveState w).
Qed.

Lemma getElementById_nodes id d d' :
  nodes d' = nodes d -> getElementById id d' = getElementById id d.
Proof. intros H. unfold getElementById. by rewrite H. Qed.

(** C6, as the code has it.  The confirmation field validates exactly
    when its value with surrounding white space removed is non-empty and
    equal to the value the policy-number field holds (taken as it is).
    And when the policy number is edited to another value after a valid
    confirmation, the re-check run by the listener marks the confirmation
    invalid, and the confirmation no longer validates. *)
Theorem confirm_valid_iff_trimmed_equal
  (w : World) (c p : nat) (ce pe : Element) :
  getElementById "policyConfirm" (doc w) = Some c -> nodes (doc w) !! c = Some ce ->
  getElementById "policyNumber" (doc w) = Some p -> nodes (doc w) !! p = Some pe ->
  (exists b, verdict w (Some c) = Some b
             /\ (b = true <-> trim (el_value ce) <> "" /\ trim (el_value ce) = el_value pe))
  /\ (forall v',
        verdict w (Some c) = Some true ->
        v' <> el_value pe ->
        el_control ce <> el_control pe ->
        is_Some (data (state w) !! "policyNumber") ->
        marks (doc (final (userEdits p v' w))) !! el_control ce = Some MarkInvalid
        /\ verdict (final (userEdits p v' w)) (Some c) = Some false).
Proof.
  intros Hc Hce Hp Hpe.
  destruct (getElementById_Some _ _ _ Hc) as (ce' & Hce' & Hidc).
  destruct (getElementById_Some _ _ _ Hp) as (pe' & Hpe' & Hidp).
  assert (ce' = ce) as -> by congruence. assert (pe' = pe) as -> by congruence.
  assert (Hverdict : verdict w (Some c)
                     = Some (isNonEmpty (trim (el_value ce))
                             && bool_decide (trim (el_value ce) = el_value pe))).
  { unfold verdict, validateField.
    by rewrite (validate_confirm_run _ w c ce p pe Hce Hidc Hp Hpe). }
  split.
  { eexists. split; [ exact Hverdict | ].
    rewrite andb_true_iff, bool_decide_eq_true. by rewrite isNonEmpty_trim. }
  intros v' Hvalid Hne Hctl [old Hkey].
  rewrite Hverdict in Hvalid. injection Hvalid as Hvalid.
  apply andb_true_iff in Hvalid as [Hnonempty Heq].
  apply bool_decide_eq_true in Heq.
  assert (Hcp : c <> p) by (intros ->; congruence).
  (* the world once the edit is in the field and in [state.data] *)
  set (pe' := setValue v' pe).
  set (w1 := setDoc (setNodes (alter (setValue v') p (nodes (doc w))) (doc w)) w).
  set (w2 := setData (<["policyNumber" := VStr v']> (data (state w1))) w1).
  assert (Hpe1 : nodes (doc w2) !! p = Some pe').
  { change (nodes (doc w2)) with (alter (setValue v') p (nodes (doc w))).
    by rewrite list_lookup_alter_eq, Hpe. }
  assert (Hce1 : nodes (doc w2) !! c = Some ce).
  { change (nodes (doc w2)) with (alter (setValue v') p (nodes (doc w))).
    by rewrite list_lookup_alter_ne. }
  assert (Hc1 : getElementById "policyConfirm" (doc w2) = Some c).
  { change (doc w2) with (setNodes (alter (setValue v') p (nodes (doc w))) (doc w)).
    rewrite getElementById_alter; done. }
  assert (Hp1 : getElementById "policyNumber" (doc w2) = Some p).
  { change (doc w2) with (setNodes (alter (setValue v') p (nodes (doc w))) (doc w)).
    rewrite getElementById_alter; done. }
  assert (Hcv : el_value ce <> "").
  { apply trim_nonempty_value. by apply isNonEmpty_trim. }
  assert (Hstale : isNonEmpty (trim (el_value ce))
                   && bool_decide (trim (el_value ce) = el_value pe') = false).
  { apply andb_false_iff. right. apply bool_decide_eq_false. simpl. congruence. }
  pose proof (validate_policy_run w2 c ce p pe' Hc1 Hce1 Hp1 Hpe1 Hcv) as Hrun.
  rewrite Hstale in Hrun.
  assert (Hedit : userEdits p v' w
                  = (_ <- validateField (Some p);; persist true) w2).
  { unfold userEdits.
    rewrite (bind_Done (updNode p (setValue v')) _ w tt w1 eq_refl).
    unfold handleInput. rewrite bind_get.
    change (nodes (doc w1) !! p) with (nodes (doc w2) !! p). rewrite Hpe1.
    change (el_id pe') with (el_id pe). change (el_name pe') with (el_name pe).
    rewrite Hidp. simpl (truthy "policyNumber"). rewrite andb_false_r.
    simpl (String.eqb _ _). cbv iota.
    change (data (state w1)) with (data (state w)). rewrite Hkey.
    unfold syncState.
    rewrite (bind_Done (modify _) _ w1 tt _ eq_refl).
    change (data (state w1)) with (data (state w)). rewrite Hkey. reflexivity. }
  rewrite Hedit, (bind_Done _ _ _ _ _ Hrun).
  match goal with
  | |- context [persist true ?w3] =>
      destruct (persist_run true w3) as (d & -> & Hn & Hm); set (w4 := w3) in *
  end.
  simpl final. split.
  - simpl. rewrite Hm. simpl.
    rewrite lookup_insert_ne by (simpl; congruence). by rewrite lookup_insert_eq.
  - unfold verdict, validateField.
    rewrite (validate_confirm_run _ (setDoc d (saveState w4)) c ce p pe').
    + unfold resultOf. by rewrite Hstale.
    + simpl. rewrite Hn. exact Hce1.
    + done.
    + simpl. rewrite (getElementById_nodes _ (doc w2) d); [ exact Hp1 | ].
      rewrite Hn. reflexivity.
    + simpl. rewrite Hn. exact Hpe1.
Qed.

Lemma confirm_valid_iff_trimmed_equal_witness :
  (getElementById "policyConfirm" (doc Sample.confirmed) = Some 13
   /\ nodes (doc Sample.confirmed) !! 13
      = Some (setValue "AB-123456" (Sample.field "policyConfirm" "text" Input true 1))
   /\ getElementById "policyNumber" (doc Sample.confirmed) = Some 12
   /\ nodes (doc Sample.confirmed) !! 12
      = Some (setValue "AB-123456" (Sample.field "policyNumber" "text" Input true 1))
   /\ verdict Sample.confirmed (Some 13) = Some true)
  /\ marks (doc (final (userEdits 12 "ZZ-999999" Sample.confirmed))) !! "fc-policyConfirm"
     = Some MarkInvalid.
Proof.
  assert (H1 : getElementById "policyConfirm" (doc Sample.confirmed) = Some 13)
    by (vm_compute; reflexivity).
  assert (H2 : nodes (doc Sample.confirmed) !! 13
               = Some (setValue "AB-123456"
                         (Sample.field "policyConfirm" "text" Input true 1)))
    by (vm_compute; reflexivity).
  assert (H3 : getElementById "policyNumber" (doc Sample.confirmed) = Some 12)
    by (vm_compute; reflexivity).
  assert (H4 : nodes (doc Sample.confirmed) !! 12
               = Some (setValue "AB-123456"
                         (Sample.field "policyNumber" "text" Input true 1)))
    by (vm_compute; reflexivity).
  assert (H5 : verdict Sample.confirmed (Some 13) = Some true)
    by (vm_compute; reflexivity).
  split; [ exact (conj H1 (conj H2 (conj H3 (conj H4 H5)))) | ].
  destruct (confirm_valid_iff_trimmed_equal Sample.confirmed 13 12 _ _ H1 H2 H3 H4)
    as [_ Hstale].
  destruct (Hstale "ZZ-999999" H5) as [Hmark _].
  - discriminate.
  - discriminate.
  - vm_compute. eexists. reflexivity.
  - exact Hmark.
Defined.

(** C6, counterexample.  With the policy number [AB-123456] and the
    confirmation [AB-123456] followed by a space, the two values are not
    equal as strings, and the confirmation validates. *)
Lemma confirm_with_trailing_space_validates :
  getElementById "policyConfirm" (doc Sample.padded) = Some 13
  /\ getElementById "policyNumber" (doc Sample.padded) = Some 12
  /\ el_value <$> nodes (doc Sample.padded) !! 13 = Some "AB-123456 "
  /\ el_value <$> nodes (doc Sample.padded) !! 12 = Some "AB-123456"
  /\ "AB-123456 " <> "AB-123456"
  /\ verdict Sample.padded (Some 13) = Some true.
Proof.
  repeat split; try (vm_compute; reflexivity). discriminate.
Qed.

(** ** Containment without regard to case *)

(** Two code units are the same letter: equal, or one is the lower-case
    form of the other. *)
Definition sameLetter (c d : ascii) : Prop :=
  c = d
  \/ (isUpper c = true /\ d = lowerChar c)
  \/ (isUpper d = true /\ c = lowerChar d).

(** [name] contains [text] case-insensitively: some run of consecutive
    characters of [name] spells [text] letter for letter. *)
Definition containsCI (name text : string) : Prop :=
  exists pre mid post,
    chars name = pre ++ mid ++ post /\ Forall2 sameLetter mid (chars text).

Definition sameLetterb (c d : ascii) : bool :=
  bool_decide (c = d)
  || (isUpper c && bool_decide (d = lowerChar c))
  || (isUpper d && bool_decide (c = lowerChar d)).

Definition allAscii : list ascii := ascii_of_nat <$> seq 0 256.

Lemma allAscii_complete c : c ∈ allAscii.
Proof.
  unfold allAscii. apply list_elem_of_fmap. exists (nat_of_ascii c).
  split; [ by rewrite ascii_nat_embedding | ].
  apply elem_of_seq. pose proof (nat_ascii_bounded c). lia.
Qed.

Lemma sameLetterb_lower_all :
  forallb (fun c =>
             forallb (fun d => Bool.eqb (sameLetterb c d)
                                        (bool_decide (lowerChar c = lowerChar d)))
                     allAscii) allAscii = true.
Proof. vm_compute. reflexivity. Qed.

Lemma sameLetter_lower c d : sameLetter c d <-> lowerChar c = lowerChar d.
Proof.
  pose proof sameLetterb_lower_all as H.
  rewrite forallb_forall in H.
  specialize (H c (proj1 (list_elem_of_In _ _) (allAscii_complete c))).
  rewrite forallb_forall in H.
  specialize (H d (proj1 (list_elem_of_In _ _) (allAscii_complete d))).
  apply Bool.eqb_prop in H.
  rewrite <- (bool_decide_eq_true (lowerChar c = lowerChar d)), <- H.
  unfold sameLetter, sameLetterb.
  rewrite !orb_true_iff, !andb_true_iff, !bool_decide_eq_true. tauto.
Qed.

Lemma startsWithL_spec p l :
  startsWithL p l = true <-> exists post, l = p ++ post.
Proof.
  revert l. induction p as [|a p IH]; intros l; simpl.
  - split; [ intros _; by exists l | done ].
  - destruct l as [|b l].
    + split; [ done | intros [post H]; discriminate H ].
    + rewrite andb_true_iff, bool_decide_eq_true, IH. split.
      * intros [-> [post ->]]. by exists post.
      * intros [post H]. injection H as -> ->. eauto.
Qed.

Lemma includesL_spec l sub :
  includesL l sub = true <-> exists pre post, l = pre ++ sub ++ post.
Proof.
  induction l as [|a l IH]; simpl.
  - rewrite startsWithL_spec. split.
    + intros [post H]. exists [], post. done.
    + intros (pre & post & H). symmetry in H.
      apply app_eq_nil in H as [-> H]. exists post. by rewrite H.
  - rewrite orb_true_iff, startsWithL_spec, IH. split.
    + intros [[post H]|(pre & post & H)].
      * exists [], post. done.
      * exists (a :: pre), post. by rewrite H.
    + intros (pre & post & H). destruct pre as [|b pre].
      * left. by exists post.
      * right. injection H as -> H. eauto.
Qed.

Lemma chars_toLowerCase s : chars (toLowerCase s) = lowerChar <$> chars s.
Proof. unfold toLowerCase. apply chars_ofChars. Qed.

Lemma fmap_lower_eq (l k : list ascii) :
  lowerChar <$> l = lowerChar <$> k <-> Forall2 sameLetter l k.
Proof.
  revert k. induction l as [|a l IH]; intros k.
  - destruct k as [|b k]; split; intros H.
    + constructor.
    + reflexivity.
    + discriminate H.
    + inversion H.
  - destruct k as [|b k]; split; intros H.
    + discriminate H.
    + inversion H.
    + rewrite !fmap_cons in H. injection H as Hab Hlk. constructor.
      * by apply sameLetter_lower.
      * by apply IH.
    + inversion H as [|? ? ? ? Hab Hlk]; subst.
      apply sameLetter_lower in Hab. apply IH in Hlk.
      by rewrite !fmap_cons, Hab, Hlk.
Qed.

(** The test of the filter is containment without regard to case. *)
Lemma includes_lower_containsCI name text :
  includes (toLowerCase name) (toLowerCase text) = true <-> containsCI name text.
Proof.
  unfold includes, containsCI. rewrite includesL_spec, !chars_toLowerCase. split.
  - intros (pre & post & H).
    apply fmap_app_inv in H as (l1 & l23 & -> & H & ->).
    symmetry in H. apply fmap_app_inv in H as (l2 & l3 & H2 & -> & ->).
    exists l1, l2, l3. split; [ done | ]. by apply fmap_lower_eq.
  - intros (pre & mid & post & -> & H). apply fmap_lower_eq in H.
    exists (lowerChar <$> pre), (lowerChar <$> post).
    by rewrite !fmap_app, H.
Qed.

(** ** The provider filter *)

(** The combobox as the script sees it: the filtered list, the active
    option and the popup. *)
Definition comboView (w : World) : list string * option nat * option Listbox :=
  (providerFiltered w, providerActive w, listbox (doc w)).

Definition keepsCombo (w w' : World) : Prop := comboView w' = comboView w.

#[global] Instance keepsCombo_preorder : PreOrder keepsCombo.
Proof.
  split.
  - intros w. reflexivity.
  - intros w1 w2 w3 H1 H2. unfold keepsCombo in *. congruence.
Qed.

Lemma validateField_keepsCombo el : respects keepsCombo (validateField el).
Proof.
  intros w. destruct (validateField_run el w) as [mk E]. rewrite E.
  by destruct (resultOf (validateField el w)).
Qed.

Lemma persist_keepsCombo b : respects keepsCombo (persist b).
Proof.
  unfold persist, announcePolite. frame.
  - unfold keepsCombo, comboView, saveState. by destruct (mode w).
  - unfold keepsCombo, comboView. simpl. by destruct (polite (doc w)).
Qed.

Lemma syncState_keepsCombo k v : respects keepsCombo (syncState k v).
Proof.
  unfold syncState. frame. unfold keepsCombo, comboView.
  by destruct (data (state w) !! k).
Qed.

#[global] Hint Resolve validateField_keepsCombo persist_keepsCombo
  syncState_keepsCombo : frame.

(** The list the input listener computes for the text [value]. *)
Definition matching (value : string) : list string :=
  filter (fun name => includes (toLowerCase name) (toLowerCase (trim value))) PROVIDERS.

(** The listener up to the point where the combobox is redrawn. *)
Lemma onProviderInput_prefix w p e lb :
  providerInput (doc w) = Some p -> nodes (doc w) !! p = Some e ->
  listbox (doc w) = Some lb ->
  exists w3,
    onProviderInput w
    = (syncState "provider" (el_value e);;
       _ <- validateField (Some p);;
       persist true) w3
    /\ comboView w3
       = (matching (el_value e),
          match matching (el_value e) with [] => None | _ :: _ => Some 0 end,
          Some {| lb_options := matching (el_value e);
                  lb_hidden := match matching (el_value e) with
                               | [] => true
                               | _ :: _ => false
                               end |})
    /\ state w3 = state w.
Proof.
  intros Hp He Hlb. unfold onProviderInput.
  rewrite bind_get, Hp, He. cbv zeta. fold (matching (el_value e)).
  rewrite (bind_Done (modify _) _ w tt _ eq_refl).
  unfold renderProviderList, withListbox.
  match goal with
  | |- context [bind (bind (bind get ?k) ?k2) ?k3 ?w1] =>
      assert (E1 : bind (bind get k) k2 w1
                   = Done tt (setProviderActive
                                (match matching (el_value e) with
                                 | [] => None
                                 | _ :: _ => Some 0
                                 end)
                                (setDoc (setListbox
                                           (Some {| lb_options := matching (el_value e);
                                                    lb_hidden := lb_hidden lb |})
                                           (doc w1)) w1)))
  end.
  { unfold bind at 1. rewrite bind_get. simpl. rewrite Hlb. reflexivity. }
  rewrite (bind_Done _ _ _ _ _ E1). clear E1.
  match goal with
  | |- context [bind ?m ?k ?w2] =>
      assert (E2 : m w2
                   = Done tt (setDoc (setListbox
                                        (Some {| lb_options := matching (el_value e);
                                                 lb_hidden :=
                                                   match matching (el_value e) with
                                                   | [] => true
                                                   | _ :: _ => false
                                                   end |})
                                        (doc w2)) w2))
  end.
  { destruct (matching (el_value e)); unfold openProviderList, closeProviderList,
      withListbox; rewrite bind_get; simpl; reflexivity. }
  rewrite (bind_Done _ _ _ _ _ E2). clear E2.
  eexists. split; [ reflexivity | ]. split; [ | reflexivity ].
  unfold comboView. simpl. by destruct (matching (el_value e)).
Qed.

Definition keepsState (w w' : World) : Prop := state w' = state w.

#[global] Instance keepsState_preorder : PreOrder keepsState.
Proof.
  split.
  - intros w. reflexivity.
  - intros w1 w2 w3 H1 H2. unfold keepsState in *. congruence.
Qed.

Lemma validateField_keepsState el : respects keepsState (validateField el).
Proof.
  intros w. destruct (validateField_run el w) as [mk E]. rewrite E.
  by destruct (resultOf (validateField el w)).
Qed.

Lemma persist_keepsState b : respects keepsState (persist b).
Proof.
  unfold persist, announcePolite. frame.
  - unfold keepsState. apply saveState_state.
  - reflexivity.
Qed.

#[global] Hint Resolve validateField_keepsState persist_keepsState : frame.

(** C7, as the code has it.  When the input listener runs on the text the
    provider field holds, the filtered list becomes exactly the catalog
    entries whose name contains that text with surrounding white space
    removed, without regard to case, in catalog order; the popup shows
    that list; if it is not empty its first entry is active and the popup
    is open, and if it is empty no entry is active and the popup is
    closed.  With the text [Allianz] the list is [["Allianz"]].  The text
    as typed goes to the form data. *)
Theorem provider_filter_recomputed (w : World) (p : nat) (e : Element) (lb : Listbox) :
  providerInput (doc w) = Some p -> nodes (doc w) !! p = Some e ->
  listbox (doc w) = Some lb ->
  (forall name, name ∈ providerFiltered (final (onProviderInput w))
                <-> name ∈ PROVIDERS /\ containsCI name (trim (el_value e)))
  /\ sublist (providerFiltered (final (onProviderInput w))) PROVIDERS
  /\ (exists lb',
        listbox (doc (final (onProviderInput w))) = Some lb'
        /\ lb_options lb' = providerFiltered (final (onProviderInput w))
        /\ (providerFiltered (final (onProviderInput w)) <> [] ->
            providerActive (final (onProviderInput w)) = Some 0 /\ lb_hidden lb' = false)
        /\ (providerFiltered (final (onProviderInput w)) = [] ->
            providerActive (final (onProviderInput w)) = None /\ lb_hidden lb' = true))
  /\ (trim (el_value e) = "Allianz" ->
      providerFiltered (final (onProviderInput w)) = ["Allianz"])
  /\ (is_Some (data (state w) !! "provider") ->
      data (state (final (onProviderInput w))) !! "provider" = Some (VStr (el_value e))).
Proof.
  intros Hp He Hlb.
  destruct (onProviderInput_prefix w p e lb Hp He Hlb) as (w3 & Erun & Hview & Hstate).
  assert (Hcombo : comboView (final (onProviderInput w)) = comboView w3).
  { rewrite Erun.
    assert (Hm : respects keepsCombo
                   (syncState "provider" (el_value e);;
                    _ <- validateField (Some p);;
                    persist true)) by frame.
    apply Hm. }
  rewrite Hview in Hcombo. unfold comboView in Hcombo.
  injection Hcombo as Hf Ha Hl. rewrite Hf, Ha.
  split.
  { intros name. unfold matching. rewrite list_elem_of_filter.
    rewrite <- includes_lower_containsCI. split.
    - intros [H1 H2]. split; [ done | ]. by apply Is_true_true.
    - intros [H1 H2]. split; [ | done ]. by apply Is_true_true. }
  split; [ apply sublist_filter | ].
  split.
  { eexists. split; [ exact Hl | ]. split; [ reflexivity | ].
    destruct (matching (el_value e)); split; intros H; try done. }
  split.
  { intros Htrim. unfold matching. rewrite Htrim. vm_compute. reflexivity. }
  intros [old Hkey]. rewrite Erun.
  assert (Hsync : syncState "provider" (el_value e) w3
                  = Done tt (setData (<["provider" := VStr (el_value e)]> (data (state w3))) w3)).
  { unfold syncState, modify. by rewrite Hstate, Hkey. }
  rewrite (bind_Done _ _ _ _ _ Hsync).
  assert (Hm : respects keepsState (_ <- validateField (Some p);; persist true)) by frame.
  rewrite (Hm _). simpl. by rewrite lookup_insert_eq.
Qed.

Lemma provider_filter_recomputed_witness :
  (providerInput (doc (Sample.typed "Allianz")) = Some 10
   /\ nodes (doc (Sample.typed "Allianz")) !! 10
      = Some (setValue "Allianz" (Sample.field "provider-input" "text" Input true 1))
   /\ listbox (doc (Sample.typed "Allianz"))
      = Some {| lb_options := PROVIDERS; lb_hidden := true |})
  /\ providerFiltered (final (onProviderInput (Sample.typed "Allianz"))) = ["Allianz"].
Proof.
  assert (H1 : providerInput (doc (Sample.typed "Allianz")) = Some 10)
    by (vm_compute; reflexivity).
  assert (H2 : nodes (doc (Sample.typed "Allianz")) !! 10
               = Some (setValue "Allianz"
                         (Sample.field "provider-input" "text" Input true 1)))
    by (vm_compute; reflexivity).
  assert (H3 : listbox (doc (Sample.typed "Allianz"))
               = Some {| lb_options := PROVIDERS; lb_hidden := true |})
    by (vm_compute; reflexivity).
  split; [ exact (conj H1 (conj H2 H3)) | ].
  destruct (provider_filter_recomputed (Sample.typed "Allianz") 10 _ _ H1 H2 H3)
    as (_ & _ & _ & Hallianz & _).
  apply Hallianz. vm_compute. reflexivity.
Defined.

(** C7, counterexample.  Typing [Allianz] followed by a space leaves the
    list [["Allianz"]] and the popup open, although the name [Allianz]
    does not contain the typed text. *)
Lemma provider_filter_trims_typed_text :
  providerFiltered (final (userTypesProvider "Allianz " Sample.atStep2)) = ["Allianz"]
  /\ (lb_hidden <$> listbox (doc (final (userTypesProvider "Allianz " Sample.atStep2))))
     = Some false
  /\ ~ containsCI "Allianz" "Allianz ".
Proof.
  split; [ vm_compute; reflexivity | ].
  split; [ vm_compute; reflexivity | ].
  intros (pre & mid & post & H1 & H2).
  apply Forall2_length in H2. apply (f_equal length) in H1.
  rewrite !length_app in H1. simpl in H1, H2. lia.
Qed.

(** ** Allergies *)

(** The sequence as [addAllergyFromInput] builds it: no entry twice, and
    every entry a non-empty text without white space around it. *)
Definition allergiesOk (l : list string) : Prop :=
  NoDup l /\ Forall (fun a => a <> "" /\ trim a = a) l.

Lemma docOnly_keepsState w w' : docOnly w w' -> keepsState w w'.
Proof. by intros [d ->]. Qed.

Lemma renderAllergyChips_keepsState : respects keepsState renderAllergyChips.
Proof.
  eapply respects_weaken; [ apply docOnly_keepsState | apply renderAllergyChips_docOnly ].
Qed.

#[global] Hint Resolve renderAllergyChips_keepsState : frame.

Lemma once_in_NoDup (l : list string) v :
  NoDup l -> v ∈ l -> length (filter (fun x => x = v) l) = 1.
Proof.
  induction 1 as [|x l Hx Hl IH]; intros Hin; [ by inversion Hin | ].
  rewrite filter_cons. destruct (decide (x = v)) as [->|Hne].
  - simpl. f_equal.
    destruct (filter (fun x => x = v) l) as [|y k] eqn:E; [ done | ].
    assert (Hy : y ∈ filter (fun x => x = v) l) by (rewrite E; left).
    apply list_elem_of_filter in Hy as [-> Hy]. done.
  - apply elem_of_cons in Hin as [->|Hin]; [ done | ]. by apply IH.
Qed.



(** ** What the combobox commits

    Two facts hold in every world a listener runs in: the options drawn in
    the popup are catalog entries in catalog order, and [state.data] has
    the key [provider].  Both are kept by every listener. *)

(** The part of the document that decides which elements the script's
    constants name: the ids, in document order, and whether the listbox
    exists. *)
Definition shape (w : World) : list string * bool :=
  (el_id <$> nodes (doc w),
   match listbox (doc w) with Some _ => true | None => false end).

Definition catalogOptions (w : World) : Prop :=
  forall lb, listbox (doc w) = Some lb -> sublist (lb_options lb) PROVIDERS.

Definition hasProvider (w : World) : Prop :=
  is_Some (data (state w) !! "provider").

Definition filteredOk (w : World) : Prop := sublist (providerFiltered w) PROVIDERS.

Definition steady (w w' : World) : Prop :=
  shape w' = shape w
  /\ (catalogOptions w -> catalogOptions w')
  /\ (hasProvider w -> hasProvider w')
  /\ (filteredOk w -> filteredOk w').

#[global] Instance steady_preorder : PreOrder steady.
Proof.
  split.
  - intros w. by repeat split.
  - intros w1 w2 w3 (S1 & C1 & P1 & F1) (S2 & C2 & P2 & F2). repeat split.
    + congruence.
    + auto.
    + auto.
    + auto.
Qed.

Lemma steady_frame w w' :
  el_id <$> nodes (doc w') = el_id <$> nodes (doc w) ->
  listbox (doc w') = listbox (doc w) ->
  providerFiltered w' = providerFiltered w ->
  (hasProvider w -> hasProvider w') ->
  steady w w'.
Proof.
  intros Hn Hl Hf Hp. repeat split.
  - unfold shape. by rewrite Hn, Hl.
  - unfold catalogOptions. by rewrite Hl.
  - done.
  - unfold filteredOk. by rewrite Hf.
Qed.

Lemma steady_doc d w :
  el_id <$> nodes d = el_id <$> nodes (doc w) ->
  listbox d = listbox (doc w) ->
  steady w (setDoc d w).
Proof. intros Hn Hl. by apply steady_frame. Qed.

Lemma ids_alter (f : Element -> Element) n (l : list Element) :
  (forall e, el_id (f e) = el_id e) -> el_id <$> alter f n l = el_id <$> l.
Proof.
  intros Hf. revert n. induction l as [|e l IH]; intros [|n]; simpl; try done.
  - by rewrite Hf.
  - f_equal. apply IH.
Qed.

Lemma ids_fmap (f : Element -> Element) (l : list Element) :
  (forall e, el_id (f e) = el_id e) -> el_id <$> (f <$> l) = el_id <$> l.
Proof.
  intros Hf. rewrite <- list_fmap_compose. apply list_fmap_ext.
  intros i e _. apply Hf.
Qed.

Lemma ids_imap (f : nat -> Element -> Element) (l : list Element) :
  (forall i e, el_id (f i e) = el_id e) -> el_id <$> imap f l = el_id <$> l.
Proof.
  revert f. induction l as [|e l IH]; intros f Hf; simpl; [ done | ].
  rewrite Hf. f_equal. apply IH. intros i x. apply Hf.
Qed.

Lemma getElementById_ids id d d' :
  el_id <$> nodes d' = el_id <$> nodes d -> getElementById id d' = getElementById id d.
Proof.
  intros H. unfold getElementById. destruct (bool_decide (id = "")); [ done | ].
  assert (E : forall l, fst <$> list_find (fun e => el_id e = id) l
                        = fst <$> list_find (fun s => s = id) (el_id <$> l)).
  { intros l. rewrite list_find_fmap. by destruct (list_find _ l) as [[]|]. }
  by rewrite !E, H.
Qed.

Lemma comboReady_shape w w' : shape w' = shape w -> comboReady (doc w') = comboReady (doc w).
Proof.
  unfold shape. intros [= Hn Hl]. unfold comboReady, providerInput, providerToggle.
  rewrite !(getElementById_ids _ _ _ Hn).
  by destruct (getElementById "provider-input" (doc w)),
    (getElementById "provider-toggle" (doc w)), (listbox (doc w')), (listbox (doc w)).
Qed.

Lemma withMarks_steady mk w : steady w (withMarks mk w).
Proof. by apply steady_doc. Qed.

Lemma validateField_steady el : respects steady (validateField el).
Proof.
  intros w. destruct (validateField_run el w) as [mk E]. rewrite E.
  destruct (resultOf (validateField el w)); apply withMarks_steady.
Qed.

Lemma validateStep_steady s : respects steady (validateStep s).
Proof.
  intros w. destruct (validateStep_run s w) as [mk E]. rewrite E.
  destruct (resultOf (validateStep s w)); apply withMarks_steady.
Qed.

Lemma saveState_steady w : steady w (saveState w).
Proof. unfold saveState. destruct (mode w); by apply steady_frame. Qed.

Lemma clearState_steady w : steady w (clearState w).
Proof. unfold clearState. destruct (mode w); by apply steady_frame. Qed.

Lemma steady_setData dat w :
  (hasProvider w -> is_Some (dat !! "provider")) -> steady w (setData dat w).
Proof. intros H. by apply steady_frame. Qed.

(** Closes the goals [steady w (f w)] left by [frame] for the updates that
    keep the ids, the listbox and the keys of [state.data]. *)
Ltac steady_prim :=
  lazymatch goal with
  | |- steady ?w (saveState ?w) => apply saveState_steady
  | |- steady ?w (clearState ?w) => apply clearState_steady
  | |- steady ?w (setData _ ?w) =>
      apply steady_setData; unfold hasProvider; intros ?;
      repeat case_match;
      rewrite ?lookup_insert_is_Some, ?lookup_union_is_Some; auto;
      lazymatch goal with
      | |- ?a = ?b \/ _ => destruct (decide (a = b)); auto
      end
  | |- steady ?w (match ?x with _ => _ end) => destruct x; steady_prim
  | |- steady _ _ =>
      apply steady_frame;
      [ simpl; try reflexivity;
        first [ apply ids_alter; intros ?; reflexivity
              | apply ids_fmap; intros ?; repeat case_match; reflexivity
              | apply ids_imap; intros ? ?; repeat case_match; reflexivity
              | repeat case_match; reflexivity ]
      | simpl; repeat case_match; reflexivity
      | simpl; repeat case_match; reflexivity
      | unfold hasProvider; simpl; done ]
  end.

Lemma persist_steady b : respects steady (persist b).
Proof. unfold persist, announcePolite. frame; steady_prim. Qed.

Lemma syncState_steady k v : respects steady (syncState k v).
Proof.
  unfold syncState. frame. steady_prim.
Qed.

Lemma presentStep_steady s f a : respects steady (presentStep s f a).
Proof.
  unfold presentStep, setHidden, focusOn, announcePolite, updNode.
  frame; steady_prim.
Qed.

#[global] Hint Resolve validateField_steady validateStep_steady persist_steady
  syncState_steady presentStep_steady : frame.

Lemma goToStep_steady s f a : respects steady (goToStep s f a).
Proof. unfold goToStep. frame; steady_prim. Qed.

Lemma populateReview_steady : respects steady populateReview.
Proof.
  unfold populateReview, setSummary, joinOr. frame; steady_prim.
Qed.

#[global] Hint Resolve goToStep_steady populateReview_steady : frame.

Lemma submitChecks_steady ss : respects steady (submitChecks ss).
Proof.
  induction ss as [|s rest IH]; simpl; [ frame | ].
  unfold focusOn, announceAssertive. frame; steady_prim.
Qed.

#[global] Hint Resolve submitChecks_steady : frame.

Lemma handleNext_steady hint : respects steady (handleNext hint).
Proof. unfold handleNext, focusOn, announceAssertive. frame; steady_prim. Qed.

Lemma handleBack_steady hint : respects steady (handleBack hint).
Proof. unfold handleBack. frame. Qed.

Lemma handleEdit_steady hint : respects steady (handleEdit hint).
Proof. unfold handleEdit. frame. Qed.

Lemma handleSubmit_steady : respects steady handleSubmit.
Proof.
  unfold handleSubmit, focusOn, announceAssertive, toggleFormDisabled.
  frame; steady_prim.
Qed.

Lemma renderAllergyChips_steady : respects steady renderAllergyChips.
Proof. unfold renderAllergyChips. frame; steady_prim. Qed.

#[global] Hint Resolve renderAllergyChips_steady : frame.

Lemma submitDone_steady : respects steady submitDone.
Proof.
  unfold submitDone, formReset, toggleFormDisabled, announcePolite.
  frame; steady_prim.
Qed.

Lemma handleInput_steady t : respects steady (handleInput t).
Proof. unfold handleInput. frame. Qed.

#[global] Hint Resolve handleInput_steady : frame.

Lemma userEdits_steady t v : respects steady (userEdits t v).
Proof. unfold userEdits, updNode. frame; steady_prim. Qed.

Lemma addAllergyFromInput_steady : respects steady addAllergyFromInput.
Proof.
  unfold addAllergyFromInput, announcePolite, updNode. frame; steady_prim.
Qed.

Lemma removeAllergy_steady i : respects steady (removeAllergy i).
Proof. unfold removeAllergy. frame; steady_prim. Qed.

Lemma handleCondition_steady n : respects steady (handleCondition n).
Proof. unfold handleCondition, updNode. frame; steady_prim. Qed.

Lemma handleBlurValidation_steady t : respects steady (handleBlurValidation t).
Proof. unfold handleBlurValidation. frame. Qed.

Lemma onFieldRewrite_steady id v : respects steady (onFieldRewrite id v).
Proof. unfold onFieldRewrite, updNode. frame; steady_prim. Qed.

Lemma onContrastToggle_steady on : respects steady (onContrastToggle on).
Proof. unfold onContrastToggle, announcePolite. frame; steady_prim. Qed.

Lemma refillControls_steady : respects steady refillControls.
Proof. unfold refillControls, refill. frame; steady_prim. Qed.

#[global] Hint Resolve refillControls_steady : frame.

Lemma restoreFromStorage_steady : respects steady restoreFromStorage.
Proof. unfold restoreFromStorage. frame; steady_prim. Qed.

(** *** The combobox listeners *)

Lemma withListbox_steady (f : Listbox -> Listbox) :
  (forall lb, sublist (lb_options lb) PROVIDERS -> sublist (lb_options (f lb)) PROVIDERS) ->
  respects steady (withListbox f).
Proof.
  intros Hf w. unfold withListbox. rewrite bind_get.
  destruct (listbox (doc w)) as [lb|] eqn:E; [ | reflexivity ].
  unfold modifyDoc, modify. simpl. repeat split.
  - unfold shape. simpl. by rewrite E.
  - intros H lb' [= <-]. apply Hf, H, E.
  - done.
  - done.
Qed.

Lemma renderProviderList_steady items :
  sublist items PROVIDERS -> respects steady (renderProviderList items).
Proof.
  intros H. unfold renderProviderList. frame.
  - apply withListbox_steady. by intros lb _.
  - steady_prim.
Qed.

Lemma openProviderList_steady : respects steady openProviderList.
Proof. apply withListbox_steady. by intros lb H. Qed.

Lemma closeProviderList_steady : respects steady closeProviderList.
Proof. apply withListbox_steady. by intros lb H. Qed.

#[global] Hint Resolve openProviderList_steady closeProviderList_steady : frame.

Lemma selectProvider_steady name : respects steady (selectProvider name).
Proof. unfold selectProvider, focusOn, updNode. frame; steady_prim. Qed.

Lemma matching_sublist value : sublist (matching value) PROVIDERS.
Proof. apply sublist_filter. Qed.

Lemma onProviderInput_steady : respects steady onProviderInput.
Proof.
  pose proof matching_sublist as Hs. unfold matching in Hs.
  unfold onProviderInput. frame;
    first [ apply renderProviderList_steady, Hs
          | repeat split; first [ done | intros _; apply Hs ] ].
Qed.

#[global] Hint Resolve selectProvider_steady onProviderInput_steady userEdits_steady : frame.

Lemma userTypesProvider_steady text : respects steady (userTypesProvider text).
Proof. unfold userTypesProvider. frame. Qed.

Lemma onProviderKeydown_steady k : respects steady (onProviderKeydown k).
Proof. unfold onProviderKeydown, moveProviderActive. frame; steady_prim. Qed.

Lemma onProviderToggle_steady : respects steady onProviderToggle.
Proof. unfold onProviderToggle. frame. Qed.

Lemma onProviderOptionClick_steady i : respects steady (onProviderOptionClick i).
Proof. unfold onProviderOptionClick. frame. Qed.

Lemma onDocumentClick_steady inside : respects steady (onDocumentClick inside).
Proof. unfold onDocumentClick. frame. Qed.

#[global] Hint Resolve handleNext_steady handleBack_steady handleEdit_steady
  handleSubmit_steady submitDone_steady addAllergyFromInput_steady
  removeAllergy_steady handleCondition_steady handleBlurValidation_steady
  onFieldRewrite_steady onContrastToggle_steady userTypesProvider_steady
  onProviderKeydown_steady onProviderToggle_steady onProviderOptionClick_steady
  onDocumentClick_steady : frame.

Lemma handle_steady e : respects steady (handle e).
Proof. unfold handle. destruct e; frame; steady_prim. Qed.

Lemma observerSync_steady w : steady w (observerSync w).
Proof. unfold observerSync. steady_prim. Qed.

Lemma dispatch_steady e w : steady w (dispatch e w).
Proof.
  unfold dispatch. cbv zeta. case_bool_decide.
  - apply handle_steady.
  - transitivity (final (handle e w)); [ apply handle_steady | apply observerSync_steady ].
Qed.

Lemma observerSync_state w : state (observerSync w) = state w.
Proof. reflexivity. Qed.

Lemma dispatch_state e w : state (dispatch e w) = state (final (handle e w)).
Proof. unfold dispatch. cbv zeta. by case_bool_decide. Qed.

(** *** The invariant *)

(** What holds whenever a listener runs: where the combobox is set up,
    the popup shows catalog entries in catalog order; [state.data] has the
    key [provider]. *)
Definition comboInv (w : World) : Prop :=
  (comboReady (doc w) = true -> catalogOptions w) /\ hasProvider w /\ filteredOk w.

Lemma comboInv_steady w w' : steady w w' -> comboInv w -> comboInv w'.
Proof.
  intros (Hs & Hc & Hp & Hf) (Ic & Ip & If). repeat split; auto.
  intros Hr. apply Hc, Ic. by rewrite <- (comboReady_shape w w' Hs).
Qed.

Lemma emptyData_provider : emptyData !! "provider" = Some (VStr "").
Proof. reflexivity. Qed.

Lemma boot_start page s m b :
  hasProvider (boot page s m b) /\ filteredOk (boot page s m b).
Proof.
  split.
  - unfold hasProvider.
    change (data (state (boot page s m b))) with emptyData.
    rewrite emptyData_provider. by eexists.
  - unfold filteredOk.
    change (providerFiltered (boot page s m b)) with PROVIDERS. reflexivity.
Qed.

Lemma initProviderCombobox_run w :
  filteredOk w ->
  completed (initProviderCombobox w)
  /\ steady w (final (initProviderCombobox w))
  /\ (comboReady (doc w) = true -> catalogOptions (final (initProviderCombobox w))).
Proof.
  intros Hf. unfold initProviderCombobox. rewrite bind_get.
  destruct (comboReady (doc w)) eqn:Hr.
  - split; [ | split ].
    + unfold comboReady in Hr.
      destruct (providerInput (doc w)), (providerToggle (doc w)),
        (listbox (doc w)) as [lb|] eqn:El; try done.
      unfold renderProviderList, withListbox, bind, get. simpl. rewrite El. done.
    + by apply renderProviderList_steady.
    + intros _. unfold comboReady in Hr.
      destruct (providerInput (doc w)), (providerToggle (doc w)),
        (listbox (doc w)) as [lb|] eqn:El; try done.
      unfold renderProviderList, withListbox, bind, get. simpl. rewrite El. simpl.
      by intros lb' [= <-].
  - split; [ done | split; [ reflexivity | done ] ].
Qed.

Lemma init_comboInv page s m b :
  completed (restoreFromStorage (boot page s m b)) ->
  comboInv (observerSync (final (init (boot page s m b)))).
Proof.
  intros Hc. apply (comboInv_steady _ _ (observerSync_steady _)).
  unfold init. set (w0 := boot page s m b) in *.
  pose proof (restoreFromStorage_steady w0) as Hs.
  destruct (restoreFromStorage w0) as [[] w1|w1] eqn:E1; [ | done ]. simpl in Hs.
  rewrite (bind_Done restoreFromStorage _ w0 tt w1 E1).
  destruct (boot_start page s m b) as [Hp Hf]. fold w0 in Hp, Hf.
  destruct Hs as (S1 & _ & P1 & F1).
  destruct (initProviderCombobox_run w1 (F1 Hf)) as (C2 & S2 & K2).
  destruct (initProviderCombobox w1) as [[] w2|w2] eqn:E2; [ | done ]. simpl in S2, K2.
  rewrite (bind_Done initProviderCombobox _ w1 tt w2 E2). rewrite bind_get.
  apply (comboInv_steady w2); [ apply goToStep_steady | ].
  destruct S2 as (S2 & _ & P2 & F2). repeat split; auto.
  intros Hr. apply K2. by rewrite <- (comboReady_shape w1 w2 S2).
Qed.

Lemma reachable_comboInv page s m b w : reachable page s m b w -> comboInv w.
Proof.
  induction 1 as [Hc|e w Hw IH].
  - by apply init_comboInv.
  - apply (comboInv_steady w); [ apply dispatch_steady | done ].
Qed.

(** *** A commit *)

Lemma withListbox_keepsState f : respects keepsState (withListbox f).
Proof. unfold withListbox. frame; reflexivity. Qed.

Lemma commit_tail_keepsState p :
  respects keepsState
    (_ <- validateField (Some p);; persist true;; closeProviderList;; focusOn p).
Proof.
  pose proof (withListbox_keepsState
                (fun lb => {| lb_options := lb_options lb; lb_hidden := true |})) as Hc.
  unfold focusOn. frame; first [ exact Hc | reflexivity ].
Qed.

(** [selectProvider] writes the text of the option, and nothing else, to
    [state.data]. *)
Lemma selectProvider_commits name w :
  comboReady (doc w) = true -> hasProvider w ->
  data (state (final (selectProvider name w)))
  = <["provider" := VStr name]> (data (state w)).
Proof.
  intros Hr [v Hv]. unfold comboReady in Hr. unfold selectProvider. rewrite bind_get.
  destruct (providerInput (doc w)) as [p|] eqn:Hp; [ | done ].
  set (w1 := setDoc (setNodes (alter (setValue name) p (nodes (doc w))) (doc w)) w).
  rewrite (bind_Done (updNode p (setValue name)) _ w tt w1 eq_refl), bind_get.
  assert (Hn : match nodes (doc w1) !! p with
               | Some e => el_value e
               | None => name
               end = name).
  { unfold w1. simpl. change (list_alter (setValue name) p) with (alter (setValue name) p).
    rewrite list_lookup_alter_eq. by destruct (nodes (doc w) !! p). }
  rewrite Hn.
  set (w2 := setData (<["provider" := VStr name]> (data (state w1))) w1).
  assert (Hs : syncState "provider" name w1 = Done tt w2).
  { unfold syncState, modify, w2.
    change (data (state w1)) with (data (state w)). by rewrite Hv. }
  rewrite (bind_Done (syncState "provider" name) _ w1 tt w2 Hs).
  pose proof (commit_tail_keepsState p w2) as Hk. unfold keepsState in Hk.
  by rewrite Hk.
Qed.

Lemma option_in_catalog w lb name :
  catalogOptions w -> listbox (doc w) = Some lb -> name ∈ lb_options lb ->
  name ∈ PROVIDERS.
Proof. intros Hc Hl Hn. eapply elem_of_sublist; [ exact Hn | apply Hc, Hl ]. Qed.

(** The index [onProviderKeydown] selects on Enter names an option when
    there is one. *)
Lemma enter_index w (options : list string) :
  options <> [] ->
  is_Some (options !! Z.to_nat (if (0 <=? activeIndex w options)%Z
                                then activeIndex w options else 0%Z)).
Proof.
  intros Hne. apply lookup_lt_is_Some. unfold activeIndex.
  destruct options as [|x l]; [ done | ].
  destruct (providerActive w) as [i|]; [ | simpl; lia ].
  destruct (i <? length (x :: l)) eqn:E; [ | simpl; lia ].
  apply Nat.ltb_lt in E. destruct (0 <=? Z.of_nat i)%Z; [ | simpl; lia ].
  by rewrite Nat2Z.id.
Qed.

Lemma handle_enter w lb :
  comboReady (doc w) = true -> listbox (doc w) = Some lb ->
  handle (EProviderKey Enter) w
  = if negb (lb_hidden lb)
    then match lb_options lb !! Z.to_nat (if (0 <=? activeIndex w (lb_options lb))%Z
                                          then activeIndex w (lb_options lb) else 0%Z) with
         | Some name => selectProvider name w
         | None => Done tt w
         end
    else Done tt w.
Proof.
  intros Hr Hl. unfold handle. rewrite bind_get, Hr.
  unfold onProviderKeydown. rewrite bind_get, Hl. cbv zeta.
  destruct (negb (lb_hidden lb)); [ | done ].
  by destruct (lb_options lb !! _).
Qed.

Lemma handle_option w lb i :
  comboReady (doc w) = true -> listbox (doc w) = Some lb ->
  handle (EProviderOption i) w
  = match lb_options lb !! i with
    | Some name => selectProvider name w
    | None => Done tt w
    end.
Proof.
  intros Hr Hl. unfold handle. rewrite bind_get, Hr.
  unfold onProviderOptionClick. rewrite bind_get, Hl.
  by destruct (lb_options lb !! i).
Qed.

(** The listeners of the combobox other than the one for typed text. *)
Definition comboEvent (e : event) : bool :=
  match e with
  | EProviderKey _ | EProviderToggle | EProviderOption _ | EDocumentClick _ => true
  | _ => false
  end.

Lemma onProviderToggle_keepsState : respects keepsState onProviderToggle.
Proof.
  pose proof withListbox_keepsState as Hc.
  unfold onProviderToggle, openProviderList, closeProviderList. frame; apply Hc.
Qed.

Lemma onDocumentClick_keepsState inside : respects keepsState (onDocumentClick inside).
Proof.
  pose proof withListbox_keepsState as Hc.
  unfold onDocumentClick, closeProviderList. frame; apply Hc.
Qed.

Lemma combo_event_data w lb e :
  comboReady (doc w) = true -> listbox (doc w) = Some lb ->
  catalogOptions w -> hasProvider w -> comboEvent e = true ->
  data (state (final (handle e w))) = data (state w)
  \/ exists name, name ∈ PROVIDERS
       /\ data (state (final (handle e w))) = <["provider" := VStr name]> (data (state w)).
Proof.
  intros Hr Hl Hc Hp He.
  assert (Hsel : forall i, match lb_options lb !! i with
                           | Some name => name ∈ PROVIDERS
                           | None => True
                           end).
  { intros i. destruct (lb_options lb !! i) as [name|] eqn:E; [ | done ].
    eapply option_in_catalog; [ done | done | by eapply list_elem_of_lookup_2 ]. }
  destruct e as [ | | | | | | |k| |i|inside| | | | | | ]; try done.
  - assert (Hother : forall k', k' <> Enter ->
              data (state (final (handle (EProviderKey k') w))) = data (state w)).
    { intros k' Hk. unfold handle. rewrite bind_get, Hr.
      pose proof withListbox_keepsState as Hw.
      assert (Hk' : respects keepsState (onProviderKeydown k')).
      { unfold onProviderKeydown, moveProviderActive, openProviderList, closeProviderList.
        destruct k'; try done; frame; first [ apply Hw | reflexivity ]. }
      pose proof (Hk' w) as Hs. unfold keepsState in Hs. by rewrite Hs. }
    destruct k; try (left; apply Hother; discriminate).
    rewrite (handle_enter w lb Hr Hl).
    destruct (negb (lb_hidden lb)); [ | by left ].
    specialize (Hsel (Z.to_nat (if (0 <=? activeIndex w (lb_options lb))%Z
                                then activeIndex w (lb_options lb) else 0%Z))).
    destruct (lb_options lb !! _) as [name|]; [ | by left ].
    right. exists name. split; [ done | by apply selectProvider_commits ].
  - left. unfold handle. rewrite bind_get, Hr.
    pose proof (onProviderToggle_keepsState w) as Hs. unfold keepsState in Hs.
    by rewrite Hs.
  - rewrite (handle_option w lb i Hr Hl). specialize (Hsel i).
    destruct (lb_options lb !! i) as [name|]; [ | by left ].
    right. exists name. split; [ done | by apply selectProvider_commits ].
  - left. unfold handle. rewrite bind_get, Hr.
    pose proof (onDocumentClick_keepsState inside w) as Hs. unfold keepsState in Hs.
    by rewrite Hs.
Qed.



(** Typed text reaches [state.data] as it is, in the catalog or not. *)
Example typed_text_is_stored_as_typed :
  data (state (dispatch (EProviderTyped "My insurer") Sample.started)) !! "provider"
  = Some (VStr "My insurer")
  /\ "My insurer" ∉ PROVIDERS.
Proof.
  split; [ vm_compute; reflexivity | ].
  unfold PROVIDERS. rewrite !elem_of_cons, elem_of_nil.
  intros H. repeat destruct H as [H|H]; try discriminate. done.
Qed.

(** * Further properties of the script *)

(** ** Phone sanitising *)

Lemma filter_fixed {A} (P : A -> bool) (l : list A) :
  forallb P l = true -> List.filter P l = l.
Proof.
  induction l as [|a l IH]; simpl; [ done | ].
  intros H. apply andb_true_iff in H as [Ha Hl]. rewrite Ha. f_equal. by apply IH.
Qed.

Lemma forallb_filter {A} (P : A -> bool) (l : list A) :
  forallb P (List.filter P l) = true.
Proof.
  induction l as [|a l IH]; simpl; [ done | ].
  destruct (P a) eqn:E; simpl; [ by rewrite E | done ].
Qed.

Lemma forallb_weaken {A} (P Q : A -> bool) (l : list A) :
  (forall a, P a = true -> Q a = true) -> forallb P l = true -> forallb Q l = true.
Proof.
  intros H. induction l as [|a l IH]; simpl; [ done | ].
  intros Ha. apply andb_true_iff in Ha as [Ha Hl].
  by rewrite (H a Ha), (IH Hl).
Qed.

Lemma forallb_app_inv {A} (P : A -> bool) (l k : list A) :
  forallb P (l ++ k) = true -> forallb P l = true /\ forallb P k = true.
Proof. rewrite forallb_app. apply andb_true_iff. Qed.

(** What [trimStartL] and [trimEndL] cut off is white space. *)
Lemma trimStartL_split l :
  exists pre, l = pre ++ trimStartL l /\ forallb isWhite pre = true.
Proof.
  induction l as [|c l (pre & E & Hpre)]; simpl.
  - by exists [].
  - destruct (isWhite c) eqn:Hc.
    + exists (c :: pre). simpl. rewrite Hc, Hpre. split; [ by rewrite <- E | done ].
    + by exists [].
Qed.

Lemma trimEndL_split l :
  exists post, l = trimEndL l ++ post /\ forallb isWhite post = true.
Proof.
  unfold trimEndL. destruct (trimStartL_split (rev l)) as (pre & E & Hpre).
  exists (rev pre). split.
  - rewrite <- rev_app_distr, <- E. by rewrite rev_involutive.
  - rewrite forallb_forall in *. intros c Hc. apply Hpre. by apply in_rev.
Qed.

Lemma trim_split s :
  exists pre post,
    chars s = pre ++ chars (trim s) ++ post
    /\ forallb isWhite pre = true /\ forallb isWhite post = true.
Proof.
  unfold trim. rewrite chars_ofChars.
  destruct (trimStartL_split (chars s)) as (pre & E1 & Hpre).
  destruct (trimEndL_split (trimStartL (chars s))) as (post & E2 & Hpost).
  exists pre, post. split; [ | done ]. by rewrite <- E2.
Qed.

Lemma phoneChar_white c : isWhite c = true -> phoneChar c = true.
Proof. unfold phoneChar. intros ->. by rewrite !orb_true_r. Qed.

Lemma phonePattern_body s :
  exists body,
    (body = chars s \/ chars s = "+"%char :: body)
    /\ phonePattern s
       = classRun (fun c => isDigit c || isWhite c || isOneOf "-()" c) 7 20 body.
Proof.
  unfold phonePattern. cbv zeta. destruct (chars s) as [|c t].
  - exists []. split; [ by left | reflexivity ].
  - destruct c as [[] [] [] [] [] [] [] []];
      (eexists; split; [ | reflexivity ]; first [ by left | by right ]).
Qed.

Lemma phonePattern_chars s :
  phonePattern s = true -> forallb phoneChar (chars s) = true.
Proof.
  destruct (phonePattern_body s) as (body & Hb & ->).
  unfold classRun. intros H. apply andb_true_iff in H as [_ H].
  assert (Hbody : forallb phoneChar body = true).
  { revert H. apply forallb_weaken. intros c Hc. unfold phoneChar.
    destruct (isDigit c), (isWhite c), (isOneOf "-()" c); try done.
    all: by rewrite ?orb_true_r. }
  destruct Hb as [<- | ->]; [ done | ]. simpl. by rewrite Hbody.
Qed.

(** X1.  The phone listeners never alter a text the phone validator
    accepts: every character of a valid phone number, and the white space
    around it, is one the rewriting keeps. *)
Theorem stripPhone_keeps_valid_phone (s : string) :
  isValidPhone s = true -> stripPhone s = s.
Proof.
  intros H. unfold isValidPhone in H. apply phonePattern_chars in H.
  destruct (trim_split s) as (pre & post & E & Hpre & Hpost).
  unfold stripPhone. rewrite <- (ofChars_chars s) at 2. f_equal.
  apply filter_fixed. rewrite E, !forallb_app, H.
  rewrite (forallb_weaken _ _ _ phoneChar_white Hpre).
  by rewrite (forallb_weaken _ _ _ phoneChar_white Hpost).
Qed.

Lemma stripPhone_keeps_valid_phone_witness :
  isValidPhone " +1 (555) 010-9999 " = true
  /\ stripPhone " +1 (555) 010-9999 " = " +1 (555) 010-9999 ".
Proof.
  assert (H : isValidPhone " +1 (555) 010-9999 " = true) by (vm_compute; reflexivity).
  exact (conj H (stripPhone_keeps_valid_phone _ H)).
Defined.

(** X2.  What the phone listeners leave holds phone characters only, and
    rewriting it again changes nothing. *)
Theorem stripPhone_idempotent (s : string) :
  forallb phoneChar (chars (stripPhone s)) = true
  /\ stripPhone (stripPhone s) = stripPhone s.
Proof.
  assert (H : forallb phoneChar (chars (stripPhone s)) = true).
  { unfold stripPhone. rewrite chars_ofChars. apply forallb_filter. }
  split; [ done | ].
  unfold stripPhone at 1. by rewrite (filter_fixed _ _ H), ofChars_chars.
Qed.

(** ** Debounce *)

(** Calls that follow one another, each less than [delay] after the one
    before; [prev] is the time of the call before the first. *)
Fixpoint quiet {A} (delay prev : nat) (calls : list (nat * A)) : Prop :=
  match calls with
  | [] => True
  | (now, _) :: rest => prev <= now /\ now < prev + delay /\ quiet delay now rest
  end.

Fixpoint lastCall {A} (c : nat * A) (calls : list (nat * A)) : nat * A :=
  match calls with
  | [] => c
  | c' :: rest => lastCall c' rest
  end.

Lemma debounceRun_quiet {A} delay (calls : list (nat * A)) :
  forall prev a,
    quiet delay prev calls ->
    debounceRun delay calls (Some (prev + delay, a))
    = ([], Some (fst (lastCall (prev, a) calls) + delay, snd (lastCall (prev, a) calls))).
Proof.
  induction calls as [|[now b] rest IH]; intros prev a Hq; simpl; [ done | ].
  destruct Hq as (H1 & H2 & Hq).
  assert (E : prev + delay <=? now = false) by (apply Nat.leb_gt; lia).
  rewrite E. simpl. unfold debounced. by rewrite (IH now b Hq).
Qed.

(** X3.  A burst of calls of a debounced function, each less than [delay]
    after the one before, runs the function not at all while the burst
    lasts, and exactly once afterwards: on the arguments of the last call,
    [delay] after it. *)
Theorem debounce_burst_runs_last_call_once
  {A} (delay t1 : nat) (a1 : A) (rest : list (nat * A)) (T : nat) :
  quiet delay t1 rest ->
  fst (lastCall (t1, a1) rest) + delay <= T ->
  fst (debounceRun delay ((t1, a1) :: rest) None) = []
  /\ (forall T', T' < fst (lastCall (t1, a1) rest) + delay ->
      fst (expire T' (snd (debounceRun delay ((t1, a1) :: rest) None))) = None)
  /\ expire T (snd (debounceRun delay ((t1, a1) :: rest) None))
     = (Some (snd (lastCall (t1, a1) rest)), None).
Proof.
  intros Hq HT. simpl. unfold debounced.
  rewrite (debounceRun_quiet delay rest t1 a1 Hq). simpl.
  split; [ done | ]. split.
  - intros T' HT'.
    assert (E : fst (lastCall (t1, a1) rest) + delay <=? T' = false)
      by (apply Nat.leb_gt; lia).
    by rewrite E.
  - assert (E : fst (lastCall (t1, a1) rest) + delay <=? T = true)
      by (apply Nat.leb_le; lia).
    by rewrite E.
Qed.

Lemma debounce_burst_witness :
  quiet 60 0 [(20, "ab"); (50, "abc")]
  /\ expire 110 (snd (debounceRun 60 [(0, "a"); (20, "ab"); (50, "abc")] None))
     = (Some "abc", None).
Proof.
  assert (Hq : quiet 60 0 [(20, "ab"); (50, "abc")]) by (simpl; lia).
  assert (HT : fst (lastCall (0, "a") [(20, "ab"); (50, "abc")]) + 60 <= 110)
    by (simpl; lia).
  exact (conj Hq (proj2 (proj2 (debounce_burst_runs_last_call_once
                                  60 0 "a" [(20, "ab"); (50, "abc")] 110 Hq HT)))).
Defined.

Lemma debounceRun_sublist {A} delay (calls : list (nat * A)) :
  forall t,
    fst (debounceRun delay calls t) ++ option_list (snd <$> snd (debounceRun delay calls t))
    `sublist_of` option_list (snd <$> t) ++ (snd <$> calls).
Proof.
  induction calls as [|[now b] rest IH]; intros t; simpl.
  - by rewrite app_nil_r.
  - specialize (IH (debounced delay now b (snd (expire now t)))).
    unfold debounced in *. simpl in IH.
    destruct t as [[due a]|]; simpl.
    + destruct (due <=? now); simpl.
      * by apply sublist_skip.
      * by apply sublist_cons.
    + done.
Qed.

(** X4.  Whatever the times of the calls, a debounced function runs only
    on arguments it was called with, in the order of the calls and on no
    call's arguments twice: the arguments it ran on, followed by those of
    the timer still pending, are a subsequence of the arguments of the
    calls. *)
Theorem debounce_runs_subsequence_of_calls
  {A} (delay : nat) (calls : list (nat * A)) :
  fst (debounceRun delay calls None)
    ++ option_list (snd <$> snd (debounceRun delay calls None))
  `sublist_of` snd <$> calls.
Proof. apply (debounceRun_sublist delay calls None). Qed.

(** ** Validation *)

(** *** What a run returns *)

(** Every value [m] returns satisfies [P]. *)
Definition yields {A : Type} (P : A -> Prop) (m : M A) : Prop :=
  forall w a w', m w = Done a w' -> P a.

Lemma yields_ret {A} (P : A -> Prop) a : P a -> yields P (ret a).
Proof. intros H w a' w' [= <- _]. exact H. Qed.

Lemma yields_bind {A B} (Q : A -> Prop) (P : B -> Prop) (m : M A) (k : A -> M B) :
  yields Q m -> (forall a, Q a -> yields P (k a)) -> yields P (bind m k).
Proof.
  intros Hm Hk w b w' E. unfold bind in E.
  destruct (m w) as [a w1|w1] eqn:E1; [ | done ].
  exact (Hk a (Hm w a w1 E1) w1 b w' E).
Qed.

Lemma yields_any {A} (m : M A) : yields (fun _ => True) m.
Proof. by intros w a w' _. Qed.

Lemma yields_get_bind {A} (P : A -> Prop) (k : World -> M A) :
  (forall w, yields P (k w)) -> yields P (bind get k).
Proof. intros H w a w' E. rewrite bind_get in E. exact (H w w a w' E). Qed.

(** The pair is one [validateStep] can return: the step is valid and no
    element is named, or it is not and one is. *)
Definition coherent (chk : StepCheck) : Prop :=
  (valid chk = true /\ firstInvalid chk = None)
  \/ (valid chk = false /\ is_Some (firstInvalid chk)).

Lemma validateField_null : yields (fun ok => ok = true) (validateField None).
Proof. intros w a w' [= <- _]. reflexivity. Qed.

Lemma checkOne_coherent el acc :
  coherent acc -> yields coherent (checkOne el acc).
Proof.
  intros Hacc. unfold checkOne.
  apply (yields_bind (fun ok => el = None -> ok = true)).
  - destruct el as [n|]; [ by intros w a w' _ | ].
    intros w a w' E _. exact (validateField_null w a w' E).
  - intros ok Hok. apply yields_ret. unfold coherent in *. simpl.
    destruct Hacc as [[-> ->]|[-> Hf]]; simpl.
    + destruct ok; simpl; [ by left | right ].
      split; [ done | ]. destruct el; [ done | ]. by specialize (Hok eq_refl).
    + by right.
Qed.

Lemma checkRequired_coherent ids : forall acc,
  coherent acc -> yields coherent (checkRequired ids acc).
Proof.
  induction ids as [|id rest IH]; intros acc Hacc; simpl.
  - by apply yields_ret.
  - apply yields_get_bind. intros w.
    apply (yields_bind coherent); [ by apply checkOne_coherent | ].
    intros acc' Hacc'. by apply IH.
Qed.

Lemma checkOptional_coherent req els : forall acc,
  coherent acc -> yields coherent (checkOptional req els acc).
Proof.
  induction els as [|n rest IH]; intros acc Hacc; simpl.
  - by apply yields_ret.
  - apply yields_get_bind. intros w.
    apply (yields_bind coherent); [ | intros acc' Hacc'; by apply IH ].
    destruct (nodes (doc w) !! n) as [e|]; [ | by apply yields_ret ].
    repeat case_match;
      first [ by apply yields_ret | by apply checkOne_coherent ].
Qed.

Lemma checkInsurerPhone_coherent s acc :
  coherent acc -> yields coherent (checkInsurerPhone s acc).
Proof.
  intros Hacc. unfold checkInsurerPhone.
  destruct (JsNum.eqb s (JsNum.ofZ 2)); [ | by apply yields_ret ].
  apply yields_get_bind. intros w.
  destruct (getElementById "insurerPhone" (doc w)) as [p|]; [ | by apply yields_ret ].
  destruct (nodes (doc w) !! p) as [pe|]; [ | by apply yields_ret ].
  destruct (truthy (el_value pe)); [ | by apply yields_ret ].
  apply (yields_bind (fun _ => True)); [ apply yields_any | ].
  intros [] _; apply yields_ret; [ done | ].
  right. simpl. split; [ done | ]. by destruct (firstInvalid acc).
Qed.

(** X5.  Whenever [validateStep] returns, the pair it returns names a
    first invalid element exactly when it reports the step invalid.
    [handleNext], which only announces the failure when an element is
    named, therefore never refuses silently. *)
Theorem validateStep_names_element_iff_invalid
  (s : JsNum.jsnum) (w : World) (chk : StepCheck) :
  resultOf (validateStep s w) = Some chk ->
  (valid chk = false <-> is_Some (firstInvalid chk)).
Proof.
  intros Hres.
  assert (Hy : yields coherent (validateStep s)).
  { unfold validateStep. apply yields_get_bind. intros w0. cbv zeta.
    apply (yields_bind coherent); [ apply checkRequired_coherent; by left | ].
    intros acc1 H1.
    apply (yields_bind coherent); [ by apply checkInsurerPhone_coherent | ].
    intros acc2 H2.
    apply (yields_bind (fun _ => True)); [ apply yields_any | ].
    intros els _. by apply checkOptional_coherent. }
  destruct (validateStep s w) as [chk' w'|w'] eqn:E; [ | done ].
  simpl in Hres. injection Hres as ->.
  destruct (Hy w chk w' E) as [[Hv Hf]|[Hv Hf]]; rewrite Hv.
  - split; [ done | ]. rewrite Hf. by intros [? ?].
  - done.
Qed.

Lemma validateStep_names_element_witness :
  resultOf (validateStep (JsNum.ofZ 1) Sample.fresh)
  = Some {| valid := false; firstInvalid := Some 0 |}
  /\ (false = false <-> is_Some (Some 0)).
Proof.
  assert (H : resultOf (validateStep (JsNum.ofZ 1) Sample.fresh)
              = Some {| valid := false; firstInvalid := Some 0 |})
    by (vm_compute; reflexivity).
  exact (conj H (validateStep_names_element_iff_invalid _ _ _ H)).
Defined.

(** *** What a run leaves of the marks *)

(** No control loses its [valid]/[invalid] class, and nothing but the
    classes changes. *)
Definition onlyMarks (w w' : World) : Prop :=
  (exists mk, w' = withMarks mk w)
  /\ forall c, is_Some (marks (doc w) !! c) -> is_Some (marks (doc w') !! c).

#[global] Instance onlyMarks_preorder : PreOrder onlyMarks.
Proof.
  split.
  - intros w. split; [ | done ]. exists (marks (doc w)). by rewrite withMarks_same.
  - intros w1 w2 w3 [[m1 ->] H1] [[m2 ->] H2]. split.
    + exists m2. apply withMarks_twice.
    + intros c Hc. by apply H2, H1.
Qed.

Lemma onlyMarks_setMark c v w :
  onlyMarks w (setDoc (setMarks (<[c := v]> (marks (doc w))) (doc w)) w).
Proof.
  split; [ by eexists | ].
  intros c' Hc'. simpl. rewrite lookup_insert_is_Some.
  destruct (decide (c = c')); auto.
Qed.

Lemma validateFieldWith_onlyMarks self el :
  (forall x, respects onlyMarks (self x)) ->
  respects onlyMarks (validateFieldWith self el).
Proof.
  intros Hself. unfold validateFieldWith, setValid, setInvalid.
  frame; first [ apply onlyMarks_setMark | apply Hself ].
Qed.

Lemma validateField_onlyMarks el : respects onlyMarks (validateField el).
Proof.
  apply validateFieldWith_onlyMarks. intros x.
  apply validateFieldWith_onlyMarks. intros y. apply respects_ret. typeclasses eauto.
Qed.

#[global] Hint Resolve validateField_onlyMarks : frame.

Lemma checkOne_onlyMarks el acc : respects onlyMarks (checkOne el acc).
Proof. unfold checkOne. frame. Qed.

#[global] Hint Resolve checkOne_onlyMarks : frame.

Lemma checkRequired_onlyMarks ids : forall acc, respects onlyMarks (checkRequired ids acc).
Proof. induction ids as [|id rest IH]; intros acc; simpl; frame. Qed.

Lemma checkOptional_onlyMarks req els : forall acc,
  respects onlyMarks (checkOptional req els acc).
Proof. induction els as [|n rest IH]; intros acc; simpl; frame. Qed.

Lemma checkInsurerPhone_onlyMarks s acc : respects onlyMarks (checkInsurerPhone s acc).
Proof. unfold checkInsurerPhone. frame. Qed.

#[global] Hint Resolve checkRequired_onlyMarks checkOptional_onlyMarks
  checkInsurerPhone_onlyMarks : frame.

(** X6.  Validating a step, whether it ends or throws, changes nothing
    but the [valid]/[invalid] classes of control containers: the state,
    the stored record, the values of the fields, the focus and the live
    regions are as before.  It only ever sets a class: a control that
    carried one still carries one. *)
Theorem validateStep_only_sets_classes (s : JsNum.jsnum) (w : World) :
  exists mk,
    final (validateStep s w) = withMarks mk w
    /\ forall c, is_Some (marks (doc w) !! c) -> is_Some (mk !! c).
Proof.
  assert (H : respects onlyMarks (validateStep s)) by (unfold validateStep; frame).
  destruct (H w) as [[mk E] Hdom]. exists mk. split; [ done | ].
  intros c Hc. specialize (Hdom c Hc). by rewrite E in Hdom.
Qed.

Lemma validateStep_only_sets_classes_witness :
  exists mk,
    final (validateStep (JsNum.ofZ 1) Sample.fresh) = withMarks mk Sample.fresh
    /\ is_Some (mk !! "fc-firstName").
Proof.
  destruct (validateStep_only_sets_classes (JsNum.ofZ 1) Sample.fresh) as (mk & E & _).
  exists mk. split; [ exact E | ].
  assert (H : is_Some (marks (doc (final (validateStep (JsNum.ofZ 1) Sample.fresh)))
                         !! "fc-firstName")) by (eexists; vm_compute; reflexivity).
  by rewrite E in H.
Defined.

(** *** The verdict on a field is written on its control *)

Lemma verdict_marked (m : M bool) (c : string) w b w' :
  (valid <- m;;
   (if valid then setValid c else setInvalid c);;
   ret valid) w = Done b w' ->
  marks (doc w') !! c = Some (if b then MarkValid else MarkInvalid).
Proof.
  unfold bind. destruct (m w) as [v w1|w1]; [ | done ].
  destruct v; simpl; intros [= <- <-]; simpl; apply lookup_insert_eq.
Qed.

(** X7.  When [validateField] returns on an element, the container of the
    element carries the class of the verdict: [valid] if it returned
    [true], [invalid] if it returned [false]. *)
Theorem validateField_marks_its_control
  (w w' : World) (n : nat) (e : Element) (b : bool) :
  nodes (doc w) !! n = Some e ->
  validateField (Some n) w = Done b w' ->
  marks (doc w') !! el_control e = Some (if b then MarkValid else MarkInvalid).
Proof.
  intros He. unfold validateField.
  generalize (validateFieldWith (fun _ : option nat => ret true)). intros self.
  unfold validateFieldWith. rewrite bind_get, He. cbv zeta.
  apply verdict_marked.
Qed.

Lemma validateField_marks_its_control_witness :
  nodes (doc Sample.fresh) !! 0 = Some (Sample.field "firstName" "text" Input true 0)
  /\ resultOf (validateField (Some 0) Sample.fresh) = Some false
  /\ marks (doc (final (validateField (Some 0) Sample.fresh)))
       !! el_control (Sample.field "firstName" "text" Input true 0)
     = Some MarkInvalid.
Proof.
  assert (H1 : nodes (doc Sample.fresh) !! 0
               = Some (Sample.field "firstName" "text" Input true 0))
    by (vm_compute; reflexivity).
  assert (H2 : resultOf (validateField (Some 0) Sample.fresh) = Some false)
    by (vm_compute; reflexivity).
  split; [ exact H1 | ]. split; [ exact H2 | ].
  destruct (validateField (Some 0) Sample.fresh) as [b w'|w'] eqn:E; [ | discriminate H2 ].
  injection H2 as ->.
  exact (validateField_marks_its_control Sample.fresh w' 0 _ false H1 E).
Defined.

(** *** A step with nothing to check *)

Lemma selectFrom_elem P (l : list Element) : forall i n,
  n ∈ selectFrom i P l -> exists e, l !! (n - i) = Some e /\ i <= n /\ P e = true.
Proof.
  induction l as [|a l IH]; intros i n Hn; simpl in Hn; [ by inversion Hn | ].
  assert (Hrest : n ∈ selectFrom (S i) P l ->
                  exists e, (a :: l) !! (n - i) = Some e /\ i <= n /\ P e = true).
  { intros H. destruct (IH _ _ H) as (e & He & Hle & HP). exists e.
    replace (n - i) with (S (n - S i)) by lia. simpl. repeat split; [ done | lia | done ]. }
  destruct (P a) eqn:Ha; [ | by apply Hrest ].
  apply elem_of_cons in Hn as [->|Hn]; [ | by apply Hrest ].
  exists a. rewrite Nat.sub_diag. by repeat split.
Qed.

(** The element is in the subtree [$$] searches from [root]. *)
Definition under (root : ref) (e : Element) : bool :=
  match root with
  | Obj k => inStep k e
  | _ => true
  end.

(** The second loop of [validateStep] passes over the element. *)
Definition passedOver (e : Element) : Prop :=
  trim (el_value e) = "" /\ el_type e <> "date".

Lemma checkOptional_passes_over w els : forall acc,
  (forall n, n ∈ els -> exists e, nodes (doc w) !! n = Some e /\ passedOver e) ->
  checkOptional [] els acc w = Done acc w.
Proof.
  induction els as [|n rest IH]; intros acc H; simpl; [ done | ].
  rewrite bind_get. destruct (H n) as (e & He & Hblank & Hdate); [ by left | ].
  rewrite He, Hblank, (proj2 (String.eqb_neq _ _) Hdate), andb_false_r.
  cbv beta iota delta [orb]. unfold bind at 1. cbv beta iota delta [ret].
  apply IH. intros m Hm. apply H. by right.
Qed.

(** X8.  On the steps without required fields, 3 and 4, whose container
    exists: when every field of the step is blank and none is a date
    field, [validateStep] reports the step valid, names no element, and
    leaves the page exactly as it was, classes included. *)
Theorem validateStep_blank_optional_step (s : JsNum.jsnum) (w : World) :
  s = JsNum.ofZ 3 \/ s = JsNum.ofZ 4 ->
  stepsAt (doc w) (JsNum.add s (-1)) <> Null ->
  Forall (fun e => isField e = true ->
                   under (stepsAt (doc w) (JsNum.add s (-1))) e = true ->
                   passedOver e) (nodes (doc w)) ->
  validateStep s w = Done {| valid := true; firstInvalid := None |} w.
Proof.
  intros Hs Hroot Hall. unfold validateStep. rewrite bind_get. cbv zeta.
  assert (Hreq : requiredByStep s = []) by (by destruct Hs as [-> | ->]).
  assert (H2 : JsNum.eqb s (JsNum.ofZ 2) = false) by (by destruct Hs as [-> | ->]).
  rewrite Hreq. simpl checkRequired. unfold checkInsurerPhone. rewrite H2.
  unfold bind at 1 2. simpl.
  assert (Hsel : forall P n,
             n ∈ selectFrom 0 (fun e => P e && isField e) (nodes (doc w)) ->
             (forall e, P e = true ->
                        under (stepsAt (doc w) (JsNum.add s (-1))) e = true) ->
             exists e, nodes (doc w) !! n = Some e /\ passedOver e).
  { intros P n Hn HP. apply selectFrom_elem in Hn as (e & He & _ & Hsel).
    rewrite Nat.sub_0_r in He. apply andb_true_iff in Hsel as [H1 Hf].
    exists e. split; [ done | ].
    rewrite Forall_forall in Hall. apply Hall; [ by eapply list_elem_of_lookup_2 | done | ].
    by apply HP. }
  unfold queryAll, bind.
  destruct (stepsAt (doc w) (JsNum.add s (-1))) as [| |k] eqn:Hr; [ | done | ].
  - apply checkOptional_passes_over. intros n Hn.
    apply (Hsel (fun _ => true)); [ | done ].
    clear -Hn. revert Hn. generalize 0.
    induction (nodes (doc w)) as [|a l IH]; intros i; simpl; [ done | ].
    destruct (isField a); simpl; [ | apply IH ].
    rewrite !elem_of_cons. intros [->|H]; [ by left | right; by apply IH ].
  - apply checkOptional_passes_over. intros n Hn.
    by apply (Hsel (inStep k)).
Qed.

Lemma validateStep_blank_optional_step_witness :
  stepsAt (doc Sample.fresh) (JsNum.add (JsNum.ofZ 3) (-1)) = Obj 2
  /\ validateStep (JsNum.ofZ 3) Sample.fresh
     = Done {| valid := true; firstInvalid := None |} Sample.fresh.
Proof.
  assert (H0 : stepsAt (doc Sample.fresh) (JsNum.add (JsNum.ofZ 3) (-1)) = Obj 2)
    by (vm_compute; reflexivity).
  assert (H1 : stepsAt (doc Sample.fresh) (JsNum.add (JsNum.ofZ 3) (-1)) <> Null)
    by (rewrite H0; discriminate).
  assert (H2 : Forall (fun e => isField e = true ->
                        under (stepsAt (doc Sample.fresh)
                                 (JsNum.add (JsNum.ofZ 3) (-1))) e = true ->
                        passedOver e) (nodes (doc Sample.fresh))).
  { rewrite H0.
    let l := eval vm_compute in (nodes (doc Sample.fresh)) in
    assert (E : nodes (doc Sample.fresh) = l) by (vm_compute; reflexivity).
    rewrite E.
    repeat (apply Forall_cons; split;
            [ intros Hf Hu; vm_compute in Hf, Hu;
              first [ discriminate
                    | split; [ vm_compute; reflexivity | vm_compute; discriminate ] ]
            | ]).
    apply Forall_nil_2. }
  exact (conj H0 (validateStep_blank_optional_step (JsNum.ofZ 3) Sample.fresh
                    (or_introl eq_refl) H1 H2)).
Defined.

(** ** Navigation *)

(** *** Runs that keep a part of the world *)

Definition keeps {X : Type} (part : World -> X) (w w' : World) : Prop :=
  part w' = part w.

#[global] Instance keeps_preorder {X} (part : World -> X) : PreOrder (keeps part).
Proof.
  split.
  - intros w. reflexivity.
  - intros w1 w2 w3 H1 H2. unfold keeps in *. congruence.
Qed.

(** Closes the goals [keeps part w (f w)] left by [frame] when [f] writes
    to other parts only. *)
Ltac keeps_prim :=
  unfold keeps, saveState, clearState; simpl; repeat case_match; reflexivity.

Lemma validateField_keeps {X} (part : World -> X) el :
  (forall mk w, part (withMarks mk w) = part w) ->
  respects (keeps part) (validateField el).
Proof.
  intros H w. destruct (validateField_run el w) as [mk E]. rewrite E.
  destruct (resultOf (validateField el w)); apply H.
Qed.

Lemma validateStep_keeps {X} (part : World -> X) s :
  (forall mk w, part (withMarks mk w) = part w) ->
  respects (keeps part) (validateStep s).
Proof.
  intros H w. destruct (validateStep_run s w) as [mk E]. rewrite E.
  destruct (resultOf (validateStep s w)); apply H.
Qed.

(** *** Which step containers are shown *)

Definition stepElsOf (w : World) : list (option StepEl) := stepEls (doc w).

(** The [hidden] flags after the first two statements of [goToStep]. *)
Definition presentedSteps (w : World) (s : JsNum.jsnum) : list (option StepEl) :=
  let flag (h : bool) (o : option StepEl) :=
    match o with
    | Some se => Some {| se_hidden := h; se_name := se_name se |}
    | None => None
    end in
  let currentEl := stepsAt (doc w) (JsNum.add (step (state w)) (-1)) in
  let nextEl := stepsAt (doc w) (JsNum.add s (-1)) in
  let l1 := match currentEl with
            | Obj k => if isObj k nextEl then stepEls (doc w)
                       else alter (flag true) k (stepEls (doc w))
            | _ => stepEls (doc w)
            end in
  match nextEl with
  | Obj k => alter (flag false) k l1
  | _ => l1
  end.

Lemma presentStep_stepEls s f a w :
  stepEls (doc (final (presentStep s f a w))) = presentedSteps w s.
Proof.
  unfold presentStep. rewrite bind_get. cbv zeta.
  set (currentEl := stepsAt (doc w) (JsNum.add (step (state w)) (-1))).
  set (nextEl := stepsAt (doc w) (JsNum.add s (-1))).
  match goal with
  | |- context [bind ?m1 (fun _ => bind ?m2 (fun _ => ?rest))] =>
      assert (Hrest : respects (keeps stepElsOf) rest)
  end.
  { unfold focusOn, announcePolite, updNode. frame; keeps_prim. }
  unfold presentedSteps. fold currentEl nextEl. cbv zeta.
  unfold setHidden, modifyDoc, modify.
  destruct currentEl as [| |k]; [ | | destruct (isObj k nextEl) ];
    destruct nextEl as [| |j];
    match goal with
    | |- context [final (bind ?m1 (fun _ => bind ?m2 ?k') w)] =>
        match eval hnf in (m1 w) with
        | Done _ ?w1 =>
            rewrite (bind_Done m1 _ w tt w1 eq_refl);
            match eval hnf in (m2 w1) with
            | Done _ ?w2 =>
                rewrite (bind_Done m2 _ w1 tt w2 eq_refl);
                pose proof (Hrest w2) as Hk
            end
        end
    end; unfold keeps, stepElsOf in Hk; rewrite Hk; reflexivity.
Qed.

Lemma stepsAt_Obj d a k :
  stepsAt d a = Obj k ->
  JsNum.index a = Some k /\ exists se, stepEls d !! k = Some (Some se).
Proof.
  unfold stepsAt. destruct (JsNum.index a) as [j|]; [ | done ].
  destruct (stepEls d !! j) as [[se|]|] eqn:E; try done.
  intros [= <-]. split; [ done | by exists se ].
Qed.

Lemma stepsAt_present d a k se :
  JsNum.index a = Some k -> stepEls d !! k = Some (Some se) -> stepsAt d a = Obj k.
Proof. intros Hi He. unfold stepsAt. by rewrite Hi, He. Qed.

Lemma Qred_inject_Z z : Qred (inject_Z z) = inject_Z z.
Proof.
  unfold Qred, inject_Z.
  pose proof (Z.ggcd_gcd z 1) as Hg.
  pose proof (Z.ggcd_correct_divisors z 1) as Hd.
  destruct (Z.ggcd z 1) as [g [a b]]. simpl in Hg, Hd.
  rewrite Z.gcd_1_r in Hg. subst g. destruct Hd as [Ha Hb].
  replace a with z by lia. replace b with 1%Z by lia. reflexivity.
Qed.

(** A number whose predecessor is an array index is a whole number, and
    prints as one. *)
Lemma index_pred_backButton s k :
  JsNum.index (JsNum.add s (-1)) = Some k -> backButtonId s <> None.
Proof.
  destruct s as [q| | |]; try done. simpl.
  destruct (bool_decide (Qden (Qred (q + inject_Z (-1))) = 1%positive)) eqn:Hd;
    [ | done ].
  destruct (0 <=? Qnum (Qred (q + inject_Z (-1))))%Z eqn:Hn; [ | done ].
  intros _. simpl.
  apply bool_decide_eq_true_1 in Hd. apply Z.leb_le in Hn.
  assert (Hq : (q == inject_Z (Qnum (Qred (q + inject_Z (-1))) + 1))%Q).
  { assert (E : (q + inject_Z (-1) == Qred (q + inject_Z (-1)))%Q)
      by (symmetry; apply Qred_correct).
    destruct (Qred (q + inject_Z (-1))) as [n d]. simpl in Hd, Hn. subst d.
    simpl. rewrite inject_Z_plus.
    change (n # 1)%Q with (inject_Z n) in E. rewrite <- E. ring. }
  apply Qred_complete in Hq.
  assert (Hr : Qred (inject_Z (Qnum (Qred (q + inject_Z (-1))) + 1))
               = inject_Z (Qnum (Qred (q + inject_Z (-1))) + 1)).
  { apply Qred_inject_Z. }
  rewrite Hq, Hr.
  set (z := (Qnum (Qred (q + inject_Z (-1))) + 1)%Z).
  change (Qden (inject_Z z)) with 1%positive. change (Qnum (inject_Z z)) with z.
  rewrite bool_decide_eq_true_2 by done.
  assert (0 <=? z = true)%Z as -> by (apply Z.leb_le; unfold z; lia).
  done.
Qed.

(** No container other than the one of the current step is shown. *)
Definition visibleOnly (w : World) : Prop :=
  forall k se,
    stepEls (doc w) !! k = Some (Some se) -> se_hidden se = false ->
    JsNum.index (JsNum.add (step (state w)) (-1)) = Some k.

Lemma presented_visible w s k se :
  visibleOnly w ->
  presentedSteps w s !! k = Some (Some se) -> se_hidden se = false ->
  stepsAt (doc w) (JsNum.add s (-1)) = Obj k.
Proof.
  intros Hv Hk Hshown. unfold presentedSteps in Hk. cbv zeta in Hk.
  set (flag := fun (h : bool) (o : option StepEl) =>
                 match o with
                 | Some se0 => Some {| se_hidden := h; se_name := se_name se0 |}
                 | None => None
                 end) in *.
  (* a container shown before the call is the current one *)
  assert (Hcur : forall se0, stepEls (doc w) !! k = Some (Some se0) ->
                             se_hidden se0 = false ->
                             stepsAt (doc w) (JsNum.add (step (state w)) (-1)) = Obj k).
  { intros se0 H0 H1. eapply stepsAt_present; [ by eapply Hv | done ]. }
  (* a container shown in [l1] is both the current and the next one *)
  assert (Hl1 : forall se0,
             match stepsAt (doc w) (JsNum.add (step (state w)) (-1)) with
             | Obj kc => if isObj kc (stepsAt (doc w) (JsNum.add s (-1)))
                         then stepEls (doc w)
                         else alter (flag true) kc (stepEls (doc w))
             | _ => stepEls (doc w)
             end !! k = Some (Some se0) ->
             se_hidden se0 = false ->
             stepsAt (doc w) (JsNum.add s (-1)) = Obj k).
  { intros se0 H0 H1.
    destruct (stepsAt (doc w) (JsNum.add (step (state w)) (-1))) as [| |kc] eqn:Ec.
    - pose proof (Hcur se0 H0 H1) as Hx. congruence.
    - pose proof (Hcur se0 H0 H1) as Hx. congruence.
    - destruct (isObj kc (stepsAt (doc w) (JsNum.add s (-1)))) eqn:Eo.
      + pose proof (Hcur se0 H0 H1) as Hx.
        assert (kc = k) as -> by congruence.
        unfold isObj in Eo.
        destruct (stepsAt (doc w) (JsNum.add s (-1))) as [| |j]; try done.
        apply Nat.eqb_eq in Eo. by subst j.
      + destruct (decide (kc = k)) as [->|Hne].
        * rewrite list_lookup_alter_eq in H0.
          destruct (stepEls (doc w) !! k) as [[se1|]|]; simpl in H0; try done.
          injection H0 as <-. done.
        * rewrite list_lookup_alter_ne in H0 by done.
          pose proof (Hcur se0 H0 H1) as Hx. congruence. }
  destruct (stepsAt (doc w) (JsNum.add s (-1))) as [| |j] eqn:En.
  - by apply (Hl1 se).
  - by apply (Hl1 se).
  - destruct (decide (j = k)) as [->|Hne]; [ done | ].
    rewrite list_lookup_alter_ne in Hk by done. by apply (Hl1 se).
Qed.

(** X9.  [goToStep] keeps the page on one step: if no container other
    than the current step's was shown before the call, none other than
    the current step's is shown after it, whether the call ends or throws
    and whatever number it was given. *)
Theorem goToStep_shows_current_step_only
  (n : JsNum.jsnum) (f a : bool) (w : World) :
  visibleOnly w -> visibleOnly (final (goToStep n f a w)).
Proof.
  intros Hv k se Hk Hshown.
  pose proof (presentStep_stepEls (clampStep n) f a w) as Hp.
  assert (Hnext : forall se0, presentedSteps w (clampStep n) !! k = Some (Some se0) ->
                              se_hidden se0 = false ->
                              stepsAt (doc w) (JsNum.add (clampStep n) (-1)) = Obj k)
    by (intros se0; by apply presented_visible).
  destruct (goToStep_run n f a w) as [d [[E1 E2]|[E1 E2]]].
  - rewrite E1 in Hp. rewrite E2 in Hk |- *.
    unfold final in Hp, Hk |- *.
    rewrite saveState_doc in Hk. rewrite saveState_state.
    change (stepEls d = presentedSteps w (clampStep n)) in Hp.
    change (stepEls d !! k = Some (Some se)) in Hk. rewrite Hp in Hk.
    change (JsNum.index (JsNum.add (clampStep n) (-1)) = Some k).
    by destruct (stepsAt_Obj _ _ _ (Hnext se Hk Hshown)).
  - rewrite E1 in Hp. rewrite E2 in Hk. unfold final in Hp, Hk.
    change (stepEls d = presentedSteps w (clampStep n)) in Hp.
    change (stepEls d !! k = Some (Some se)) in Hk. rewrite Hp in Hk.
    pose proof (Hnext se Hk Hshown) as Ho.
    assert (Hc : completed (presentStep (clampStep n) f a w)).
    { apply presentStep_completes.
      - intros _. by rewrite Ho.
      - destruct (stepsAt_Obj _ _ _ Ho) as [Hi _]. by eapply index_pred_backButton. }
    by rewrite E1 in Hc.
Qed.

Lemma goToStep_shows_current_step_only_witness :
  visibleOnly Sample.fresh
  /\ visibleOnly (final (goToStep (JsNum.ofZ 3) true true Sample.fresh)).
Proof.
  assert (H : visibleOnly Sample.fresh).
  { intros k se Hk Hs.
    assert (E : stepEls (doc Sample.fresh)
                = [ Some {| se_hidden := false; se_name := Some "Demographics" |};
                    Some {| se_hidden := true; se_name := Some "Insurance" |};
                    Some {| se_hidden := true; se_name := Some "Medical history" |};
                    Some {| se_hidden := true; se_name := Some "Review" |} ])
      by (vm_compute; reflexivity).
    rewrite E in Hk.
    destruct k as [|[|[|[|k]]]]; simpl in Hk; try discriminate Hk;
      injection Hk as <-; try discriminate Hs.
    vm_compute. reflexivity. }
  exact (conj H (goToStep_shows_current_step_only (JsNum.ofZ 3) true true Sample.fresh H)).
Defined.

(** *** Start-up *)

Lemma clampStep_idempotent x : clampStep (clampStep x) = clampStep x.
Proof.
  destruct x as [q| | |]; try reflexivity.
  unfold clampStep, totalSteps, JsNum.ofZ, JsNum.max.
  destruct (JsNum.leb (JsNum.Fin q) (JsNum.Fin (inject_Z 1))) eqn:E1; [ reflexivity | ].
  unfold JsNum.min.
  destruct (JsNum.leb (JsNum.Fin q) (JsNum.Fin (inject_Z 4))) eqn:E2; [ | reflexivity ].
  by rewrite E1, E2.
Qed.

Lemma restored_step_clamped page s m b :
  clampStep (step (state (final (restoreFromStorage (boot page s m b)))))
  = step (state (final (restoreFromStorage (boot page s m b)))).
Proof.
  destruct (loadState (boot page s m b)) as [saved|] eqn:E.
  - destruct (restoreFromStorage_some _ saved E) as [d ->]. simpl.
    apply clampStep_idempotent.
  - rewrite (restoreFromStorage_none _ E). reflexivity.
Qed.

Lemma restoreFromStorage_keeps_steps : respects (keeps stepElsOf) restoreFromStorage.
Proof.
  unfold restoreFromStorage, refillControls, renderAllergyChips. frame; keeps_prim.
Qed.

Lemma initProviderCombobox_keeps {X} (part : World -> X) :
  (forall l w, part (setDoc (setListbox l (doc w)) w) = part w) ->
  (forall a w, part (setProviderActive a w) = part w) ->
  respects (keeps part) initProviderCombobox.
Proof.
  intros H1 H2.
  unfold initProviderCombobox, renderProviderList, withListbox. frame.
  - apply H1.
  - apply H2.
Qed.

(** Going to the step the page is on hides nothing. *)
Lemma presentedSteps_same w k se :
  stepEls (doc w) !! k = Some (Some se) -> se_hidden se = false ->
  exists se', presentedSteps w (step (state w)) !! k = Some (Some se')
              /\ se_hidden se' = false.
Proof.
  intros Hk Hs. unfold presentedSteps. cbv zeta.
  destruct (stepsAt (doc w) (JsNum.add (step (state w)) (-1))) as [| |j] eqn:E.
  - by exists se.
  - by exists se.
  - unfold isObj. rewrite Nat.eqb_refl.
    destruct (decide (j = k)) as [->|Hne].
    + rewrite list_lookup_alter_eq, Hk. simpl. by eexists.
    + rewrite list_lookup_alter_ne by done. by exists se.
Qed.



(** *** The edit links *)

Definition marksOf (w : World) : gmap string mark := marks (doc w).
Definition valuesOf (w : World) : list string := el_value <$> nodes (doc w).

Lemma alter_setDisabled_values b n (l : list Element) :
  el_value <$> alter (setDisabled b) n l = el_value <$> l.
Proof.
  revert n. induction l as [|e l IH]; intros [|n]; simpl; try done.
  f_equal. apply IH.
Qed.

Lemma presentStep_keeps_marks s f a : respects (keeps marksOf) (presentStep s f a).
Proof.
  unfold presentStep, setHidden, focusOn, announcePolite, updNode. frame; keeps_prim.
Qed.

Lemma presentStep_keeps_values s f a : respects (keeps valuesOf) (presentStep s f a).
Proof.
  unfold presentStep, setHidden, focusOn, announcePolite, updNode.
  frame; try keeps_prim.
  all: unfold keeps, valuesOf; simpl; apply alter_setDisabled_values.
Qed.

Lemma clampStep_ofZ z : clampStep (JsNum.ofZ z) = JsNum.ofZ (Z.max 1 (Z.min z 4)).
Proof.
  unfold clampStep, totalSteps, JsNum.ofZ, JsNum.max.
  destruct (JsNum.leb (JsNum.Fin (inject_Z z)) (JsNum.Fin (inject_Z 1))) eqn:E1.
  - apply leb_Fin in E1. rewrite <- Zle_Qle in E1.
    replace (Z.max 1 (Z.min z 4)) with 1%Z by lia. reflexivity.
  - apply leb_Fin_false in E1. rewrite <- Zlt_Qlt in E1. unfold JsNum.min.
    destruct (JsNum.leb (JsNum.Fin (inject_Z z)) (JsNum.Fin (inject_Z 4))) eqn:E2.
    + apply leb_Fin in E2. rewrite <- Zle_Qle in E2.
      replace (Z.max 1 (Z.min z 4)) with z by lia. reflexivity.
    + apply leb_Fin_false in E2. rewrite <- Zlt_Qlt in E2.
      replace (Z.max 1 (Z.min z 4)) with 4%Z by lia. reflexivity.
Qed.

Lemma backButtonId_ofZ z : (0 <= z)%Z -> backButtonId (JsNum.ofZ z) <> None.
Proof.
  intros Hz. unfold backButtonId, JsNum.ofZ, JsNum.index.
  rewrite Qred_inject_Z.
  change (Qden (inject_Z z)) with 1%positive. change (Qnum (inject_Z z)) with z.
  rewrite bool_decide_eq_true_2 by done.
  assert (0 <=? z = true)%Z as -> by (by apply Z.leb_le). done.
Qed.



(** ** The review step *)

(** Nothing but the text of summary cells changes, and no cell appears. *)
Definition onlySummary (w w' : World) : Prop :=
  exists m, w' = setDoc (setSummaryMap m (doc w)) w
            /\ dom m = dom (summary (doc w)).

#[global] Instance onlySummary_preorder : PreOrder onlySummary.
Proof.
  split.
  - intros w. exists (summary (doc w)). split; [ | done ].
    by destruct w as [a s m [] pa pf t b].
  - intros w1 w2 w3 (m1 & -> & D1) (m2 & -> & D2). exists m2. split; [ done | ].
    simpl in D2. by rewrite D2.
Qed.

Lemma setDoc_same w : setDoc (doc w) w = w.
Proof. by destruct w. Qed.

Lemma setSummary_onlySummary id c : respects onlySummary (setSummary id c).
Proof.
  unfold setSummary. frame.
  destruct (summary (doc w) !! id) as [old|] eqn:E;
    [ | rewrite setDoc_same; reflexivity ].
  exists (<[id := c]> (summary (doc w))). split; [ done | ].
  apply dom_insert_lookup_L. by eexists.
Qed.

#[global] Hint Resolve setSummary_onlySummary : frame.

Lemma populateReview_onlySummary : respects onlySummary populateReview.
Proof. unfold populateReview, joinOr. frame. Qed.

Lemma completes_setSummary id c : completes (setSummary id c).
Proof. unfold setSummary. apply completes_modifyDoc. Qed.

(** [populateReview] reads [allergies] and [conditions] as arrays. *)
Definition arrays (dat : gmap string fieldval) : Prop :=
  (exists la, dat !! "allergies" = Some (VArr la))
  /\ (dat !! "conditions" = None \/ exists lc, dat !! "conditions" = Some (VArr lc)).

Lemma populateReview_completes w :
  arrays (data (state w)) -> completed (populateReview w).
Proof.
  intros [[la Ha] Hc]. unfold populateReview. rewrite bind_get. cbv zeta.
  rewrite Ha.
  assert (Hj : forall none l, completes (joinOr none (Some (VArr l)))).
  { intros none [|x l]; apply completes_ret. }
  assert (Hcond : completes
            match data (state w) !! "conditions" with
            | Some f => joinOr "None selected" (Some f)
            | None => ret (Shown "None selected")
            end).
  { destruct Hc as [-> | [lc ->]]; [ apply completes_ret | apply Hj ]. }
  match goal with
  | |- completed (?m w) => cut (completes m); [ intros H; apply H | ]
  end.
  repeat first [ apply completes_bind; [ | intros ? ]
               | apply completes_setSummary
               | apply Hj
               | exact Hcond ].
Qed.

(** The keys [populateReview] shows as they are, with the dash for an
    empty value. *)
Definition plainKeys : list string :=
  ["firstName"; "lastName"; "dob"; "phone"; "email"; "city"; "postalCode"; "country";
   "provider"; "policyNumber"; "groupNumber"; "coverageStart"; "insurerPhone";
   "medications"; "notes"].

(** The summary after [setSummary(id, c)]. *)
Definition written (id : string) (c : cell) (m : gmap string cell) : gmap string cell :=
  match m !! id with
  | Some _ => <[id := c]> m
  | None => m
  end.

Lemma written_lookup id c m id' :
  written id c m !! id'
  = if decide (id = id') then (fun _ => c) <$> m !! id' else m !! id'.
Proof.
  unfold written. destruct (decide (id = id')) as [<-|Hne].
  - destruct (m !! id) eqn:E; simpl; [ apply lookup_insert_eq | done ].
  - destruct (m !! id); [ by apply lookup_insert_ne | done ].
Qed.

Lemma written_lookup_ne id c m id' :
  id <> id' -> written id c m !! id' = m !! id'.
Proof. intros H. rewrite written_lookup. by destruct (decide (id = id')). Qed.

Lemma written_lookup_eq id c m :
  written id c m !! id = (fun _ => c) <$> m !! id.
Proof. rewrite written_lookup. by destruct (decide (id = id)). Qed.

Lemma setSummary_run id c w :
  setSummary id c w = Done tt (setDoc (setSummaryMap (written id c (summary (doc w))) (doc w)) w).
Proof.
  unfold setSummary, modifyDoc, modify, written.
  destruct (summary (doc w) !! id); [ done | ].
  by destruct w as [a s m [] pa pf t b].
Qed.


Lemma bind_setSummary {A} id c (k : unit -> M A) w :
  bind (setSummary id c) k w
  = k tt (setDoc (setSummaryMap (written id c (summary (doc w))) (doc w)) w).
Proof. unfold bind. by rewrite setSummary_run. Qed.

Lemma joinOr_array none l w :
  joinOr none (Some (VArr l)) w
  = Done (Shown (match l with [] => none | _ :: _ => join ", " l end)) w.
Proof. by destruct l. Qed.


(** A world on the review step whose page has summary cells. *)
Definition reviewWorld : World :=
  setDoc (setSummaryMap
            (list_to_map [("sum-provider", Dash); ("sum-groupNumber", Dash);
                          ("sum-allergies", Dash)])
            (doc Sample.atStep4)) Sample.atStep4.


(** *** Next *)

Lemma stepsAt_stepEls d d' a : stepEls d' = stepEls d -> stepsAt d' a = stepsAt d a.
Proof. intros H. unfold stepsAt. by rewrite H. Qed.



(** ** The provider popup *)

Lemma filter_sublist_impl {A} (P Q : A -> Prop)
    `{!forall x, Decision (P x)} `{!forall x, Decision (Q x)} (l : list A) :
  (forall x, P x -> Q x) -> filter P l `sublist_of` filter Q l.
Proof.
  intros Himp. induction l as [|a l IH]; [ done | ].
  rewrite !filter_cons.
  destruct (decide (P a)) as [Hp|Hp].
  - destruct (decide (Q a)) as [Hq|Hq]; [ by apply sublist_skip | by destruct Hq; apply Himp ].
  - destruct (decide (Q a)); [ by apply sublist_cons | done ].
Qed.

Lemma includesL_nil l : includesL l [] = true.
Proof. apply includesL_spec. by exists [], l. Qed.

Lemma includesL_trans l m k :
  includesL l m = true -> includesL m k = true -> includesL l k = true.
Proof.
  rewrite !includesL_spec. intros (p1 & q1 & ->) (p2 & q2 & ->).
  exists (p1 ++ p2), (q2 ++ q1). by rewrite <- !app_assoc.
Qed.

(** X14.  Typing narrows the list: when the text now in the provider
    field, trimmed and in lower case, contains the text it held before,
    the entries now listed are a subsequence of those listed before.  A
    blank field lists the whole catalog. *)
Theorem provider_filter_narrows (before now : string) :
  (includes (toLowerCase (trim now)) (toLowerCase (trim before)) = true ->
   matching now `sublist_of` matching before)
  /\ (trim now = "" -> matching now = PROVIDERS).
Proof.
  split.
  - intros H. unfold matching. apply filter_sublist_impl. intros name Hn.
    apply Is_true_true. apply Is_true_true in Hn. unfold includes in *.
    by eapply includesL_trans.
  - intros H. unfold matching. rewrite H. vm_compute. reflexivity.
Qed.

Lemma provider_filter_narrows_witness :
  includes (toLowerCase (trim "Health ")) (toLowerCase (trim "he")) = true
  /\ matching "Health " `sublist_of` matching "he".
Proof.
  assert (H : includes (toLowerCase (trim "Health ")) (toLowerCase (trim "he")) = true)
    by (vm_compute; reflexivity).
  exact (conj H (proj1 (provider_filter_narrows "he" "Health ") H)).
Defined.

(** *** Keys *)

Lemma bind_withListbox {A} f (k : unit -> M A) w lb :
  listbox (doc w) = Some lb ->
  bind (withListbox f) k w = k tt (setDoc (setListbox (Some (f lb)) (doc w)) w).
Proof. intros H. unfold withListbox, bind, get, modifyDoc, modify. by rewrite H. Qed.

Lemma withListbox_run f w lb :
  listbox (doc w) = Some lb ->
  withListbox f w = Done tt (setDoc (setListbox (Some (f lb)) (doc w)) w).
Proof. intros H. unfold withListbox, bind, get, modifyDoc, modify. by rewrite H. Qed.

(** The option an arrow key moves to, from the active option at [idx]
    ([-1]: none) in a list of [len] options. *)
Definition arrowTarget (k : key) (idx len : Z) : Z :=
  match k with
  | ArrowDown => Z.min (idx + 1) (len - 1)
  | ArrowUp => Z.max (idx - 1) 0
  | End => len - 1
  | _ => 0
  end.

Definition isArrow (k : key) : bool :=
  match k with ArrowDown | ArrowUp | Home | End => true | _ => false end.

(** X15.  An arrow key, Home or End on a list with options opens the
    popup and makes an option of the list the active one, without wrapping
    around: ArrowDown on the last option stays on the last, ArrowUp on the
    first stays on the first.  The options and the state are untouched. *)
Theorem arrow_keys_stay_in_list (w : World) (lb : Listbox) (k : key) :
  listbox (doc w) = Some lb -> lb_options lb <> [] -> isArrow k = true ->
  let len := Z.of_nat (length (lb_options lb)) in
  let target := arrowTarget k (activeIndex w (lb_options lb)) len in
  completed (onProviderKeydown k w)
  /\ (0 <= target < len)%Z
  /\ providerActive (final (onProviderKeydown k w)) = Some (Z.to_nat target)
  /\ listbox (doc (final (onProviderKeydown k w)))
     = Some {| lb_options := lb_options lb; lb_hidden := false |}
  /\ state (final (onProviderKeydown k w)) = state w.
Proof.
  intros Hl Hne Hk len target.
  assert (Hidx : (-1 <= activeIndex w (lb_options lb) < len)%Z).
  { unfold activeIndex, len. destruct (providerActive w) as [i|]; [ | lia ].
    destruct (i <? length (lb_options lb)) eqn:E; [ | lia ].
    apply Nat.ltb_lt in E. lia. }
  assert (Hlen : (0 < len)%Z).
  { unfold len. destruct (lb_options lb); [ done | simpl; lia ]. }
  assert (Hrange : (0 <= target < len)%Z).
  { unfold target, arrowTarget. destruct k; try done; lia. }
  unfold onProviderKeydown. rewrite bind_get, Hl. cbv zeta.
  fold len. unfold moveProviderActive, openProviderList.
  destruct (lb_options lb) as [|x l] eqn:Eo; [ done | ].
  destruct (lb_hidden lb) eqn:Eh; cbv beta iota delta [negb];
    destruct k; try done;
    rewrite ?(bind_withListbox _ _ _ _ Hl), ?(bind_Done (ret tt) _ _ tt _ eq_refl);
    unfold modify, completed, final;
    cbn [providerActive setProviderActive doc setDoc listbox setListbox state
         lb_options lb_hidden];
    repeat split; try done; try lia.
  all: rewrite ?Hl; f_equal; destruct lb; simpl in *; congruence.
Qed.

Lemma arrow_keys_stay_in_list_witness :
  listbox (doc Sample.started) = Some {| lb_options := PROVIDERS; lb_hidden := true |}
  /\ providerActive (final (onProviderKeydown End Sample.started)) = Some 19
  /\ providerActive (final (onProviderKeydown ArrowDown
                             (final (onProviderKeydown End Sample.started)))) = Some 19.
Proof.
  assert (H1 : listbox (doc Sample.started)
               = Some {| lb_options := PROVIDERS; lb_hidden := true |})
    by (vm_compute; reflexivity).
  set (w1 := final (onProviderKeydown End Sample.started)).
  assert (H2 : listbox (doc w1) = Some {| lb_options := PROVIDERS; lb_hidden := false |})
    by (vm_compute; reflexivity).
  assert (Hne : PROVIDERS <> []) by discriminate.
  pose proof (arrow_keys_stay_in_list Sample.started _ End H1 Hne eq_refl)
    as (_ & _ & Ha & _).
  pose proof (arrow_keys_stay_in_list w1 _ ArrowDown H2 Hne eq_refl)
    as (_ & _ & Hb & _).
  split; [ exact H1 | ]. split; [ exact Ha | ].
  rewrite Hb. unfold activeIndex. fold w1 in Ha. rewrite Ha. reflexivity.
Defined.

Lemma onProviderToggle_run w lb :
  listbox (doc w) = Some lb ->
  onProviderToggle w
  = Done tt (setDoc (setListbox
                       (Some {| lb_options := lb_options lb;
                                lb_hidden := negb (lb_hidden lb) |})
                       (doc w)) w).
Proof.
  intros Hl. unfold onProviderToggle, openProviderList, closeProviderList.
  rewrite bind_get, Hl.
  destruct (lb_hidden lb); cbv beta iota delta [negb];
    by rewrite (withListbox_run _ _ _ Hl).
Qed.

(** X16.  Clicking the toggle twice leaves the page as it was: the first
    click flips the [hidden] flag of the popup, the second flips it back,
    and nothing else changes. *)
Theorem toggle_twice_is_identity (w : World) (lb : Listbox) :
  listbox (doc w) = Some lb ->
  listbox (doc (final (onProviderToggle w)))
  = Some {| lb_options := lb_options lb; lb_hidden := negb (lb_hidden lb) |}
  /\ final (onProviderToggle (final (onProviderToggle w))) = w.
Proof.
  intros Hl. rewrite (onProviderToggle_run w lb Hl). cbn [final].
  split; [ reflexivity | ].
  pose proof (onProviderToggle_run
                (setDoc (setListbox
                           (Some {| lb_options := lb_options lb;
                                    lb_hidden := negb (lb_hidden lb) |})
                           (doc w)) w)
                {| lb_options := lb_options lb; lb_hidden := negb (lb_hidden lb) |}
                eq_refl) as E2.
  rewrite E2. cbn [final].
  destruct lb as [opts h]. destruct w as [a s m d pa pf t b]. destruct d.
  simpl in Hl. subst. simpl. by rewrite negb_involutive.
Qed.

Lemma toggle_twice_is_identity_witness :
  listbox (doc Sample.started) = Some {| lb_options := PROVIDERS; lb_hidden := true |}
  /\ final (onProviderToggle (final (onProviderToggle Sample.started))) = Sample.started.
Proof.
  assert (H1 : listbox (doc Sample.started)
               = Some {| lb_options := PROVIDERS; lb_hidden := true |})
    by (vm_compute; reflexivity).
  exact (conj H1 (proj2 (toggle_twice_is_identity Sample.started _ H1))).
Defined.

(** X17.  Keys that find nothing to do change nothing: any key other than
    the six the listener knows; Enter and Escape while the popup is
    closed; Enter on an open popup without options. *)
Theorem keydown_without_effect (w : World) (lb : Listbox) (k : key) :
  listbox (doc w) = Some lb ->
  k = OtherKey
  \/ (lb_hidden lb = true /\ (k = Enter \/ k = Escape))
  \/ (lb_options lb = [] /\ k = Enter) ->
  onProviderKeydown k w = Done tt w.
Proof.
  intros Hl Hk. unfold onProviderKeydown. rewrite bind_get, Hl. cbv zeta.
  destruct Hk as [-> | [[Hh [-> | ->]] | [Ho ->]]].
  - reflexivity.
  - by rewrite Hh.
  - by rewrite Hh.
  - rewrite Ho. by destruct (negb (lb_hidden lb)).
Qed.

Lemma keydown_without_effect_witness :
  listbox (doc Sample.started) = Some {| lb_options := PROVIDERS; lb_hidden := true |}
  /\ onProviderKeydown Enter Sample.started = Done tt Sample.started.
Proof.
  assert (H1 : listbox (doc Sample.started)
               = Some {| lb_options := PROVIDERS; lb_hidden := true |})
    by (vm_compute; reflexivity).
  exact (conj H1 (keydown_without_effect Sample.started _ Enter H1
                    (or_intror (or_introl (conj eq_refl (or_introl eq_refl)))))).
Defined.

(** ** Allergies *)

Lemma renderAllergyChips_run w l :
  data (state w) !! "allergies" = Some (VArr l) ->
  renderAllergyChips w
  = Done tt (setDoc (match chips (doc w) with
                     | Some _ => setChips (Some l) (doc w)
                     | None => doc w
                     end) w).
Proof.
  intros H. unfold renderAllergyChips. rewrite bind_get.
  destruct (chips (doc w)); [ by rewrite H | ].
  unfold ret. by rewrite setDoc_same.
Qed.

Lemma persist_keeps {X} (part : World -> X) b :
  (forall w, part (saveState w) = part w) ->
  (forall p w, part (setDoc (setPolite p (doc w)) w) = part w) ->
  respects (keeps part) (persist b).
Proof.
  intros H1 H2. unfold persist, announcePolite. frame.
  - apply H1.
  - unfold keeps. destruct (polite (doc w)); [ apply H2 | by rewrite setDoc_same ].
Qed.

Definition chipsOf (w : World) : option (list string) := chips (doc w).

Lemma allergiesOk_delete i l : allergiesOk l -> allergiesOk (delete i l).
Proof.
  intros [Hn Hf]. split.
  - eapply sublist_NoDup; [ done | apply sublist_delete ].
  - rewrite Forall_forall in *. intros x Hx. apply Hf.
    eapply elem_of_sublist; [ exact Hx | apply sublist_delete ].
Qed.

Lemma removeAllergy_run w l i :
  data (state w) !! "allergies" = Some (VArr l) ->
  completed (removeAllergy i w)
  /\ data (state (final (removeAllergy i w)))
     = <["allergies" := VArr (delete i l)]> (data (state w))
  /\ chips (doc (final (removeAllergy i w))) = (fun _ => delete i l) <$> chips (doc w).
Proof.
  intros Ha. unfold removeAllergy. rewrite bind_get, Ha.
  rewrite (bind_Done (modify _) _ w tt _ eq_refl).
  set (w1 := setData (<["allergies" := VArr (delete i l)]> (data (state w))) w).
  assert (Ha1 : data (state w1) !! "allergies" = Some (VArr (delete i l)))
    by apply lookup_insert_eq.
  rewrite (bind_Done _ _ _ _ _ (renderAllergyChips_run w1 _ Ha1)).
  set (w2 := setDoc _ w1).
  pose proof (completes_persist true w2) as Hc.
  assert (Hs : respects (keeps state) (persist true))
    by (apply persist_keeps; [ apply saveState_state | done ]).
  assert (Hch : respects (keeps chipsOf) (persist true)).
  { apply persist_keeps; [ | done ]. intros v. unfold chipsOf. by rewrite saveState_doc. }
  specialize (Hs w2). specialize (Hch w2). unfold keeps, chipsOf in Hs, Hch.
  split; [ done | ]. rewrite Hs, Hch. split; [ reflexivity | ].
  unfold w2. simpl. destruct (chips (doc w)) eqn:E; simpl; by rewrite ?E.
Qed.

Lemma delete_past_end {A} (l : list A) i : length l <= i -> delete i l = l.
Proof.
  revert i. induction l as [|x l IH]; intros [|i] Hlen; simpl in *; try done; try lia.
  f_equal. apply IH. lia.
Qed.

Lemma delete_last_added {A} (l : list A) x : delete (length l) (l ++ [x]) = l.
Proof. induction l as [|y l IH]; simpl; [ done | by f_equal ]. Qed.

(** X18.  The remove button of chip [i] takes entry [i] out of the
    allergies and nothing else: the other entries keep their order, the
    chips are redrawn to show the sequence that is left, and a sequence of
    trimmed, non-empty, distinct entries stays one.  An index past the end
    removes nothing. *)
Theorem remove_allergy_drops_one_entry (w : World) (l : list string) (i : nat) :
  data (state w) !! "allergies" = Some (VArr l) ->
  completed (removeAllergy i w)
  /\ data (state (final (removeAllergy i w)))
     = <["allergies" := VArr (delete i l)]> (data (state w))
  /\ chips (doc (final (removeAllergy i w))) = (fun _ => delete i l) <$> chips (doc w)
  /\ (length l <= i -> data (state (final (removeAllergy i w))) = data (state w))
  /\ (allergiesOk l -> allergiesOk (delete i l)).
Proof.
  intros Ha. destruct (removeAllergy_run w l i Ha) as (Hc & Hd & Hch).
  split; [ done | ]. split; [ done | ]. split; [ done | ]. split.
  - intros Hlen. rewrite Hd, (delete_past_end l i Hlen). by apply insert_id.
  - apply allergiesOk_delete.
Qed.

Lemma remove_allergy_drops_one_entry_witness :
  data (state Sample.peanutAgain) !! "allergies" = Some (VArr ["peanut"])
  /\ data (state (final (removeAllergy 0 Sample.peanutAgain))) !! "allergies"
     = Some (VArr []).
Proof.
  assert (H : data (state Sample.peanutAgain) !! "allergies" = Some (VArr ["peanut"]))
    by (vm_compute; reflexivity).
  split; [ exact H | ].
  destruct (remove_allergy_drops_one_entry Sample.peanutAgain _ 0 H) as (_ & -> & _).
  apply lookup_insert_eq.
Defined.

Lemma updNode_run n f w :
  updNode n f w = Done tt (setDoc (setNodes (alter f n (nodes (doc w))) (doc w)) w).
Proof. reflexivity. Qed.

(** X19.  Adding an allergy is undone by removing the last chip.  When the
    trimmed text of the input is not empty and not among the allergies,
    [addAllergyFromInput] appends it, empties the input and redraws the
    chips to show the longer sequence; removing the chip it added gives
    back the form data there was before.  A blank input adds nothing and
    changes nothing at all. *)
Theorem add_then_remove_last_restores
  (w : World) (a : nat) (e : Element) (l : list string) :
  getElementById "allergyInput" (doc w) = Some a -> nodes (doc w) !! a = Some e ->
  data (state w) !! "allergies" = Some (VArr l) ->
  (trim (el_value e) = "" -> addAllergyFromInput w = Done tt w)
  /\ (trim (el_value e) <> "" -> trim (el_value e) ∉ l ->
      completed (addAllergyFromInput w)
      /\ data (state (final (addAllergyFromInput w)))
         = <["allergies" := VArr (l ++ [trim (el_value e)])]> (data (state w))
      /\ nodes (doc (final (addAllergyFromInput w))) !! a = Some (setValue "" e)
      /\ chips (doc (final (addAllergyFromInput w)))
         = (fun _ => l ++ [trim (el_value e)]) <$> chips (doc w)
      /\ data (state (final (removeAllergy (length l) (final (addAllergyFromInput w)))))
         = data (state w)).
Proof.
  intros Hid He Ha. split.
  - intros Hblank. unfold addAllergyFromInput. rewrite bind_get, Hid, He. cbv zeta.
    by rewrite Hblank.
  - intros Hne Hnew.
    assert (Hrun : exists w3,
               addAllergyFromInput w = persist true w3
               /\ state w3
                  = state (setData (<["allergies" := VArr (l ++ [trim (el_value e)])]>
                                      (data (state w))) w)
               /\ nodes (doc w3) = alter (setValue "") a (nodes (doc w))
               /\ chips (doc w3) = (fun _ => l ++ [trim (el_value e)]) <$> chips (doc w)).
    { unfold addAllergyFromInput. rewrite bind_get, Hid, He. cbv zeta.
      rewrite (proj2 (truthy_nonempty _) Hne). cbv beta iota delta [negb].
      rewrite Ha, (bool_decide_eq_false_2 _ Hnew).
      rewrite (bind_Done (modify _) _ w tt _ eq_refl).
      rewrite (bind_Done _ _ _ _ _ (updNode_run _ _ _)).
      match goal with
      | |- context [bind renderAllergyChips _ ?w2] =>
          assert (Ha2 : data (state w2) !! "allergies"
                        = Some (VArr (l ++ [trim (el_value e)])))
            by apply lookup_insert_eq;
          rewrite (bind_Done _ _ _ _ _ (renderAllergyChips_run w2 _ Ha2))
      end.
      eexists. split; [ reflexivity | ]. simpl.
      destruct (chips (doc w)) eqn:E; simpl; rewrite ?E; by repeat split. }
    destruct Hrun as (w3 & Erun & Hst & Hnodes & Hchips). rewrite Erun.
    pose proof (completes_persist true w3) as Hc.
    assert (Hs : respects (keeps state) (persist true))
      by (apply persist_keeps; [ apply saveState_state | done ]).
    assert (Hch : respects (keeps chipsOf) (persist true)).
    { apply persist_keeps; [ | done ]. intros v. unfold chipsOf. by rewrite saveState_doc. }
    assert (Hnd : respects (keeps (fun v => nodes (doc v))) (persist true)).
    { apply persist_keeps; [ | done ]. intros v. by rewrite saveState_doc. }
    specialize (Hs w3). specialize (Hch w3). specialize (Hnd w3).
    unfold keeps, chipsOf in Hs, Hch, Hnd.
    split; [ done | ]. rewrite Hs, Hch, Hnd, Hst, Hnodes, Hchips.
    split; [ reflexivity | ]. split; [ | split; [ reflexivity | ] ].
    + rewrite list_lookup_alter_eq, He. reflexivity.
    + set (w4 := final (persist true w3)).
      assert (Ha4 : data (state w4) !! "allergies"
                    = Some (VArr (l ++ [trim (el_value e)]))).
      { unfold w4. rewrite Hs, Hst. apply lookup_insert_eq. }
      destruct (removeAllergy_run w4 _ (length l) Ha4) as (_ & -> & _).
      unfold w4. rewrite Hs, Hst. simpl.
      rewrite delete_last_added, insert_insert_eq. by apply insert_id.
Qed.

(** The allergy input holding [ peanut ], nothing added yet. *)
Definition peanutTyped : World :=
  final (updNode 18 (setValue " peanut ") Sample.atStep2).

Lemma add_then_remove_last_restores_witness :
  (getElementById "allergyInput" (doc peanutTyped) = Some 18
   /\ nodes (doc peanutTyped) !! 18
      = Some (setValue " peanut " (Sample.field "allergyInput" "text" Input false 2))
   /\ data (state peanutTyped) !! "allergies" = Some (VArr []))
  /\ data (state (final (addAllergyFromInput peanutTyped))) !! "allergies"
     = Some (VArr ["peanut"])
  /\ data (state (final (removeAllergy 0 (final (addAllergyFromInput peanutTyped)))))
     = data (state peanutTyped).
Proof.
  assert (H1 : getElementById "allergyInput" (doc peanutTyped) = Some 18)
    by (vm_compute; reflexivity).
  assert (H2 : nodes (doc peanutTyped) !! 18
               = Some (setValue " peanut "
                         (Sample.field "allergyInput" "text" Input false 2)))
    by (vm_compute; reflexivity).
  assert (H3 : data (state peanutTyped) !! "allergies" = Some (VArr []))
    by (vm_compute; reflexivity).
  destruct (add_then_remove_last_restores peanutTyped 18 _ [] H1 H2 H3) as [_ Hadd].
  destruct Hadd as (_ & Hd & _ & _ & Hr).
  { vm_compute. discriminate. }
  { vm_compute. intros H. inversion H. }
  split; [ exact (conj H1 (conj H2 H3)) | ]. split.
  - rewrite Hd. apply lookup_insert_eq.
  - exact Hr.
Defined.

(** ** Conditions *)

(** The values of the ticked condition boxes, in document order. *)
Definition tickedConditions (d : Document) : list string :=
  el_value <$> filter (fun e => isCondition e && el_checked e) (nodes d).

(** X20.  After a condition box changes, [state.data.conditions] is the
    sequence of values of the ticked condition boxes, in document order;
    no other key of the form data changes and no other box is touched. *)
Theorem conditions_mirror_ticked_boxes (w : World) (n : nat) :
  completed (handleCondition n w)
  /\ nodes (doc (final (handleCondition n w)))
     = alter (fun e => setChecked (negb (el_checked e)) e) n (nodes (doc w))
  /\ data (state (final (handleCondition n w)))
     = <["conditions" := VArr (tickedConditions (doc (final (handleCondition n w))))]>
         (data (state w)).
Proof.
  unfold handleCondition.
  rewrite (bind_Done _ _ _ _ _ (updNode_run _ _ _)), bind_get.
  rewrite (bind_Done (modify _) _ _ tt _ eq_refl).
  match goal with |- context [persist true ?w2] => set (w3 := w2) end.
  pose proof (completes_persist true w3) as Hc.
  assert (Hs : respects (keeps state) (persist true))
    by (apply persist_keeps; [ apply saveState_state | done ]).
  assert (Hnd : respects (keeps (fun v => nodes (doc v))) (persist true)).
  { apply persist_keeps; [ | done ]. intros v. by rewrite saveState_doc. }
  specialize (Hs w3). specialize (Hnd w3). unfold keeps in Hs, Hnd.
  split; [ done | ]. unfold tickedConditions. rewrite Hs, Hnd.
  split; reflexivity.
Qed.

(** ** The form's input listener *)

(** The key of [state.data] an element stands for. *)
Definition keyOf (e : Element) : string :=
  if (el_id e =? "provider-input")%string then "provider" else el_id e.



(** ** The phone listeners *)

(** Only the two policy fields can make [validateField] throw. *)
Lemma validateField_completes w n e :
  nodes (doc w) !! n = Some e ->
  el_id e <> "policyNumber" -> el_id e <> "policyConfirm" ->
  completed (validateField (Some n) w).
Proof.
  intros He H1 H2. unfold validateField.
  generalize (validateFieldWith (fun _ : option nat => ret true)). intros self.
  unfold validateFieldWith. rewrite bind_get, He. cbv zeta.
  apply String.eqb_neq in H1, H2. rewrite H1, H2.
  unfold setValid, setInvalid, modifyDoc, modify, bind, ret.
  repeat case_match; done.
Qed.

(** X22.  The input listener of a phone field leaves in the field, and
    stores in the form data, the text without the characters a phone
    number cannot hold; it always runs to its end. *)
Theorem phone_input_is_stripped (w : World) (id : string) (n : nat) (e : Element) :
  id = "phone" \/ id = "insurerPhone" ->
  getElementById id (doc w) = Some n -> nodes (doc w) !! n = Some e ->
  is_Some (data (state w) !! id) ->
  completed (onPhoneInput id w)
  /\ nodes (doc (final (onPhoneInput id w))) !! n
     = Some (setValue (stripPhone (el_value e)) e)
  /\ data (state (final (onPhoneInput id w)))
     = <[id := VStr (stripPhone (el_value e))]> (data (state w))
  /\ forallb phoneChar (chars (stripPhone (el_value e))) = true.
Proof.
  intros Hid Hn He [v Hv].
  destruct (getElementById_Some _ _ _ Hn) as (e' & He' & Heid).
  assert (e' = e) as -> by congruence.
  unfold onPhoneInput. rewrite bind_get, Hn.
  rewrite (bind_Done _ _ _ _ _ (updNode_run _ _ _)), bind_get.
  set (w1 := setDoc _ w).
  assert (He1 : nodes (doc w1) !! n = Some (setValue (stripPhone (el_value e)) e)).
  { unfold w1. simpl. change (list_alter ?f n) with (alter f n).
    by rewrite list_lookup_alter_eq, He. }
  rewrite He1. cbn [el_value setValue].
  assert (Hsync : syncState id (stripPhone (el_value e)) w1
                  = Done tt (setData (<[id := VStr (stripPhone (el_value e))]>
                                        (data (state w1))) w1)).
  { unfold syncState, modify. change (data (state w1)) with (data (state w)).
    by rewrite Hv. }
  rewrite (bind_Done _ _ _ _ _ Hsync).
  set (w2 := setData _ w1).
  assert (Hc : completed (validateField (Some n) w2)).
  { apply (validateField_completes w2 n (setValue (stripPhone (el_value e)) e) He1);
      simpl; rewrite Heid; destruct Hid as [-> | ->]; discriminate. }
  destruct (validateField_run (Some n) w2) as [mk E].
  destruct (validateField (Some n) w2) as [ok w3|w3] eqn:Ev; [ | done ].
  simpl in E. injection E as ->.
  rewrite (bind_Done _ _ _ _ _ Ev).
  pose proof (completes_persist true (withMarks mk w2)) as Hp.
  assert (Hs : respects (keeps state) (persist true))
    by (apply persist_keeps; [ apply saveState_state | done ]).
  assert (Hnd : respects (keeps (fun v => nodes (doc v))) (persist true)).
  { apply persist_keeps; [ | done ]. intros v0. by rewrite saveState_doc. }
  specialize (Hs (withMarks mk w2)). specialize (Hnd (withMarks mk w2)).
  unfold keeps in Hs, Hnd.
  split; [ done | ]. rewrite Hs, Hnd.
  split; [ exact He1 | ]. split; [ reflexivity | ].
  unfold stripPhone. rewrite chars_ofChars. apply forallb_filter.
Qed.

(** The phone field holding a number typed with letters in it. *)
Definition phoneTyped : World :=
  final (updNode 3 (setValue "+1 555 0100 ext 7") Sample.fresh).

Lemma phone_input_is_stripped_witness :
  (getElementById "phone" (doc phoneTyped) = Some 3
   /\ nodes (doc phoneTyped) !! 3
      = Some (setValue "+1 555 0100 ext 7" (Sample.field "phone" "tel" Input true 0))
   /\ is_Some (data (state phoneTyped) !! "phone"))
  /\ data (state (final (onPhoneInput "phone" phoneTyped))) !! "phone"
     = Some (VStr "+1 555 0100  7").
Proof.
  assert (H1 : getElementById "phone" (doc phoneTyped) = Some 3)
    by (vm_compute; reflexivity).
  assert (H2 : nodes (doc phoneTyped) !! 3
               = Some (setValue "+1 555 0100 ext 7"
                         (Sample.field "phone" "tel" Input true 0)))
    by (vm_compute; reflexivity).
  assert (H3 : is_Some (data (state phoneTyped) !! "phone"))
    by (eexists; vm_compute; reflexivity).
  split; [ exact (conj H1 (conj H2 H3)) | ].
  destruct (phone_input_is_stripped phoneTyped "phone" 3 _ (or_introl eq_refl) H1 H2 H3)
    as (_ & _ & -> & _).
  rewrite lookup_insert_eq. reflexivity.
Defined.

(** ** Storage *)

(** X23.  [persist] never throws and never changes the state.  With
    storage working, what [loadState] then reads is the state as saved;
    when the write fails (quota exceeded, storage disabled) the error is
    swallowed and the stored record stays as it was. *)
Theorem persist_swallows_storage_errors (b : bool) (w : World) :
  completed (persist b w)
  /\ state (final (persist b w)) = state w
  /\ (mode w = Working ->
      loadState (final (persist b w)) = Some (snapshotOf (state w)))
  /\ (mode w <> Working -> store (final (persist b w)) = store w).
Proof.
  assert (Hs : respects (keeps state) (persist b))
    by (apply persist_keeps; [ apply saveState_state | done ]).
  assert (Hrun : exists d, persist b w = Done tt (setDoc d (saveState w))).
  { unfold persist. rewrite (bind_Done (modify saveState) _ w tt _ eq_refl).
    destruct b.
    - apply announcePolite_run.
    - exists (doc (saveState w)). unfold ret. by rewrite setDoc_same. }
  destruct Hrun as [d ->]. unfold completed, final. split; [ done | ].
  split; [ apply saveState_state | ]. split.
  - intros Hm. unfold loadState, saveState. rewrite Hm. simpl. by rewrite Hm.
  - intros Hm. unfold saveState. by destruct (mode w).
Qed.

Lemma persist_swallows_storage_errors_witness :
  mode Sample.atStep2 = Working
  /\ loadState (final (persist true Sample.atStep2))
     = Some (snapshotOf (state Sample.atStep2)).
Proof.
  assert (H : mode Sample.atStep2 = Working) by (vm_compute; reflexivity).
  exact (conj H (proj1 (proj2 (proj2 (persist_swallows_storage_errors
                                        true Sample.atStep2))) H)).
Defined.

(** X24.  A step that is not a finite number (NaN, from a target hint
    that is not a number) is written to storage as [null]; the page
    loaded on that record starts on step 1. *)
Theorem non_finite_step_restores_as_first
  (page : Document) (b : Browser) (w : World) :
  mode w = Working ->
  (forall q, step (state w) <> JsNum.Fin q) ->
  step (state (final (restoreFromStorage (boot page (store (saveState w)) Working b))))
  = JsNum.ofZ 1.
Proof.
  intros Hm Hstep. rewrite (saveState_working w Hm).
  destruct (restoreFromStorage_some
              (boot page (Json (snapshotOf (state w))) Working b)
              (snapshotOf (state w)) eq_refl) as [d ->].
  simpl. destruct (step (state w)) as [q| | |] eqn:E; try reflexivity.
  by destruct (Hstep q).
Qed.

(** [Next] on a button whose [data-next] is not a number. *)
Definition lostStep : World :=
  final (handleNext (Some JsNum.NaN) (Sample.fill Sample.step1Values Sample.fresh)).

Lemma non_finite_step_restores_as_first_witness :
  (mode lostStep = Working /\ step (state lostStep) = JsNum.NaN)
  /\ step (state (final (restoreFromStorage
                           (boot Sample.page (store (saveState lostStep))
                                 Working Sample.browser))))
     = JsNum.ofZ 1.
Proof.
  assert (H1 : mode lostStep = Working) by (vm_compute; reflexivity).
  assert (H2 : step (state lostStep) = JsNum.NaN) by (vm_compute; reflexivity).
  split; [ exact (conj H1 H2) | ].
  apply (non_finite_step_restores_as_first _ _ _ H1).
  intros q. rewrite H2. discriminate.
Defined.

(** ** After a submission *)

Definition nodesOf (w : World) : list Element := nodes (doc w).

Lemma announcePolite_keeps_nodes msg : respects (keeps nodesOf) (announcePolite msg).
Proof. unfold announcePolite. frame. keeps_prim. Qed.

(** The controls [toggleFormDisabled] passes over. *)
Definition spared (e : Element) : bool :=
  negb (el_in_form e) || bool_decide (el_id e ∈ ["toggle-contrast"; "print-form"]).

(** X25.  When the callback of a submission has run to its end, every
    control of the form is enabled, the contrast and print buttons left
    as they were.  That holds for the Back button of step 1 as well, which
    [goToStep(1)] had disabled a moment before. *)
Theorem submission_reenables_every_control (w : World) (i : nat) (e : Element) :
  completed (submitDone w) ->
  nodes (doc (final (submitDone w))) !! i = Some e ->
  spared e = false ->
  el_disabled e = false.
Proof.
  intros Hc Hi Hsp. rewrite submitDone_unfold in Hc, Hi.
  destruct (submitDone_reset w) as (d & E & _).
  rewrite (bind_Done _ _ _ _ _ E) in Hc, Hi.
  match type of Hc with
  | completed (bind (goToStep ?s ?f ?a) _ ?w1) =>
      destruct (goToStep_run s f a w1) as [d2 [[Hp Hg]|[Hp Hg]]]
  end.
  2: { by rewrite (bind_Thrown _ _ _ _ Hg) in Hc. }
  rewrite (bind_Done _ _ _ _ _ Hg) in Hi.
  unfold toggleFormDisabled in Hi.
  rewrite (bind_Done (modifyDoc _) _ _ tt _ eq_refl) in Hi.
  match type of Hi with
  | nodes (doc (final (announcePolite ?msg ?w4))) !! _ = _ =>
      pose proof (announcePolite_keeps_nodes msg w4) as Hk
  end.
  unfold keeps, nodesOf in Hk. rewrite Hk in Hi. simpl in Hi.
  rewrite list_lookup_fmap in Hi.
  match type of Hi with
  | _ <$> ?l !! i = _ => destruct (l !! i) as [e0|]; [ | done ]
  end.
  simpl in Hi. injection Hi as <-.
  unfold spared in Hsp.
  destruct (el_in_form e0) eqn:Ef;
    destruct (bool_decide (el_id e0 ∈ ["toggle-contrast"; "print-form"])) eqn:Ex;
    simpl in *; try done.
  all: by rewrite ?Ef, ?Ex in Hsp.
Qed.

Lemma submission_reenables_every_control_witness :
  completed (submitDone Sample.atStep4)
  /\ (exists e, nodes (doc (final (submitDone Sample.atStep4))) !! 16 = Some e
                /\ el_id e = "back-2" /\ el_disabled e = false).
Proof.
  assert (Hc : completed (submitDone Sample.atStep4)) by (vm_compute; exact I).
  split; [ exact Hc | ].
  destruct (nodes (doc (final (submitDone Sample.atStep4))) !! 16) as [e|] eqn:E.
  2: { vm_compute in E. discriminate E. }
  exists e. split; [ reflexivity | ].
  assert (Hid : el_id e = "back-2").
  { assert (H : el_id <$> nodes (doc (final (submitDone Sample.atStep4))) !! 16
                = Some "back-2") by (vm_compute; reflexivity).
    rewrite E in H. simpl in H. injection H as H. exact H. }
  split; [ exact Hid | ].
  apply (submission_reenables_every_control Sample.atStep4 16 e Hc E).
  assert (H : spared <$> nodes (doc (final (submitDone Sample.atStep4))) !! 16
              = Some false) by (vm_compute; reflexivity).
  rewrite E in H. simpl in H. injection H as H. exact H.
Defined.

(** ** Restore *)

Lemma renderAllergyChips_keeps_nodes : respects (keeps nodesOf) renderAllergyChips.
Proof. unfold renderAllergyChips. frame; keeps_prim. Qed.



(** ** The mutation observer *)

(** The rewriting the observer does on the element at [i]. *)
Definition observed (d : Document) (i : nat) (e : Element) : Element :=
  if el_control_is_form_control e
     && bool_decide (firstFieldOf (el_control e) d = Some i)
  then setAriaInvalid (bool_decide (marks d !! el_control e = Some MarkInvalid)) e
  else e.

Lemma list_find_imap_stable {A} (P : A -> Prop) `{!forall x, Decision (P x)}
    (l : list A) : forall f : nat -> A -> A,
  (forall i x, P (f i x) <-> P x) ->
  fst <$> list_find P (imap f l) = fst <$> list_find P l.
Proof.
  induction l as [|x l IH]; intros f Hf; [ done | ].
  rewrite imap_cons. simpl.
  destruct (decide (P (f 0 x))) as [H1|H1]; destruct (decide (P x)) as [H2|H2].
  - done.
  - by apply Hf in H1.
  - by apply (Hf 0 x) in H2.
  - specialize (IH (f ∘ S) (fun i y => Hf (S i) y)).
    destruct (list_find P (imap (f ∘ S) l)) as [[]|],
      (list_find P l) as [[]|]; simpl in *; congruence.
Qed.

Lemma firstFieldOf_observed c d :
  firstFieldOf c (setNodes (imap (observed d) (nodes d)) d) = firstFieldOf c d.
Proof.
  unfold firstFieldOf. simpl. apply list_find_imap_stable.
  intros i x. unfold observed. by destruct (_ && _).
Qed.

(** X27.  After the mutation observer has run, the first field of every
    form control has [aria-invalid] exactly when the control carries the
    class [invalid]; nothing else on the page changes, and running the
    observer again changes nothing. *)
Theorem observer_mirrors_invalid_class (w : World) :
  (forall i e,
     nodes (doc w) !! i = Some e ->
     nodes (doc (observerSync w)) !! i = Some (observed (doc w) i e)
     /\ (el_control_is_form_control e = true ->
         firstFieldOf (el_control e) (doc w) = Some i ->
         el_aria_invalid (observed (doc w) i e)
         = bool_decide (marks (doc w) !! el_control e = Some MarkInvalid))
     /\ el_value (observed (doc w) i e) = el_value e)
  /\ observerSync (observerSync w) = observerSync w.
Proof.
  split.
  - intros i e He. split; [ | split ].
    + unfold observerSync. simpl. fold (observed (doc w)).
      by rewrite list_lookup_imap, He.
    + intros Hc Hf. unfold observed. rewrite Hc, Hf.
      by rewrite bool_decide_eq_true_2.
    + unfold observed. by destruct (_ && _).
  - assert (Hn : forall d,
               imap (observed (setNodes (imap (observed d) (nodes d)) d))
                 (imap (observed d) (nodes d))
               = imap (observed d) (nodes d)).
    { intros d. apply list_eq. intros i. rewrite !list_lookup_imap.
      destruct (nodes d !! i) as [e|]; [ | done ]. simpl. f_equal.
      unfold observed at 1. cbn [marks setNodes].
      rewrite firstFieldOf_observed.
      unfold observed.
      destruct (el_control_is_form_control e) eqn:Ec;
        destruct (bool_decide (firstFieldOf (el_control e) d = Some i)) eqn:Ef;
        simpl; rewrite ?Ec, ?Ef; simpl; reflexivity. }
    unfold observerSync. cbv zeta. fold (observed (doc w)).
    cbn [doc setDoc nodes setNodes].
    fold (observed (setNodes (imap (observed (doc w)) (nodes (doc w))) (doc w))).
    rewrite Hn. reflexivity.
Qed.

Lemma observer_mirrors_invalid_class_witness :
  nodes (doc (final (handleNext None Sample.fresh))) !! 0
  = Some (Sample.field "firstName" "text" Input true 0)
  /\ el_aria_invalid
       (observed (doc (final (handleNext None Sample.fresh))) 0
          (Sample.field "firstName" "text" Input true 0)) = true.
Proof.
  set (w := final (handleNext None Sample.fresh)).
  assert (H : nodes (doc w) !! 0 = Some (Sample.field "firstName" "text" Input true 0))
    by (vm_compute; reflexivity).
  split; [ exact H | ].
  destruct (proj1 (observer_mirrors_invalid_class w) 0 _ H) as (_ & Hm & _).
  rewrite Hm; vm_compute; reflexivity.
Defined.

(** ** The keys of the form data *)

(** No key of [state.data] is lost. *)
Definition keysStay (w w' : World) : Prop :=
  forall k, is_Some (data (state w) !! k) -> is_Some (data (state w') !! k).

#[global] Instance keysStay_preorder : PreOrder keysStay.
Proof.
  split.
  - by intros w k.
  - intros w1 w2 w3 H1 H2 k Hk. by apply H2, H1.
Qed.

Lemma keysStay_same w w' : data (state w') = data (state w) -> keysStay w w'.
Proof. intros H k. by rewrite H. Qed.

Lemma keysStay_insert w k v : keysStay w (setData (<[k := v]> (data (state w))) w).
Proof.
  intros k' Hk. simpl. rewrite lookup_insert_is_Some.
  destruct (decide (k = k')); auto.
Qed.

Lemma keysStay_union_r w m : keysStay w (setData (m ∪ data (state w)) w).
Proof. intros k Hk. simpl. rewrite lookup_union_is_Some. by right. Qed.

(** Closes the goals [keysStay w (f w)] left by [frame]. *)
Ltac keys_prim :=
  lazymatch goal with
  | |- keysStay ?w (setData (<[_ := _]> _) ?w) => apply keysStay_insert
  | |- keysStay ?w (setData (_ ∪ _) ?w) => apply keysStay_union_r
  | |- keysStay ?w (setData (match ?x with _ => _ end) ?w) => destruct x; keys_prim
  | |- keysStay ?w (match ?x with _ => _ end) => destruct x; keys_prim
  | |- keysStay _ _ =>
      apply keysStay_same; unfold saveState, clearState; simpl;
      repeat case_match; reflexivity
  end.

Lemma validateField_keysStay el : respects keysStay (validateField el).
Proof.
  intros w. destruct (validateField_run el w) as [mk E]. rewrite E.
  by destruct (resultOf (validateField el w)); apply keysStay_same.
Qed.

Lemma validateStep_keysStay s : respects keysStay (validateStep s).
Proof.
  intros w. destruct (validateStep_run s w) as [mk E]. rewrite E.
  by destruct (resultOf (validateStep s w)); apply keysStay_same.
Qed.

Lemma persist_keysStay b : respects keysStay (persist b).
Proof. unfold persist, announcePolite. frame; keys_prim. Qed.

Lemma syncState_keysStay k v : respects keysStay (syncState k v).
Proof. unfold syncState. frame. keys_prim. Qed.

Lemma presentStep_keysStay s f a : respects keysStay (presentStep s f a).
Proof.
  unfold presentStep, setHidden, focusOn, announcePolite, updNode. frame; keys_prim.
Qed.

#[global] Hint Resolve validateField_keysStay validateStep_keysStay persist_keysStay
  syncState_keysStay presentStep_keysStay : frame.

Lemma goToStep_keysStay s f a : respects keysStay (goToStep s f a).
Proof. unfold goToStep. frame; keys_prim. Qed.

Lemma populateReview_keysStay : respects keysStay populateReview.
Proof. unfold populateReview, setSummary, joinOr. frame; keys_prim. Qed.

Lemma renderAllergyChips_keysStay : respects keysStay renderAllergyChips.
Proof. unfold renderAllergyChips. frame; keys_prim. Qed.

#[global] Hint Resolve goToStep_keysStay populateReview_keysStay
  renderAllergyChips_keysStay : frame.

Lemma submitChecks_keysStay ss : respects keysStay (submitChecks ss).
Proof.
  induction ss as [|s rest IH]; simpl; [ frame | ].
  unfold focusOn, announceAssertive. frame; keys_prim.
Qed.

Lemma withListbox_keysStay f : respects keysStay (withListbox f).
Proof. unfold withListbox. frame; keys_prim. Qed.

#[global] Hint Resolve submitChecks_keysStay withListbox_keysStay : frame.

Lemma selectProvider_keysStay name : respects keysStay (selectProvider name).
Proof.
  unfold selectProvider, closeProviderList, focusOn, updNode. frame; keys_prim.
Qed.

Lemma handleInput_keysStay t : respects keysStay (handleInput t).
Proof. unfold handleInput. frame. Qed.

Lemma onProviderInput_keysStay : respects keysStay onProviderInput.
Proof.
  unfold onProviderInput, renderProviderList, openProviderList, closeProviderList.
  frame; keys_prim.
Qed.

Lemma submitDone_keysStay : respects keysStay submitDone.
Proof.
  unfold submitDone, formReset, toggleFormDisabled, announcePolite. frame; keys_prim.
Qed.

Lemma restoreFromStorage_keysStay : respects keysStay restoreFromStorage.
Proof. unfold restoreFromStorage, refillControls. frame; keys_prim. Qed.

Lemma userEdits_keysStay t v : respects keysStay (userEdits t v).
Proof. unfold userEdits, updNode. pose proof handleInput_keysStay. frame; keys_prim. Qed.

#[global] Hint Resolve selectProvider_keysStay handleInput_keysStay
  onProviderInput_keysStay submitDone_keysStay userEdits_keysStay : frame.

Lemma handle_keysStay e : respects keysStay (handle e).
Proof.
  unfold handle, handleNext, handleBack, handleEdit, handleSubmit,
    userTypesProvider, onProviderKeydown, onProviderToggle, onProviderOptionClick,
    onDocumentClick, addAllergyFromInput, removeAllergy, handleCondition,
    handleBlurValidation, onFieldRewrite, onContrastToggle,
    moveProviderActive, openProviderList, closeProviderList, toggleFormDisabled,
    focusOn, announceAssertive, announcePolite, updNode.
  destruct e; frame; keys_prim.
Qed.

Lemma dispatch_keysStay e w : keysStay w (dispatch e w).
Proof.
  unfold dispatch. cbv zeta. case_bool_decide; [ apply handle_keysStay | ].
  transitivity (final (handle e w)); [ apply handle_keysStay | by apply keysStay_same ].
Qed.

Lemma init_keysStay : respects keysStay init.
Proof.
  unfold init, initProviderCombobox, renderProviderList.
  pose proof restoreFromStorage_keysStay. frame; keys_prim.
Qed.

(** X28.  The form data never loses a key.  In every world the page can
    reach, whatever record it started from and whatever events followed,
    [state.data] has each of the 21 keys of its initial literal, so
    [syncState] on a field of the form always finds its key. *)
Theorem state_data_keeps_every_key
  (page : Document) (s : Stored) (m : StorageMode) (b : Browser) (w : World)
  (k : string) :
  reachable page s m b w ->
  is_Some (emptyData !! k) -> is_Some (data (state w) !! k).
Proof.
  intros Hw Hk. induction Hw as [Hc|e w Hw IH].
  - apply (keysStay_same (final (init (boot page s m b)))); [ reflexivity | ].
    by apply init_keysStay.
  - by apply dispatch_keysStay.
Qed.

Lemma state_data_keeps_every_key_witness :
  reachable Sample.page Absent Working Sample.browser Sample.allianzTyped
  /\ is_Some (emptyData !! "insurerPhone")
  /\ is_Some (data (state Sample.allianzTyped) !! "insurerPhone").
Proof.
  assert (H1 : reachable Sample.page Absent Working Sample.browser Sample.allianzTyped).
  { apply reach_step, reach_init. vm_compute. exact I. }
  assert (H2 : is_Some (emptyData !! "insurerPhone")) by (by eexists).
  exact (conj H1 (conj H2 (state_data_keeps_every_key _ _ _ _ _ _ H1 H2))).
Defined.
